(** * Piecewise-linear approximation search of the GNA plugin

    A shallow embedding of
    [src/plugins/intel_gna/transformations/transpose_to_pwl.cpp]:
    [split_search], [pivot_search], [calculate_error_pct], [is_negative],
    [pwl_search], [get_exponent] and [transpose_to_pwl]; and, in the
    module [ov], of the class [ov::Shape] of the second source that the
    file holds.

    C++ [double] is the binary64 type [float] of the kernel; an exception
    is a value of [outcome]; the unbounded [while (true)] of [pivot_search]
    runs on fuel and answers [None] when the fuel is spent. *)

From Stdlib Require Import Reals Lra.
From Stdlib Require Import Floats ZArith List Bool Lia Arith Uint63 String.
Import ListNotations.

Local Open Scope float_scope.

(** ** Exceptions *)

(** The five [std::runtime_error]s the file throws, by message. *)
Inductive runtime_error : Type :=
| OutOfRange            (* "The value is out of range." *)
| PivotNotConverged     (* "Failed to converge in pivot_search!" *)
| PwlNotConverged       (* "Failed to converge in pwl_search!" *)
| ExponentsSize         (* "The size of exponents is more than 1." *)
| UnsupportedElement.   (* "The unsupported type of element." *)

Definition what (e : runtime_error) : string :=
  match e with
  | OutOfRange => "The value is out of range."
  | PivotNotConverged => "Failed to converge in pivot_search!"
  | PwlNotConverged => "Failed to converge in pwl_search!"
  | ExponentsSize => "The size of exponents is more than 1."
  | UnsupportedElement => "The unsupported type of element."
  end.

(** The error kinds of the specification, and the kind each message
    belongs to.  No message of the file stands for [InvalidDomain]. *)
Inductive error_kind : Type :=
| InvalidDomain | DomainError | UnsupportedType | NotConverged.

Definition kind_of (e : runtime_error) : error_kind :=
  match e with
  | OutOfRange => DomainError
  | PivotNotConverged | PwlNotConverged => NotConverged
  | ExponentsSize | UnsupportedElement => UnsupportedType
  end.

Inductive outcome (A : Type) : Type :=
| Returned (a : A)
| Thrown (e : runtime_error).
Arguments Returned {A} a.
Arguments Thrown {A} e.

Definition bind {A B : Type} (c : outcome A) (k : A -> outcome B) : outcome B :=
  match c with
  | Returned a => k a
  | Thrown e => Thrown e
  end.

Notation "'do' x <- c ; k" := (bind c (fun x => k))
  (at level 10, x pattern, c at level 100, k at level 200).

(** ** Numbers and vectors *)

(** [static_cast<double>] of a non-negative [int]. *)
Definition of_nat (n : nat) : float := of_uint63 (Uint63.of_Z (Z.of_nat n)).

(** [std::vector<double>::resize]: cut, or fill with zeros. *)
Definition resize (n : nat) (v : list float) : list float :=
  firstn n v ++ repeat 0 (n - List.length v).

(** [v[i]] of a [std::vector<double>] (0 stands for a read out of range,
    which the program never does). *)
Definition at1 (v : list float) (i : nat) : float := nth i v 0.

(** [v[i][j]] of a [std::vector<std::vector<double>>]. *)
Definition at2 (v : list (list float)) (i j : nat) : float :=
  at1 (nth i v []) j.

Fixpoint update_row (v : list (list float)) (i : nat)
    (f : list float -> list float) : list (list float) :=
  match v, i with
  | [], _ => []
  | r :: v', O => f r :: v'
  | r :: v', S i' => r :: update_row v' i' f
  end.

(** [v[i].resize(n)]. *)
Definition resize_row (v : list (list float)) (i n : nat) : list (list float) :=
  update_row v i (resize n).

(** [r.resize(j + 1); r[j] = x] on one row: the first [j] elements of
    [r], zeros where [r] is shorter, then [x]. *)
Fixpoint resize_put (r : list float) (j : nat) (x : float) : list float :=
  match j with
  | O => [x]
  | S j' =>
      match r with
      | [] => 0 :: resize_put [] j' x
      | y :: r' => y :: resize_put r' j' x
      end
  end.

(** [v[i].resize(j + 1); v[i][j] = x]. *)
Definition set2 (v : list (list float)) (i j : nat) (x : float)
    : list (list float) :=
  update_row v i (fun r => resize_put r j x).

(** ** Activations *)

(** The template argument [T]. *)
Inductive Activation : Type :=
| Sigmoid | Tanh | Exp | Power | PowerIE | Log | SoftSign.

Definition Activation_eqb (a b : Activation) : bool :=
  match a, b with
  | Sigmoid, Sigmoid | Tanh, Tanh | Exp, Exp | Power, Power
  | PowerIE, PowerIE | Log, Log | SoftSign, SoftSign => true
  | _, _ => false
  end.

Module details.

(** [details::Pwl]: one segment. *)
Record Pwl : Type := mkPwl { m : float; b : float; alpha : float }.

(** [details::Function<T>]: the members the file uses. *)
Record Function : Type := mkFunction {
  get_value : float -> float;
  first_derivative : float -> float;
  m_exponent : float
}.

(** Modelled from the spec: [details::max_iterations<T>()] of the header
    [transpose_to_pwl.hpp]; 5000 for Log, 2000 otherwise. *)
Definition max_iterations (T : Activation) : nat :=
  match T with Log => 5000 | _ => 2000 end.

(** Modelled from the spec: [details::max_segments_number<T>()] of the
    same header; 128 for every activation. *)
Definition max_segments_number (T : Activation) : nat := 128.

End details.

Import details.

(** [static constexpr double EXP_BREAK = 0.045], as the nearest double. *)
Definition EXP_BREAK : float := 0x1.70a3d70a3d70ap-5.

Definition get_break_bound (T : Activation) : float :=
  match T with Exp => EXP_BREAK | _ => 0 end.

Definition split_search (T : Activation) (lower_bound upper_bound : float) : bool :=
  if upper_bound <? lower_bound then false
  else
    let break_bound := get_break_bound T in
    match T with
    | Sigmoid | Tanh | SoftSign | Exp | Power =>
        (lower_bound <? break_bound) && (break_bound <? upper_bound)
    | _ => false
    end.

(** ** [pivot_search] *)

(** The locals of [pivot_search] that live across iterations of its
    [while (true)]. *)
Record pivot_state : Type := mkPivotState {
  v_j : nat;
  v_Delta : float;
  v_same_epsilon : bool;
  v_max_epsilon : float;
  v_t : list (list float);
  v_alpha : list (list float);
  v_epsilon : list (list float);
  v_d : list (list float)
}.

(** The default argument [threshold = 0.1], as the nearest double. *)
Definition default_threshold : float := 0x1.999999999999ap-4.

Section PivotSearch.

Variable T : Activation.
Variable activation_function : Function.
Variable N : nat.
Variables alpha_0 alpha_N : float.
Variable negative : bool.
Variable threshold : float.

Definition sgn : float := if negative then -1 else 1.

(** Figure 4, box 1: the seeds [t[i][0]]. *)
Definition seed_t : list (list float) :=
  map (fun i => [alpha_0 + (of_nat (i + 1) / of_nat (N + 1)) * (alpha_N - alpha_0)])
      (seq 0 N) ++ [[]].

Definition pivot_init : pivot_state :=
  mkPivotState 0 1 false 0 seed_t (repeat [] (N + 1)) (repeat [] (N + 1))
               (repeat [] (N + 1)).

(** Figure 4, box 2: the column [alpha[.][j]]. *)
Definition alpha_at (t : list (list float)) (j i : nat) : float :=
  (get_value activation_function (at2 t (i - 1) j)
   - get_value activation_function (at2 t i j)
   + first_derivative activation_function (at2 t i j) * at2 t i j
   - first_derivative activation_function (at2 t (i - 1) j) * at2 t (i - 1) j)
  / (first_derivative activation_function (at2 t i j)
     - first_derivative activation_function (at2 t (i - 1) j)).

Definition box2 (t alpha : list (list float)) (j : nat) : list (list float) :=
  let alpha := set2 alpha 0 j alpha_0 in
  let alpha :=
    fold_left (fun alpha i => set2 alpha i j (alpha_at t j i)) (seq 1 (N - 1)) alpha in
  set2 alpha N j alpha_N.

(** Figure 4, box 3: the signed error at [alpha[i][j]], for the tangent
    at [t[k][j]] ([k = i] inside, [k = N - 1] at the end). *)
Definition epsilon_at (t alpha : list (list float)) (j k i : nat) : float :=
  sgn * (first_derivative activation_function (at2 t k j) * (at2 alpha i j - at2 t k j)
         + get_value activation_function (at2 t k j)
         - get_value activation_function (at2 alpha i j)).

Fixpoint box3_loop (t alpha : list (list float)) (j : nat) (idx : list nat)
    (epsilon : list (list float)) : outcome (list (list float)) :=
  match idx with
  | [] => Returned epsilon
  | i :: idx' =>
      let epsilon := set2 epsilon i j (epsilon_at t alpha j i i) in
      if is_nan (at2 epsilon i j) then Thrown OutOfRange
      else box3_loop t alpha j idx' epsilon
  end.

Definition box3 (t alpha : list (list float)) (j : nat)
    (epsilon : list (list float)) : outcome (list (list float)) :=
  do epsilon <- box3_loop t alpha j (seq 0 N) epsilon;
  let epsilon := set2 epsilon N j (epsilon_at t alpha j (N - 1) N) in
  if is_nan (at2 epsilon N j) then Thrown OutOfRange else Returned epsilon.

(** Figure 4, test for completion: the largest and the smallest
    [fabs(epsilon[i][j])]. *)
Definition max_min_epsilon (epsilon : list (list float)) (j : nat) : float * float :=
  fold_left
    (fun mm i =>
       let e := abs (at2 epsilon i j) in
       (if fst mm <? e then e else fst mm, if e <? snd mm then e else snd mm))
    (seq 1 N)
    (abs (at2 epsilon 0 j), abs (at2 epsilon 0 j)).

(** The segments pushed on completion. *)
Definition emit_segment (t alpha : list (list float)) (j : nat)
    (epsilon_final : float) (i : nat) : Pwl :=
  let value_t := at2 t i j in
  let value_alpha := at2 alpha i j in
  let val :=
    sgn * first_derivative activation_function value_t * (value_alpha - value_t)
    + sgn * get_value activation_function value_t - epsilon_final in
  let val_next :=
    sgn * first_derivative activation_function value_t * (at2 alpha (i + 1) j - value_t)
    + sgn * get_value activation_function value_t - epsilon_final in
  let value_m := (val_next - val) / (at2 alpha (i + 1) j - value_alpha) in
  let value_b := val - value_m * value_alpha in
  mkPwl value_m value_b value_alpha.

Definition emit (t alpha : list (list float)) (j : nat) (epsilon_final : float)
    : list Pwl :=
  map (emit_segment t alpha j epsilon_final) (seq 0 N)
  ++ [mkPwl 0 0 (at2 alpha N j)].

(** Figure 4, box 4: the steps [d[i][j]]. *)
Definition d_at (Delta : float) (t alpha epsilon : list (list float)) (j i : nat)
    : float :=
  Delta * (at2 epsilon (i + 1) j - at2 epsilon i j)
  / ((at2 epsilon (i + 1) j / (at2 alpha (i + 1) j - at2 t i j))
     + (at2 epsilon i j / (at2 t i j - at2 alpha i j))).

Definition box4 (Delta : float) (t alpha epsilon d : list (list float)) (j : nat)
    : list (list float) :=
  fold_left (fun d i => set2 d i j (d_at Delta t alpha epsilon j i)) (seq 0 N) d.

(** Figure 4, box 5: the next tangent points [t[i][j + 1]]. *)
Definition box5 (t d : list (list float)) (j : nat) : list (list float) :=
  let t :=
    fold_left (fun t' i => set2 t' i (j + 1) (at2 t' i j + at2 d i j)) (seq 0 N) t in
  resize_row t N (j + 2).

(** The spread test of the completion condition. *)
Definition spread_test (max_epsilon min_epsilon : float) : bool :=
  max_epsilon - min_epsilon <? threshold * min_epsilon.

(** One turn of the [while (true)]: either the call ends (left), by
    [return] or by [throw], or the loop goes on with new locals (right). *)
Definition pivot_body (st : pivot_state)
    : outcome (list Pwl * float) + pivot_state :=
  let j := v_j st in
  let alpha := box2 (v_t st) (v_alpha st) j in
  match box3 (v_t st) alpha j (v_epsilon st) with
  | Thrown e => inl (Thrown e)
  | Returned epsilon =>
      let max_epsilon_prev := v_max_epsilon st in
      let (max_epsilon, min_epsilon) := max_min_epsilon epsilon j in
      if (j =? max_iterations T)%nat || spread_test max_epsilon min_epsilon then
        let epsilon_final := (max_epsilon + min_epsilon) / 4 in
        let result := emit (v_t st) alpha j epsilon_final in
        if (j =? max_iterations T)%nat then inl (Thrown PivotNotConverged)
        else inl (Returned (result, epsilon_final))
      else
        let '(j, Delta, same_epsilon) :=
          if (0 <? j)%nat then
            if max_epsilon_prev <? max_epsilon then
              ((j - 1)%nat, v_Delta st / 2, v_same_epsilon st)
            else if max_epsilon =? max_epsilon_prev then
              if negb (v_same_epsilon st) then (j, v_Delta st, true)
              else ((j - 1)%nat, v_Delta st / 2, false)
            else (j, v_Delta st, v_same_epsilon st)
          else (j, v_Delta st, v_same_epsilon st) in
        let d := box4 Delta (v_t st) alpha epsilon (v_d st) j in
        let t := box5 (v_t st) d j in
        inr (mkPivotState (j + 1) Delta same_epsilon max_epsilon t alpha epsilon d)
  end.

Fixpoint pivot_loop (fuel : nat) (st : pivot_state)
    : option (outcome (list Pwl * float)) :=
  match fuel with
  | O => None
  | S fuel' =>
      match pivot_body st with
      | inl r => Some r
      | inr st' => pivot_loop fuel' st'
      end
  end.

End PivotSearch.

(** [pivot_search]: [result] is the caller's vector, emptied by
    [result.resize(0)] before the segments are pushed; [max_error] is not
    read.  The answer is the new [result] and the returned
    [epsilon_final]. *)
Definition pivot_search (fuel : nat) (T : Activation) (activation_function : Function)
    (result : list Pwl) (N : nat) (alpha_0 alpha_N : float) (negative : bool)
    (max_error : float) (threshold : float)
    : option (outcome (list Pwl * float)) :=
  pivot_loop T activation_function N alpha_0 alpha_N negative threshold fuel
             (pivot_init N alpha_0 alpha_N).

(** ** [calculate_error_pct] *)

(** Modelled from the spec: [runtime::reference::pwl] of
    [ops/reference/pwl.hpp], which evaluates [y = m[i] * x + b[i]] on the
    segment [i] whose interval [[alpha[i], alpha[i + 1])] holds [x], by a
    search over the knots; the first segment serves below [alpha[0]] and
    the last one from the last inner knot on. *)
Fixpoint range_search (x : float) (inner_knots : list float) : nat :=
  match inner_knots with
  | [] => 0
  | k :: rest => if k <=? x then S (range_search x rest) else 0
  end.

Definition reference_pwl (args m b knots : list float) : list float :=
  map (fun x =>
         let i := range_search x (removelast (tl knots)) in
         at1 m i * x + at1 b i)
      args.

(** The vector [in] of [calculate_error_pct]. *)
Definition sample_inputs (lower_bound delta : float) (samples : nat) : list float :=
  map (fun i => lower_bound + of_nat i * delta) (seq 0 samples).

(** The default argument [samples = 500]. *)
Definition default_samples : nat := 500.

Definition calculate_error_pct (activation_function : Function)
    (segments : list Pwl) (lower_bound upper_bound offset : float)
    (negative : bool) (samples : nat) : float :=
  let sgn := if negative then -1 else 1 in
  let delta := (upper_bound - lower_bound) / of_nat (samples + 1) in
  if delta <? 0 then 0
  else
    let n := (List.length segments - 1)%nat in
    let m := map m (firstn n segments) in
    let b := map b (firstn n segments) in
    let alpha := map alpha segments in
    let inp := sample_inputs lower_bound delta samples in
    let out := reference_pwl inp m b alpha in
    let max_err := abs (get_value activation_function lower_bound - sgn * at1 out 0) in
    fold_left
      (fun max_err i =>
         let err :=
           abs (get_value activation_function (lower_bound + of_nat i * delta)
                - sgn * at1 out i) in
         if max_err <? err then err else max_err)
      (seq 0 samples) max_err.

(** ** [is_negative] and [max_error] *)

(** [std::fmod(x, 1.0)]: the fractional part of [x] with the sign of [x];
    NaN for an infinite or NaN [x]. *)
Definition fmod_1 (x : float) : float :=
  match Prim2SF x with
  | S754_zero _ => x
  | S754_infinity _ | S754_nan => nan
  | S754_finite s mx e =>
      let r := if (0 <=? e)%Z then 0%Z else (Z.pos mx mod 2 ^ (- e))%Z in
      if (r =? 0)%Z then (if s then -0 else 0)
      else
        let v := Z.ldexp (of_uint63 (Uint63.of_Z r)) e in
        if s then - v else v
  end.

Definition is_negative (T : Activation) (activation_function : Function)
    (upper_bound : float) : bool :=
  match T with
  | Sigmoid | Tanh | SoftSign => upper_bound =? 0
  | Exp => true
  | Power => fmod_1 (m_exponent activation_function) =? 0
  | _ => false
  end.

Definition max_error (T : Activation) (activation_function : Function)
    (allowed_err_pct : float) : float :=
  match T with
  | Power =>
      if m_exponent activation_function =? 0 then allowed_err_pct
      else allowed_err_pct
  | _ => allowed_err_pct
  end.

(** ** [pwl_search] *)

(** The lambda [negative_pwl]. *)
Definition negative_pwl (data : list Pwl) : list Pwl :=
  map (fun e => mkPwl (- m e) (- b e) (alpha e)) data.

(** The [while] of the search by segment count; the answer is the final
    [segments_number], [pwl] and [err_pct]. *)
Fixpoint grow (fuel gas : nat) (T : Activation) (activation_function : Function)
    (lower_bound upper_bound allowed_err_pct : float) (negative : bool)
    (segments_number : nat) (pwl : list Pwl) (err_pct : float)
    : option (outcome (nat * list Pwl * float)) :=
  if (segments_number <? max_segments_number T)%nat
     && (max_error T activation_function allowed_err_pct <? err_pct) then
    match gas with
    | O => None
    | S gas' =>
        let segments_number := S segments_number in
        match pivot_search fuel T activation_function pwl segments_number
                lower_bound upper_bound negative
                (max_error T activation_function allowed_err_pct)
                default_threshold with
        | None => None
        | Some (Thrown e) => Some (Thrown e)
        | Some (Returned (pwl, err)) =>
            let err_pct :=
              calculate_error_pct activation_function pwl lower_bound upper_bound
                                  err negative default_samples in
            grow fuel gas' T activation_function lower_bound upper_bound
                 allowed_err_pct negative segments_number pwl err_pct
        end
    end
  else Some (Returned (segments_number, pwl, err_pct)).

(** The [else] branch of [pwl_search] up to the end of its [while]: the
    first [pivot_search], with one segment, and the growth of the count. *)
Definition search_segments (fuel : nat) (T : Activation)
    (activation_function : Function)
    (lower_bound upper_bound allowed_err_pct : float) (pwl : list Pwl)
    : option (outcome (nat * list Pwl * float)) :=
  let segments_number := 1%nat in
  let negative := is_negative T activation_function upper_bound in
  match pivot_search fuel T activation_function pwl segments_number
          lower_bound upper_bound negative
          (max_error T activation_function allowed_err_pct) default_threshold with
  | None => None
  | Some (Thrown e) => Some (Thrown e)
  | Some (Returned (pwl, err)) =>
      let err_pct :=
        calculate_error_pct activation_function pwl lower_bound upper_bound
                            err negative default_samples in
      grow fuel fuel T activation_function lower_bound upper_bound
           allowed_err_pct negative segments_number pwl err_pct
  end.

(** The [else] branch of [pwl_search]: no split. *)
Definition segment_search (fuel : nat) (T : Activation)
    (activation_function : Function)
    (lower_bound upper_bound allowed_err_pct : float) (pwl : list Pwl)
    : option (outcome (list Pwl * float)) :=
  match search_segments fuel T activation_function lower_bound upper_bound
          allowed_err_pct pwl with
  | None => None
  | Some (Thrown e) => Some (Thrown e)
  | Some (Returned (segments_number, pwl, err_pct)) =>
      if (max_segments_number T <=? segments_number)%nat
      then Some (Thrown PwlNotConverged)
      else Some (Returned (pwl, err_pct))
  end.

(** The merge of the two halves. *)
Definition merge (pwl pwl2 : list Pwl) : list Pwl :=
  (match pwl with [] => pwl | _ => removelast pwl end) ++ pwl2.

(** [pwl_search<T>(activation_function, lower_bound, upper_bound,
    allowed_err_pct, err_pct)]; [err_pct] goes in and comes out. *)
Fixpoint pwl_search (fuel : nat) (T : Activation) (activation_function : Function)
    (lower_bound upper_bound allowed_err_pct err_pct : float)
    : option (outcome (list Pwl * float)) :=
  match fuel with
  | O => None
  | S fuel' =>
      let pwl : list Pwl := [] in
      if upper_bound <? lower_bound then Some (Returned (pwl, err_pct))
      else if split_search T lower_bound upper_bound then
        let err_pct1 := 0 in
        let err_pct2 := 0 in
        let break_bound := get_break_bound T in
        match pwl_search fuel' T activation_function lower_bound break_bound
                allowed_err_pct err_pct1 with
        | None => None
        | Some (Thrown e) => Some (Thrown e)
        | Some (Returned (pwl, err_pct1)) =>
            let pwl := negative_pwl pwl in
            match pwl_search fuel' T activation_function break_bound upper_bound
                    allowed_err_pct err_pct2 with
            | None => None
            | Some (Thrown e) => Some (Thrown e)
            | Some (Returned (pwl2, err_pct2)) =>
                let pwl2 :=
                  match T with
                  | Exp | Power => negative_pwl pwl2
                  | _ => pwl2
                  end in
                Some (Returned (merge pwl pwl2, (err_pct1 + err_pct2) / 2))
            end
        end
      else
        segment_search fuel' T activation_function lower_bound upper_bound
                       allowed_err_pct pwl
  end.

(** ** The Power exponent and the entry by node *)

Module element.

(** [ov::element::Type_t]. *)
Inductive Type_t : Type :=
| undefined | dynamic | boolean | bf16 | f16 | f32 | f64
| i4 | i8 | i16 | i32 | i64 | u1 | u4 | u8 | u16 | u32 | u64.

Definition eqb (x y : Type_t) : bool :=
  match x, y with
  | undefined, undefined | dynamic, dynamic | boolean, boolean
  | bf16, bf16 | f16, f16 | f32, f32 | f64, f64
  | i4, i4 | i8, i8 | i16, i16 | i32, i32 | i64, i64
  | u1, u1 | u4, u4 | u8, u8 | u16, u16 | u32, u32 | u64, u64 => true
  | _, _ => false
  end.

End element.

(** [ngraph::opset8::Constant]: its element type and its elements, each
    already converted to [double] as [exponent = exponents[0]] does. *)
Record Constant : Type := mkConstant {
  get_element_type : element.Type_t;
  get_vector : list float
}.

(** [get_exponent<T>(constant, exponent)]: the flag and the new
    [exponent]. *)
Definition get_exponent_as (constant : Constant) (exponent : float)
    : outcome (bool * float) :=
  match get_vector constant with
  | [e] => Returned (true, e)
  | _ => Thrown ExponentsSize
  end.

(** [get_exponent(std::tuple<T, Types...>(), constant, exponent)]: the
    first [T] of the tuple that is the constant's type reads the
    exponent; with none, the answer is [false]. *)
Fixpoint get_exponent (types : list element.Type_t) (constant : Constant)
    (exponent : float) : outcome (bool * float) :=
  match types with
  | [] => Returned (false, exponent)
  | T :: Types =>
      if element.eqb (get_element_type constant) T
      then get_exponent_as constant exponent
      else get_exponent Types constant exponent
  end.

(** The tuple of [pwl_search<ngraph::opset8::Power>]. *)
Definition exponent_types : list element.Type_t :=
  [element.i32; element.i64; element.u32; element.u64;
   element.f16; element.f32; element.f64].

(** What the file takes from the header [transpose_to_pwl.hpp], which is
    not among the sources: [details::Function<T>()],
    [details::Function<Power>(exponent, scale, shift)],
    [details::lower_bound<T>()], [details::upper_bound<T>()],
    [details::lower_bound<Power>(exponent)] and
    [details::are_floats_equal]. *)
Record Header : Type := mkHeader {
  Function_of : Activation -> Function;
  Function_Power : float -> float -> float -> Function;
  lower_bound : Activation -> float;
  upper_bound : Activation -> float;
  lower_bound_Power : float -> float;
  are_floats_equal : float -> float -> bool
}.

Definition INT32_MIN : float := -2147483648.
Definition INT32_MAX : float := 2147483647.

(** The nodes the matcher of [TransposeToPwl] hands to [transpose_to_pwl];
    a Power node comes with the constant of its input 1. *)
Inductive Node : Type :=
| SigmoidNode
| TanhNode
| ExpNode
| PowerNode (constant : Constant)
| PowerIENode (power scale shift : float)
| LogNode
| SoftSignNode.

(** The operands of the [Pwl] node that replaces the activation. *)
Record PwlOp : Type := mkPwlOp {
  m_constant : list float;
  b_constant : list float;
  alpha_constant : list float
}.

Section Entry.

Variable h : Header.

(** [pwl_search<ngraph::opset8::Power>(node, allowed_err_pct, err_pct)]. *)
Definition pwl_search_Power (fuel : nat) (constant : Constant)
    (allowed_err_pct err_pct : float) : option (outcome (list Pwl * float)) :=
  match get_exponent exponent_types constant 0 with
  | Thrown e => Some (Thrown e)
  | Returned (false, _) => Some (Thrown UnsupportedElement)
  | Returned (true, exponent) =>
      if are_floats_equal h exponent 1 then
        Some (Returned ([mkPwl 1 0 INT32_MIN; mkPwl 0 0 INT32_MAX], err_pct))
      else
        pwl_search fuel Power (Function_Power h exponent 1 0)
                   (lower_bound_Power h exponent) (upper_bound h Power)
                   allowed_err_pct err_pct
  end.

(** [pwl_search<T>(node, allowed_err_pct, err_pct)] and its two
    specializations. *)
Definition pwl_search_node (fuel : nat) (node : Node)
    (allowed_err_pct err_pct : float) : option (outcome (list Pwl * float)) :=
  let generic T :=
    pwl_search fuel T (Function_of h T) (lower_bound h T) (upper_bound h T)
               allowed_err_pct err_pct in
  match node with
  | SigmoidNode => generic Sigmoid
  | TanhNode => generic Tanh
  | ExpNode => generic Exp
  | LogNode => generic Log
  | SoftSignNode => generic SoftSign
  | PowerNode constant => pwl_search_Power fuel constant allowed_err_pct err_pct
  | PowerIENode power scale shift =>
      pwl_search fuel Power (Function_Power h power scale shift)
                 (lower_bound_Power h power) (upper_bound h Power)
                 allowed_err_pct err_pct
  end.

(** [transpose_to_pwl(node, allowed_err_pct)]: [None] is [false] (the
    node stays), [Some op] is [true] (the node is replaced by [op]). *)
Definition transpose_to_pwl (fuel : nat) (node : Node) (allowed_err_pct : float)
    : option (outcome (option PwlOp)) :=
  let err_pct := 0 in
  match pwl_search_node fuel node allowed_err_pct err_pct with
  | None => None
  | Some (Thrown e) => Some (Thrown e)
  | Some (Returned (segments, _)) =>
      if (List.length segments <? 2)%nat then Some (Returned None)
      else
        let n := (List.length segments - 1)%nat in
        Some (Returned (Some (mkPwlOp (map m (firstn n segments))
                                      (map b (firstn n segments))
                                      (map alpha segments))))
  end.

End Entry.

(** ** Instances of the header for the examples *)

(** [std::pow(u, p)] for a natural exponent [p], by repeated
    multiplication. *)
Fixpoint pow_nat (u : float) (p : nat) : float :=
  match p with
  | O => 1
  | S p' => u * pow_nat u p'
  end.

(** Modelled from the spec: [details::Function<ngraph::opset8::Power>] of
    the header, for a natural exponent [p]: the value [(scale * x + shift)^p]
    and its analytic derivative [p * scale * (shift + x * scale)^(p - 1)]. *)
Definition Function_Power_nat (p : nat) (scale shift : float) : Function :=
  mkFunction
    (fun x => pow_nat (x * scale + shift) p)
    (fun x => of_nat p * scale * pow_nat (shift + x * scale) (p - 1))
    (of_nat p).

(** Modelled from the spec: [details::Function<SoftSign>] of the header,
    the value [x / (1 + |x|)] and its analytic derivative. *)
Definition Function_SoftSign : Function :=
  mkFunction
    (fun x => x / (1 + abs x))
    (fun x => 1 / ((1 + abs x) * (1 + abs x)))
    0.

(** Modelled from the spec: [details::are_floats_equal] of the header,
    equality within a tolerance of one unit in the last place. *)
Definition are_floats_equal_ulp (p1 p2 : float) : bool :=
  abs (p1 - p2) <=? 0x1p-52 * (if abs p1 <? abs p2 then abs p1 else abs p2).

(** The natural number a non-negative integral [double] stands for: the
    value [mx * 2^e] of a positive [double], when it is an integer (0 for
    any other value). *)
Definition to_nat (x : float) : nat :=
  match Prim2SF x with
  | S754_finite false mx e =>
      if (0 <=? e)%Z then Z.to_nat (Z.pos mx * 2 ^ e)
      else if (Z.pos mx mod 2 ^ (- e) =? 0)%Z then Z.to_nat (Z.pos mx / 2 ^ (- e))
      else 0%nat
  | _ => 0%nat
  end.

(** Modelled from the spec: a header for the examples.  Every default
    activation is SoftSign on [[-10, 10]].  The Power function is
    [(scale * x + shift)^p] with [m_exponent = p], its value and derivative
    computed for an exponent [p] that is a natural number, the only
    exponents of the examples; its domain is [[-16, 16]] for an integral
    exponent and [[0, 16]] otherwise. *)
Definition example_header : Header :=
  mkHeader
    (fun _ => Function_SoftSign)
    (fun exponent scale shift =>
       let f := Function_Power_nat (to_nat exponent) scale shift in
       mkFunction (get_value f) (first_derivative f) exponent)
    (fun _ => -10)
    (fun T => match T with Power => 16 | _ => 10 end)
    (fun exponent => if fmod_1 exponent =? 0 then -16 else 0)
    are_floats_equal_ulp.

(** ** Vocabulary of the properties *)

(** [x] is a NaN. *)
Definition isNaN (x : float) : Prop := Prim2SF x = S754_nan.

(** The locals after [k] more turns of the [while (true)] of
    [pivot_search], none of which ends the call. *)
Fixpoint pivot_run (T : Activation) (activation_function : Function) (N : nat)
    (alpha_0 alpha_N : float) (negative : bool) (threshold : float)
    (k : nat) (st : pivot_state) : option pivot_state :=
  match k with
  | O => Some st
  | S k' =>
      match pivot_body T activation_function N alpha_0 alpha_N negative threshold st with
      | inl _ => None
      | inr st' =>
          pivot_run T activation_function N alpha_0 alpha_N negative threshold k' st'
      end
  end.

(** The signed error [epsilon[i][j]] that one turn evaluates, [i <= N],
    from the locals at the head of the turn. *)
Definition epsilon_value (activation_function : Function) (N : nat)
    (alpha_0 alpha_N : float) (negative : bool) (st : pivot_state) (i : nat) : float :=
  epsilon_at activation_function negative (v_t st)
    (box2 activation_function N alpha_0 alpha_N (v_t st) (v_alpha st) (v_j st))
    (v_j st) (Nat.min i (N - 1)) i.

(** The vectors [alpha] and [epsilon] have their [N + 1] rows. *)
Definition rows_ok (N : nat) (st : pivot_state) : Prop :=
  List.length (v_alpha st) = (N + 1)%nat /\ List.length (v_epsilon st) = (N + 1)%nat.

(** A segment list that starts at [L] and ends at [U]: at least two
    segments, the first with alpha [L], the last with alpha [U]. *)
Definition brackets (L U : float) (pwl : list Pwl) : Prop :=
  exists first mid last,
    pwl = first :: mid ++ [last] /\ alpha first = L /\ alpha last = U.

(** The alphas of a segment list increase strictly. *)
Fixpoint strictly_increasing (alphas : list float) : bool :=
  match alphas with
  | x :: ((y :: _) as rest) => (x <? y) && strictly_increasing rest
  | _ => true
  end.

(** The segments of an answer, without the error estimate. *)
Definition segments_of (r : outcome (list Pwl * float)) : outcome (list Pwl) :=
  match r with
  | Returned (pwl, _) => Returned pwl
  | Thrown e => Thrown e
  end.

(** The value of a [double] is an integer. *)
Definition integral (x : float) : Prop :=
  match Prim2SF x with
  | S754_zero _ => True
  | S754_finite _ mx e => (0 <= e)%Z \/ (Z.pos mx mod 2 ^ (- e) = 0)%Z
  | _ => False
  end.

(** The [if] branch of [pwl_search], entered when [split_search] holds:
    the search of the two halves and their merge. *)
Definition split_path (fuel : nat) (T : Activation) (activation_function : Function)
    (lower_bound upper_bound allowed_err_pct : float)
    : option (outcome (list Pwl * float)) :=
  let break_bound := get_break_bound T in
  match pwl_search fuel T activation_function lower_bound break_bound
          allowed_err_pct 0 with
  | None => None
  | Some (Thrown e) => Some (Thrown e)
  | Some (Returned (pwl, err_pct1)) =>
      match pwl_search fuel T activation_function break_bound upper_bound
              allowed_err_pct 0 with
      | None => None
      | Some (Thrown e) => Some (Thrown e)
      | Some (Returned (pwl2, err_pct2)) =>
          Some (Returned
                  (merge (negative_pwl pwl)
                         (match T with
                          | Exp | Power => negative_pwl pwl2
                          | _ => pwl2
                          end),
                   (err_pct1 + err_pct2) / 2))
      end
  end.

(** The activation of a node that takes the generic
    [pwl_search<T>(node, ...)]; the two Power nodes have their own. *)
Definition generic_activation (node : Node) : option Activation :=
  match node with
  | SigmoidNode => Some Sigmoid
  | TanhNode => Some Tanh
  | ExpNode => Some Exp
  | LogNode => Some Log
  | SoftSignNode => Some SoftSign
  | PowerNode _ | PowerIENode _ _ _ => None
  end.

(** The sub-domains searched in the scenarios of the specification:
    Sigmoid and SoftSign on [[-10, 10]], Tanh on [[-5, 5]], Power on
    [[-1, 1]], each split at 0, and Exp on [[-4, ln 32767]], split at
    [EXP_BREAK]. *)
Definition scenario_domains : list (float * float) :=
  [(-10, 0); (0, 10); (-5, 0); (0, 5); (-1, 0); (0, 1);
   (-4, EXP_BREAK); (EXP_BREAK, 0x1.4cb5acf06964bp+3)].

(** The outputs [out] of [calculate_error_pct]: the PWL of [segments]
    evaluated on the inputs [inp]. *)
Definition pwl_outputs (segments : list Pwl) (inp : list float) : list float :=
  let n := (List.length segments - 1)%nat in
  reference_pwl inp (map m (firstn n segments)) (map b (firstn n segments))
                (map alpha segments).

(** The value at [x] of the PWL of [segments], as [calculate_error_pct]
    has it computed: one entry of [out]. *)
Definition pwl_value (segments : list Pwl) (x : float) : float :=
  let n := (List.length segments - 1)%nat in
  let i := range_search x (removelast (tl (map alpha segments))) in
  at1 (map m (firstn n segments)) i * x + at1 (map b (firstn n segments)) i.

(** ** Vocabulary of the rounding *)

(** [2^e] as a real number. *)
Definition bpow (e : Z) : R := powerRZ 2 e.

(** The real number that a finite [double] stands for (0 for the others). *)
Definition B2R (x : spec_float) : R :=
  match x with
  | S754_finite s m e => (IZR (cond_Zopp s (Z.pos m)) * bpow e)%R
  | _ => 0%R
  end.

(** A zero or a finite number: no infinity, no NaN. *)
Definition finite_SF (x : spec_float) : bool :=
  match x with
  | S754_zero _ | S754_finite _ _ _ => true
  | _ => false
  end.

(** [r] is finite and stands for the real number [z] up to two units in
    the last place of [z], or two steps of the subnormal numbers; it is
    not on the other side of zero. *)
Definition approx (r : spec_float) (z : R) : Prop :=
  finite_SF r = true
  /\ (Rabs (B2R r - z) <= bpow (-51) * Rabs z + bpow (-1073))%R
  /\ (0 < z -> 0 <= B2R r)%R
  /\ (z < 0 -> B2R r <= 0)%R.

(** The value of a finite [double] in units of [2^-1074], the least
    positive [double]. *)
Definition scaled (x : spec_float) : option Z :=
  match x with
  | S754_zero _ => Some 0%Z
  | S754_finite s m e =>
      if (-1074 <=? e)%Z then Some (cond_Zopp s (Z.pos m * 2 ^ (e + 1074)))%Z else None
  | _ => None
  end.

(** The bounds [L < U] of a domain are well apart: both are finite and
    at most [2^1020] in magnitude, and [U - L] is at least [2^-1050] and
    at least [2^-43] times the larger magnitude of the two. *)
Definition well_separated (L U : float) : bool :=
  match scaled (Prim2SF L), scaled (Prim2SF U) with
  | Some l, Some u =>
      (Z.max (Z.abs l) (Z.abs u) <=? 2 ^ 2094)%Z
      && (2 ^ 24 <=? u - l)%Z
      && (Z.max (Z.abs l) (Z.abs u) <=? 2 ^ 43 * (u - l))%Z
  | _, _ => false
  end.

(** ** [pivot_search] on two columns *)

(** Of its four vectors a turn of [pivot_search] reads the column [j] it
    is writing and, when it steps back, the column [j - 1].  The
    definitions below run the same search on these columns alone; they
    serve to run long searches, and are proved equal to [pivot_search]
    further down. *)
Record pivot_columns : Type := mkPivotColumns {
  c_j : nat;
  c_Delta : float;
  c_same_epsilon : bool;
  c_max_epsilon : float;
  c_t : list float;              (* t[.][j] *)
  c_t_prev : list float;         (* t[.][j - 1] *)
  c_alpha_prev : list float;     (* alpha[.][j - 1] *)
  c_epsilon_prev : list float    (* epsilon[.][j - 1] *)
}.

Section PivotColumns.

Variable T : Activation.
Variable activation_function : Function.
Variable N : nat.
Variables alpha_0 alpha_N : float.
Variable negative : bool.
Variable threshold : float.

(** The crossing of the tangents at [t0] and [t1]. *)
Definition cross (t0 t1 : float) : float :=
  (get_value activation_function t0 - get_value activation_function t1
   + first_derivative activation_function t1 * t1
   - first_derivative activation_function t0 * t0)
  / (first_derivative activation_function t1 - first_derivative activation_function t0).

Definition alpha_column (t : list float) : list float :=
  alpha_0 :: map (fun p => cross (fst p) (snd p)) (combine t (tl t)) ++ [alpha_N].

(** The signed error at [a] of the tangent at [tk]. *)
Definition error_at (tk a : float) : float :=
  sgn negative
  * (first_derivative activation_function tk * (a - tk)
     + get_value activation_function tk - get_value activation_function a).

Definition epsilon_column (t al : list float) : list float :=
  map (fun p => error_at (fst p) (snd p)) (combine t al)
  ++ [error_at (last t 0) (last al 0)].

Definition max_min_column (epsilon : list float) : float * float :=
  fold_left
    (fun mm x =>
       let e := abs x in
       (if fst mm <? e then e else fst mm, if e <? snd mm then e else snd mm))
    (tl epsilon)
    (abs (hd 0 epsilon), abs (hd 0 epsilon)).

(** The segment of the tangent at [tk] between [a] and [a']. *)
Definition segment_at (epsilon_final tk a a' : float) : Pwl :=
  let val :=
    sgn negative * first_derivative activation_function tk * (a - tk)
    + sgn negative * get_value activation_function tk - epsilon_final in
  let val_next :=
    sgn negative * first_derivative activation_function tk * (a' - tk)
    + sgn negative * get_value activation_function tk - epsilon_final in
  let value_m := (val_next - val) / (a' - a) in
  let value_b := val - value_m * a in
  mkPwl value_m value_b a.

Definition emit_columns (t al : list float) (epsilon_final : float) : list Pwl :=
  map (fun p => segment_at epsilon_final (fst p) (fst (snd p)) (snd (snd p)))
      (combine t (combine al (tl al)))
  ++ [mkPwl 0 0 (last al 0)].

(** The step of the tangent point [tk] between [a] and [a'], whose
    errors are [e] and [e']. *)
Definition step_at (Delta tk a a' e e' : float) : float :=
  Delta * (e' - e) / ((e' / (a' - tk)) + (e / (tk - a))).

Definition d_column (Delta : float) (t al epsilon : list float) : list float :=
  map (fun p =>
         step_at Delta (fst p) (fst (fst (snd p))) (snd (fst (snd p)))
                 (fst (snd (snd p))) (snd (snd (snd p))))
      (combine t (combine (combine al (tl al)) (combine epsilon (tl epsilon)))).

Definition next_t (t d : list float) : list float :=
  map (fun p => fst p + snd p) (combine t d).

Definition columns_init : pivot_columns :=
  mkPivotColumns 0 1 false 0
    (map (fun i => alpha_0 + (of_nat (i + 1) / of_nat (N + 1)) * (alpha_N - alpha_0))
         (seq 0 N))
    [] [] [].

Definition columns_body (st : pivot_columns)
    : outcome (list Pwl * float) + pivot_columns :=
  let j := c_j st in
  let al := alpha_column (c_t st) in
  let epsilon := epsilon_column (c_t st) al in
  if existsb is_nan epsilon then inl (Thrown OutOfRange)
  else
    let max_epsilon_prev := c_max_epsilon st in
    let (max_epsilon, min_epsilon) := max_min_column epsilon in
    if (j =? max_iterations T)%nat || spread_test threshold max_epsilon min_epsilon then
      let epsilon_final := (max_epsilon + min_epsilon) / 4 in
      if (j =? max_iterations T)%nat then inl (Thrown PivotNotConverged)
      else inl (Returned (emit_columns (c_t st) al epsilon_final, epsilon_final))
    else
      let '(back, Delta, same_epsilon) :=
        if (0 <? j)%nat then
          if max_epsilon_prev <? max_epsilon then
            (true, c_Delta st / 2, c_same_epsilon st)
          else if max_epsilon =? max_epsilon_prev then
            if negb (c_same_epsilon st) then (false, c_Delta st, true)
            else (true, c_Delta st / 2, false)
          else (false, c_Delta st, c_same_epsilon st)
        else (false, c_Delta st, c_same_epsilon st) in
      let t := if back then c_t_prev st else c_t st in
      let al := if back then c_alpha_prev st else al in
      let epsilon := if back then c_epsilon_prev st else epsilon in
      let d := d_column Delta t al epsilon in
      inr (mkPivotColumns (if back then j else (j + 1)%nat) Delta same_epsilon
                          max_epsilon (next_t t d) t al epsilon).

Fixpoint columns_loop (fuel : nat) (st : pivot_columns)
    : option (outcome (list Pwl * float)) :=
  match fuel with
  | O => None
  | S fuel' =>
      match columns_body st with
      | inl r => Some r
      | inr st' => columns_loop fuel' st'
      end
  end.

End PivotColumns.

Definition pivot_search_columns (fuel : nat) (T : Activation)
    (activation_function : Function) (N : nat) (alpha_0 alpha_N : float)
    (negative : bool) (threshold : float) : option (outcome (list Pwl * float)) :=
  columns_loop T activation_function alpha_0 alpha_N negative threshold fuel
               (columns_init N alpha_0 alpha_N).

(** [grow] and [search_segments] over [pivot_search_columns]. *)
Fixpoint grow_columns (fuel gas : nat) (T : Activation) (activation_function : Function)
    (lower_bound upper_bound allowed_err_pct : float) (negative : bool)
    (segments_number : nat) (pwl : list Pwl) (err_pct : float)
    : option (outcome (nat * list Pwl * float)) :=
  if (segments_number <? max_segments_number T)%nat
     && (max_error T activation_function allowed_err_pct <? err_pct) then
    match gas with
    | O => None
    | S gas' =>
        let segments_number := S segments_number in
        match pivot_search_columns fuel T activation_function segments_number
                lower_bound upper_bound negative default_threshold with
        | None => None
        | Some (Thrown e) => Some (Thrown e)
        | Some (Returned (pwl, err)) =>
            let err_pct :=
              calculate_error_pct activation_function pwl lower_bound upper_bound
                                  err negative default_samples in
            grow_columns fuel gas' T activation_function lower_bound upper_bound
                         allowed_err_pct negative segments_number pwl err_pct
        end
    end
  else Some (Returned (segments_number, pwl, err_pct)).

Definition search_segments_columns (fuel : nat) (T : Activation)
    (activation_function : Function)
    (lower_bound upper_bound allowed_err_pct : float) (pwl : list Pwl)
    : option (outcome (nat * list Pwl * float)) :=
  let negative := is_negative T activation_function upper_bound in
  match pivot_search_columns fuel T activation_function 1
          lower_bound upper_bound negative default_threshold with
  | None => None
  | Some (Thrown e) => Some (Thrown e)
  | Some (Returned (pwl, err)) =>
      let err_pct :=
        calculate_error_pct activation_function pwl lower_bound upper_bound
                            err negative default_samples in
      grow_columns fuel fuel T activation_function lower_bound upper_bound
                   allowed_err_pct negative 1 pwl err_pct
  end.

(** The first [n] entries of the column [j] of a vector of vectors. *)
Definition column (v : list (list float)) (n j : nat) : list float :=
  map (fun i => at2 v i j) (seq 0 n).

(** The columns [cs] are the columns [j] and [j - 1] of the vectors of
    [st]. *)
Definition columns_of (N : nat) (st : pivot_state) (cs : pivot_columns) : Prop :=
  c_j cs = v_j st /\ c_Delta cs = v_Delta st
  /\ c_same_epsilon cs = v_same_epsilon st /\ c_max_epsilon cs = v_max_epsilon st
  /\ List.length (v_t st) = (N + 1)%nat /\ List.length (v_alpha st) = (N + 1)%nat
  /\ List.length (v_epsilon st) = (N + 1)%nat /\ List.length (v_d st) = (N + 1)%nat
  /\ c_t cs = column (v_t st) N (v_j st)
  /\ ((0 < v_j st)%nat ->
      c_t_prev cs = column (v_t st) N (v_j st - 1)
      /\ c_alpha_prev cs = column (v_alpha st) (N + 1) (v_j st - 1)
      /\ c_epsilon_prev cs = column (v_epsilon st) (N + 1) (v_j st - 1)).

(** ** Vocabulary of the further properties *)

(** A segment list of [n] segments and the sentinel [(0, 0, U)]. *)
Definition closed_by (n : nat) (U : float) (pwl : list Pwl) : Prop :=
  List.length pwl = (n + 1)%nat /\ exists init, pwl = init ++ [mkPwl 0 0 U].

(** One trial of the search by segment count: [pivot_search] with
    [segments_number] segments, and the error that [calculate_error_pct]
    samples on its answer. *)
Definition trial (fuel : nat) (T : Activation) (activation_function : Function)
    (lower_bound upper_bound allowed_err_pct : float) (segments_number : nat)
    : option (outcome (list Pwl * float)) :=
  let negative := is_negative T activation_function upper_bound in
  match pivot_search fuel T activation_function [] segments_number
          lower_bound upper_bound negative
          (max_error T activation_function allowed_err_pct) default_threshold with
  | None => None
  | Some (Thrown e) => Some (Thrown e)
  | Some (Returned (pwl, err)) =>
      Some (Returned (pwl, calculate_error_pct activation_function pwl lower_bound
                             upper_bound err negative default_samples))
  end.

(** The zero of the sentinel that [pwl_search] returns: the sentinel of
    the right half is negated with it for Exp and Power. *)
Definition sentinel_zero (T : Activation) (lower_bound upper_bound : float) : float :=
  if split_search T lower_bound upper_bound then
    match T with Exp | Power => - 0 | _ => 0 end
  else 0.

(** The right half of a split search as [pwl_search] merges it. *)
Definition right_half (T : Activation) (pwl2 : list Pwl) : list Pwl :=
  match T with Exp | Power => negative_pwl pwl2 | _ => pwl2 end.

(** The bounds of the search that [pwl_search<T>(node, ...)] starts for a
    node; for a Power node they follow the exponent its constant holds. *)
Definition node_bounds (h : Header) (node : Node) : float * float :=
  match node with
  | SigmoidNode => (lower_bound h Sigmoid, upper_bound h Sigmoid)
  | TanhNode => (lower_bound h Tanh, upper_bound h Tanh)
  | ExpNode => (lower_bound h Exp, upper_bound h Exp)
  | LogNode => (lower_bound h Log, upper_bound h Log)
  | SoftSignNode => (lower_bound h SoftSign, upper_bound h SoftSign)
  | PowerNode constant =>
      (lower_bound_Power h (hd 0 (get_vector constant)), upper_bound h Power)
  | PowerIENode power _ _ => (lower_bound_Power h power, upper_bound h Power)
  end.

(** The error [err] that [calculate_error_pct] takes at its sample [i],
    and the error [max_err] it starts from, at the lower bound. *)
Definition sample_error (activation_function : Function) (segments : list Pwl)
    (lower_bound upper_bound : float) (negative : bool) (samples i : nat) : float :=
  let sgn := if negative then -1 else 1 in
  let delta := (upper_bound - lower_bound) / of_nat (samples + 1) in
  abs (get_value activation_function (lower_bound + of_nat i * delta)
       - sgn * at1 (pwl_outputs segments (sample_inputs lower_bound delta samples)) i).

Definition first_error (activation_function : Function) (segments : list Pwl)
    (lower_bound upper_bound : float) (negative : bool) (samples : nat) : float :=
  let sgn := if negative then -1 else 1 in
  let delta := (upper_bound - lower_bound) / of_nat (samples + 1) in
  abs (get_value activation_function lower_bound
       - sgn * at1 (pwl_outputs segments (sample_inputs lower_bound delta samples)) 0).

(** One turn of a loop [if (err > max_err) max_err = err] over the
    values [g]. *)
Definition running_max (g : nat -> float) (max_err : float) (i : nat) : float :=
  if max_err <? g i then g i else max_err.

(** ** Examples *)

(** The segments found for Power with exponent 3 and shift -10.125 on
    [[-16, 16]] under the error budget 600. *)
Definition shifted_cube_segments : list Pwl :=
  Eval vm_compute in
    match pwl_search 30 Power (Function_Power_nat 3 1 (-10.125)) (-16) 16 600 0 with
    | Some (Returned (pwl, _)) => pwl
    | _ => []
    end.

(** The error budget of the example below, between the sampled errors of
    the best 127 and the best 128 segments for [x^2] on [[0, 1]]. *)
Definition square_budget : float := 0x1.24p-17.

(** The upper bound of the domain [[3, 3 + 2^-51]], two [double]s above
    its lower bound. *)
Definition softsign_edge_upper : float := 0x1.8000000000002p+1.

(** The search for SoftSign on this domain under the budget [2^-5]: one
    segment and the sentinel. *)
Definition softsign_edge_segments : list Pwl :=
  Eval vm_compute in
    match pwl_search 30 SoftSign Function_SoftSign 3 softsign_edge_upper 0x1p-5 0 with
    | Some (Returned (pwl, _)) => pwl
    | _ => []
    end.

Definition softsign_edge_err_pct : float :=
  Eval vm_compute in
    match pwl_search 30 SoftSign Function_SoftSign 3 softsign_edge_upper 0x1p-5 0 with
    | Some (Returned (_, e)) => e
    | _ => 0
    end.

(** The same segments with one more segment, of value 0, from the upper
    bound on: a PWL that differs from the one found at the upper bound
    and beyond only. *)
Definition softsign_edge_segments_beyond : list Pwl :=
  [mkPwl 0 0.75 3; mkPwl 0 0 softsign_edge_upper; mkPwl 0 0 4].

(** ** The searches of the further examples *)

(** The search for SoftSign on [[-10, 10]] under the budget [2^-5]: six
    segments and the sentinel. *)
Definition softsign_segments : list Pwl :=
  Eval vm_compute in
    match pwl_search 60 SoftSign Function_SoftSign (-10) 10 0x1p-5 0 with
    | Some (Returned (pwl, _)) => pwl
    | _ => []
    end.

Definition softsign_err_pct : float :=
  Eval vm_compute in
    match pwl_search 60 SoftSign Function_SoftSign (-10) 10 0x1p-5 0 with
    | Some (Returned (_, e)) => e
    | _ => 0
    end.

(** The right half of that search, SoftSign on [[0, 10]]: three segments
    and the sentinel. *)
Definition softsign_right_segments : list Pwl :=
  Eval vm_compute in
    match pwl_search 60 SoftSign Function_SoftSign 0 10 0x1p-5 0 with
    | Some (Returned (pwl, _)) => pwl
    | _ => []
    end.

Definition softsign_right_err_pct : float :=
  Eval vm_compute in
    match pwl_search 60 SoftSign Function_SoftSign 0 10 0x1p-5 0 with
    | Some (Returned (_, e)) => e
    | _ => 0
    end.

(** The Pwl that replaces the SoftSign node of the header of the
    examples under the budget [2^-5]. *)
Definition softsign_pwl_op : PwlOp :=
  Eval vm_compute in
    match transpose_to_pwl example_header 60 SoftSignNode 0x1p-5 with
    | Some (Returned (Some op)) => op
    | _ => mkPwlOp [] [] []
    end.

(** The error that the search of [shifted_cube_segments] answers. *)
Definition shifted_cube_err_pct : float :=
  Eval vm_compute in
    match pwl_search 30 Power (Function_Power_nat 3 1 (-10.125)) (-16) 16 600 0 with
    | Some (Returned (_, e)) => e
    | _ => 0
    end.

(** * Shapes with dynamic dimensions

    A shallow embedding of the second source of the file, the class
    [ov::Shape]: a rank that is static or dynamic, a vector of
    [Dimension]s, and a cache [m_shape_type] of the answer of
    [is_static]; and of its [AttributeAdapter]. *)

Module ov.

Local Open Scope Z_scope.

(** The values that the file gives to [m_shape_type]. *)
Inductive ShapeType : Type :=
| SHAPE_IS_UNKNOWN | SHAPE_IS_STATIC | SHAPE_IS_DYNAMIC | SHAPE_IS_UPDATED.

Definition ShapeType_eqb (x y : ShapeType) : bool :=
  match x, y with
  | SHAPE_IS_UNKNOWN, SHAPE_IS_UNKNOWN | SHAPE_IS_STATIC, SHAPE_IS_STATIC
  | SHAPE_IS_DYNAMIC, SHAPE_IS_DYNAMIC | SHAPE_IS_UPDATED, SHAPE_IS_UPDATED => true
  | _, _ => false
  end.

(** The exceptions of the file: [std::invalid_argument] and
    [std::out_of_range] with their messages, and the failure of an
    [NGRAPH_CHECK]. *)
Inductive exception : Type :=
| invalid_argument (what : string)
| out_of_range (what : string)
| CheckFailure (what : string).

Inductive result (A : Type) : Type :=
| Value (a : A)
| Raise (e : exception).
Arguments Value {A} a.
Arguments Raise {A} e.

(** The conversion of an [int64_t] to [size_t], and back. *)
Definition to_size_t (x : Z) : Z := x mod 2 ^ 64.

Definition to_int64 (x : Z) : Z := (x + 2 ^ 63) mod 2 ^ 64 - 2 ^ 63.

(** [ngraph::op::AutoBroadcastType], the cases of the [switch] of
    [broadcast_merge_into] and any other value. *)
Inductive AutoBroadcastType : Type := NONE | NUMPY | PDPD | OTHER.

(** [ngraph::op::AutoBroadcastSpec]. *)
Record AutoBroadcastSpec : Type := mkAutoBroadcastSpec {
  m_type : AutoBroadcastType;
  m_axis : Z
}.

Module Dimension.

(** What the file takes from the class [Dimension] (and from [Rank],
    which is the same class), whose header is not among the sources.  The
    operations are taken as total functions.  [merge] and
    [broadcast_merge] get the old [dst] and answer the flag and the new
    [dst]. *)
Record ops (t : Type) : Type := mkOps {
  of_length : Z -> t;                (* Dimension(value_type) *)
  default : t;                       (* Dimension() *)
  dynamic : t;                       (* Dimension::dynamic() *)
  is_static : t -> bool;
  is_dynamic : t -> bool;
  get_length : t -> Z;
  get_min_val : t -> Z;              (* get_interval().get_min_val() *)
  get_max_val : t -> Z;              (* get_interval().get_max_val() *)
  not_equal : t -> t -> bool;        (* operator!= *)
  plus : t -> t -> t;                (* operator+ *)
  compatible : t -> t -> bool;
  same_scheme : t -> t -> bool;
  relaxes : t -> t -> bool;
  refines : t -> t -> bool;
  merge : t -> t -> t -> bool * t;
  broadcast_merge : t -> t -> t -> bool * t
}.

Arguments of_length {t} o _.
Arguments default {t} o.
Arguments dynamic {t} o.
Arguments is_static {t} o _.
Arguments is_dynamic {t} o _.
Arguments get_length {t} o _.
Arguments get_min_val {t} o _.
Arguments get_max_val {t} o _.
Arguments not_equal {t} o _ _.
Arguments plus {t} o _ _.
Arguments compatible {t} o _ _.
Arguments same_scheme {t} o _ _.
Arguments relaxes {t} o _ _.
Arguments refines {t} o _ _.
Arguments merge {t} o _ _ _.
Arguments broadcast_merge {t} o _ _ _.

End Dimension.

Module Shape.

Section Code.

Context {Dim : Type} (D : Dimension.ops Dim).

(** The member initializer of [m_shape_type], of the header. *)
Variable shape_type_init : ShapeType.

(** The members of [ov::Shape]. *)
Record t : Type := mk {
  m_rank_is_static : bool;
  m_shape_type : ShapeType;
  m_dimensions : list Dim
}.

Definition set_shape_type (s : t) (shape_type : ShapeType) : t :=
  mk (m_rank_is_static s) shape_type (m_dimensions s).

Definition set_dimensions (s : t) (dimensions : list Dim) : t :=
  mk (m_rank_is_static s) (m_shape_type s) dimensions.

Definition set_rank_is_static (s : t) (rank_is_static : bool) : t :=
  mk rank_is_static (m_shape_type s) (m_dimensions s).

(** [Shape(bool rank_is_static, std::vector<Dimension> dimensions)]. *)
Definition make (rank_is_static : bool) (dimensions : list Dim) : t :=
  mk rank_is_static shape_type_init dimensions.

(** [Shape()]. *)
Definition empty : t := make true [].

(** [Shape(std::vector<Dimension> dimensions)]. *)
Definition of_dimensions (dimensions : list Dim) : t :=
  mk true shape_type_init dimensions.

(** [Shape(const std::vector<Dimension::value_type>& dimensions)]. *)
Definition of_lengths (dimensions : list Z) : t :=
  mk true shape_type_init (map (Dimension.of_length D) dimensions).

(** [Shape(const StaticShape& shape)]. *)
Definition of_static_shape (shape : list Z) : t :=
  mk true SHAPE_IS_STATIC (map (fun n => Dimension.of_length D (to_int64 n)) shape).

(** [rank()], which the header defines and the file calls throughout:
    [Rank(m_dimensions.size())] for a static rank, [Rank::dynamic()]
    otherwise. *)
Definition rank (s : t) : Dim :=
  if m_rank_is_static s
  then Dimension.of_length D (Z.of_nat (List.length (m_dimensions s)))
  else Dimension.dynamic D.

(** [m_dimensions[i]], unchecked; [Dimension()] stands for a read out of
    range, which the source leaves undefined. *)
Definition at_ (s : t) (i : nat) : Dim := nth i (m_dimensions s) (Dimension.default D).

(** The indices [0 <= i < n] of a loop. *)
Definition upto (n : Z) : list nat := seq 0 (Z.to_nat n).

(** [is_static()]: the answer, and the shape with its cache
    [m_shape_type], which the method may write. *)
Definition is_static (s : t) : bool * t :=
  let shape_type := m_shape_type s in
  if ShapeType_eqb (m_shape_type s) SHAPE_IS_UNKNOWN
     || ShapeType_eqb (m_shape_type s) SHAPE_IS_UPDATED then
    let shape_type :=
      if m_rank_is_static s && forallb (Dimension.is_static D) (m_dimensions s)
      then SHAPE_IS_STATIC else SHAPE_IS_DYNAMIC in
    let s :=
      if ShapeType_eqb (m_shape_type s) SHAPE_IS_UNKNOWN
      then set_shape_type s shape_type else s in
    (ShapeType_eqb shape_type SHAPE_IS_STATIC, s)
  else (ShapeType_eqb shape_type SHAPE_IS_STATIC, s).

(** [is_dynamic()], of the header: [!is_static()]. *)
Definition is_dynamic (s : t) : bool * t :=
  let (b, s) := is_static s in (negb b, s).

(** [operator==]. *)
Definition equal (s partial_shape : t) : bool :=
  if Dimension.not_equal D (rank s) (rank partial_shape) then false
  else if Dimension.is_dynamic D (rank s) then true
  else
    forallb (fun i => negb (Dimension.not_equal D (at_ s i) (at_ partial_shape i)))
            (upto (Dimension.get_length D (rank s))).

(** [operator!=]. *)
Definition not_equal (s partial_shape : t) : bool := negb (equal s partial_shape).

Definition get_max_shape (s : t) : list Z :=
  if Dimension.is_dynamic D (rank s) then []
  else map (fun dimension => to_size_t (Dimension.get_max_val D dimension))
           (m_dimensions s).

Definition get_min_shape (s : t) : list Z :=
  if Dimension.is_dynamic D (rank s) then []
  else map (fun dimension => to_size_t (Dimension.get_min_val D dimension))
           (m_dimensions s).

Fixpoint get_shape_loop (dimensions : list Dim) (shape : list Z) : result (list Z) :=
  match dimensions with
  | [] => Value shape
  | dimension :: rest =>
      let min_val := Dimension.get_min_val D dimension in
      let max_val := Dimension.get_max_val D dimension in
      if min_val =? max_val then get_shape_loop rest (shape ++ [to_size_t min_val])
      else Raise (CheckFailure "get_shape() must be called on a static shape")
  end.

Definition get_shape (s : t) : result (list Z) :=
  if Dimension.is_static D (rank s) then get_shape_loop (m_dimensions s) []
  else Raise (CheckFailure "get_shape() must be called on a static shape").

(** [Shape::dynamic(Rank r)]; the length of a static [r] is not
    negative. *)
Definition dynamic (r : Dim) : t :=
  make (Dimension.is_static D r)
       (repeat (Dimension.dynamic D)
               (Z.to_nat (if Dimension.is_static D r then Dimension.get_length D r
                          else 0))).

(** [operator+]; [Shape::dynamic()] is [dynamic] at the default argument
    of the header, [Rank::dynamic()]. *)
Definition plus (s1 s2 : t) : result t :=
  if Dimension.is_dynamic D (rank s1) || Dimension.is_dynamic D (rank s2)
  then Value (dynamic (Dimension.dynamic D))
  else if negb (Dimension.compatible D (rank s1) (rank s2))
  then Raise (invalid_argument "rank mismatch")
  else
    let result := set_rank_is_static empty true in
    Value
      (fold_left
         (fun result i =>
            set_dimensions result
              (m_dimensions result ++ [Dimension.plus D (at_ s1 i) (at_ s2 i)]))
         (seq 0 (List.length (m_dimensions s1))) result).

Definition compatible (this s : t) : bool :=
  if negb (m_rank_is_static this) || Dimension.is_dynamic D (rank s) then true
  else if negb (Dimension.get_length D (rank this) =? Dimension.get_length D (rank s))
  then false
  else
    forallb (fun i => Dimension.compatible D (at_ this i) (at_ s i))
            (upto (Dimension.get_length D (rank this))).

(** The two [operator[]]: the const one answers the dimension, the other
    one also marks the shape as updated. *)
Definition index_const (s : t) (i : Z) : result Dim :=
  if Z.of_nat (List.length (m_dimensions s)) <=? i
  then Raise (out_of_range "Accessing out-of-range dimension in Dimension[]")
  else Value (at_ s (Z.to_nat i)).

Definition index (s : t) (i : Z) : result (Dim * t) :=
  if Z.of_nat (List.length (m_dimensions s)) <=? i
  then Raise (out_of_range "Accessing out-of-range dimension in Dimension[]")
  else Value (at_ s (Z.to_nat i), set_shape_type s SHAPE_IS_UPDATED).

(** The loops [success &= this[i].f(s[i])] of [same_scheme],
    [relaxes] and [refines]: every index is visited. *)
Fixpoint all_indexed (f : Dim -> Dim -> bool) (this s : t) (idx : list nat)
    (success : bool) : result bool :=
  match idx with
  | [] => Value success
  | i :: rest =>
      match index_const this (Z.of_nat i) with
      | Raise e => Raise e
      | Value x =>
          match index_const s (Z.of_nat i) with
          | Raise e => Raise e
          | Value y => all_indexed f this s rest (success && f x y)
          end
      end
  end.

Definition same_scheme (this s : t) : result bool :=
  if Dimension.is_dynamic D (rank this) && Dimension.is_dynamic D (rank s)
  then Value true
  else if Dimension.is_static D (rank this) && Dimension.is_static D (rank s) then
    if negb (Dimension.get_length D (rank this) =? Dimension.get_length D (rank s))
    then Value false
    else all_indexed (Dimension.same_scheme D) this s
                     (upto (Dimension.get_length D (rank this))) true
  else Value false.

Definition relaxes (this s : t) : result bool :=
  if Dimension.is_dynamic D (rank this) then Value true
  else if Dimension.is_static D (rank s)
          && (Dimension.get_length D (rank this) =? Dimension.get_length D (rank s))
  then all_indexed (Dimension.relaxes D) this s
                   (upto (Dimension.get_length D (rank this))) true
  else Value false.

Definition refines (this s : t) : result bool :=
  if Dimension.is_dynamic D (rank s) then Value true
  else if Dimension.is_static D (rank this)
          && (Dimension.get_length D (rank this) =? Dimension.get_length D (rank s))
  then all_indexed (Dimension.refines D) this s
                   (upto (Dimension.get_length D (rank this))) true
  else Value false.

(** [merge_rank(Rank r)]: the flag and the shape. *)
Definition merge_rank (s : t) (r : Dim) : bool * t :=
  if Dimension.is_dynamic D r then (true, s)
  else if negb (m_rank_is_static s) then
    (true,
     mk true SHAPE_IS_UNKNOWN
        (repeat (Dimension.dynamic D) (Z.to_nat (Dimension.get_length D r))))
  else (Z.of_nat (List.length (m_dimensions s)) =? Dimension.get_length D r, s).

(** [to_shape()]; the answer and the shape, whose cache [is_dynamic] may
    write. *)
Definition to_shape (s : t) : result (list Z) * t :=
  let (dyn, s) := is_dynamic s in
  if dyn then (Raise (invalid_argument "to_shape was called on a dynamic shape."), s)
  else (Value (map (fun d => to_size_t (Dimension.get_length D d)) (m_dimensions s)), s).

(** [dst[i] = x] through the reference that [operator[]] has answered. *)
Definition assign (dst : t) (i : nat) (x : Dim) : t :=
  set_dimensions dst (firstn i (m_dimensions dst) ++ x :: skipn (S i) (m_dimensions dst)).

(** The loop of [merge_into]:
    [success &= Dimension::merge(dst[i], dst[i], src[i])]; when an
    [operator[]] throws, the call ends with the exception. *)
Fixpoint merge_into_loop (dst src : t) (idx : list nat) (success : bool)
    : result (bool * t) :=
  match idx with
  | [] => Value (success, dst)
  | i :: rest =>
      match index dst (Z.of_nat i) with
      | Raise e => Raise e
      | Value (d, dst) =>
          match index_const src (Z.of_nat i) with
          | Raise e => Raise e
          | Value x =>
              let (ok, d') := Dimension.merge D d d x in
              merge_into_loop (assign dst i d') src rest (success && ok)
          end
      end
  end.

(** [merge_into(dst, src)]: the flag and the new [dst]. *)
Definition merge_into (dst src : t) : result (bool * t) :=
  if Dimension.is_dynamic D (rank dst) then Value (true, src)
  else if Dimension.is_dynamic D (rank src) then Value (true, dst)
  else if negb (Dimension.get_length D (rank dst) =? Dimension.get_length D (rank src))
  then Value (false, dst)
  else merge_into_loop dst src (upto (Dimension.get_length D (rank dst))) true.

(** The loop of the NUMPY case of [broadcast_merge_into]; [dims] is the
    vector of [new_rank] dimensions that becomes the new [dst]. *)
Fixpoint numpy_loop (dst src : t) (dst_rank src_rank new_rank : Z) (idx : list nat)
    (dims : list Dim) (success : bool) : result (bool * list Dim) :=
  match idx with
  | [] => Value (success, dims)
  | i :: rest =>
      let dsti :=
        if Z.of_nat i <? new_rank - dst_rank then Value (Dimension.of_length D 1, dst)
        else index dst (to_size_t (Z.of_nat i - (new_rank - dst_rank))) in
      match dsti with
      | Raise e => Raise e
      | Value (dsti, dst) =>
          let srci :=
            if Z.of_nat i <? new_rank - src_rank then Value (Dimension.of_length D 1)
            else index_const src (to_size_t (Z.of_nat i - (new_rank - src_rank))) in
          match srci with
          | Raise e => Raise e
          | Value srci =>
              let (ok, d) :=
                Dimension.broadcast_merge D (nth i dims (Dimension.default D)) dsti srci in
              numpy_loop dst src dst_rank src_rank new_rank rest
                         (firstn i dims ++ d :: skipn (S i) dims) (success && ok)
          end
      end
  end.

(** The [while] of the PDPD case: the trailing dimensions of [src] that
    are the static length 1 are left out. *)
Fixpoint pdpd_len (src : t) (len : nat) : result nat :=
  match len with
  | O => Value O
  | S len' =>
      match index_const src (Z.of_nat len') with
      | Raise e => Raise e
      | Value d =>
          if Dimension.is_static D d && (Dimension.get_length D d =? 1)
          then pdpd_len src len'
          else Value len
      end
  end.

(** The [for (size_t i = axis; i < axis + len; ++i)] of the PDPD case; the
    loop runs on the indices from [to_size_t axis] up to
    [to_size_t (axis + len)], none when the second is not above the
    first. *)
Fixpoint pdpd_loop (dst src : t) (axis : Z) (idx : list Z) : result (bool * t) :=
  match idx with
  | [] => Value (true, dst)
  | i :: rest =>
      match index dst i with
      | Raise e => Raise e
      | Value (d, dst) =>
          match index_const src (to_size_t (i - axis)) with
          | Raise e => Raise e
          | Value x =>
              if negb (Dimension.compatible D d x) then Value (false, dst)
              else pdpd_loop dst src axis rest
          end
      end
  end.

(** [broadcast_merge_into(dst, src, autob)]: the flag and the new
    [dst]. *)
Definition broadcast_merge_into (dst src : t) (autob : AutoBroadcastSpec)
    : result (bool * t) :=
  match m_type autob with
  | NONE => Value (true, dst)
  | NUMPY =>
      if Dimension.is_dynamic D (rank dst) || Dimension.is_dynamic D (rank src)
      then Value (true, dynamic (Dimension.dynamic D))
      else
        let dst_rank := Dimension.get_length D (rank dst) in
        let src_rank := Dimension.get_length D (rank src) in
        let new_rank := Z.max dst_rank src_rank in
        match numpy_loop dst src dst_rank src_rank new_rank (upto new_rank)
                (repeat (Dimension.default D) (Z.to_nat new_rank)) true with
        | Raise e => Raise e
        | Value (success, dims) => Value (success, of_dimensions dims)
        end
  | PDPD =>
      if Dimension.is_dynamic D (rank dst) || Dimension.is_dynamic D (rank src)
      then Value (true, dst)
      else
        let dst_rank := Dimension.get_length D (rank dst) in
        let src_rank := Dimension.get_length D (rank src) in
        if (dst_rank =? src_rank) && compatible dst src then Value (true, dst)
        else
          let axis := m_axis autob in
          if axis <? -1 then Value (false, dst)
          else
            let axis := if axis =? -1 then dst_rank - src_rank else axis in
            match pdpd_len src (Z.to_nat (to_size_t src_rank)) with
            | Raise e => Raise e
            | Value len =>
                let first := to_size_t axis in
                let last := to_size_t (axis + Z.of_nat len) in
                pdpd_loop dst src axis
                          (map (fun k => first + Z.of_nat k) (seq 0 (Z.to_nat (last - first))))
            end
  | OTHER =>
      (* the message goes on with the type *)
      Raise (CheckFailure "Unsupported auto broadcast type: ")
  end.

Definition all_non_negative (s : t) : bool :=
  forallb (fun d => negb (Dimension.is_static D d && (Dimension.get_length D d <? 0)))
          (m_dimensions s).

(** [AttributeAdapter<ov::Shape>]: the shape it refers to and its
    buffer. *)
Record AttributeAdapter : Type := mkAttributeAdapter {
  m_ref : t;
  m_buffer : list Z;
  m_buffer_valid : bool
}.

(** The loop of [get]: the buffer grows by one element for each
    dimension. *)
Fixpoint get_loop (ref : t) (idx : list nat) (buffer : list Z)
    : result (list Z) * list Z :=
  match idx with
  | [] => (Value buffer, buffer)
  | i :: rest =>
      match index_const ref (Z.of_nat i) with
      | Raise e => (Raise e, buffer)
      | Value elt =>
          get_loop ref rest
                   (buffer ++ [if Dimension.is_dynamic D elt then -1
                               else Dimension.get_length D elt])
      end
  end.

(** [get()]: the buffer it answers, and the adapter. *)
Definition get (a : AttributeAdapter) : result (list Z) * AttributeAdapter :=
  if negb (m_buffer_valid a) then
    if Dimension.is_dynamic D (rank (m_ref a)) then
      (Value [-2], mkAttributeAdapter (m_ref a) [-2] true)
    else
      match get_loop (m_ref a) (upto (Dimension.get_length D (rank (m_ref a)))) [] with
      | (Value buffer, _) => (Value buffer, mkAttributeAdapter (m_ref a) buffer true)
      | (Raise e, buffer) => (Raise e, mkAttributeAdapter (m_ref a) buffer false)
      end
  else (Value (m_buffer a), a).

(** [set(value)]. *)
Definition set (a : AttributeAdapter) (value : list Z) : AttributeAdapter :=
  let ref :=
    match value with
    | [x] =>
        if x =? -2 then dynamic (Dimension.dynamic D)
        else of_dimensions
               (map (fun elt => if elt =? -1 then Dimension.dynamic D
                                else Dimension.of_length D elt) value)
    | _ =>
        of_dimensions
          (map (fun elt => if elt =? -1 then Dimension.dynamic D
                           else Dimension.of_length D elt) value)
    end in
  mkAttributeAdapter ref (m_buffer a) false.

End Code.

Arguments t : clear implicits.
Arguments AttributeAdapter : clear implicits.

End Shape.

(** The laws of [Dimension] that the properties of shapes rest on: a
    dimension is dynamic when it is not static, [Dimension::dynamic()] is
    not static, and [Dimension(n)] is static of length [n] for a length
    [n] that is not negative. *)
Record laws {Dim : Type} (D : Dimension.ops Dim) : Prop := mkLaws {
  is_dynamic_not_static :
    forall d, Dimension.is_dynamic D d = negb (Dimension.is_static D d);
  dynamic_not_static : Dimension.is_static D (Dimension.dynamic D) = false;
  of_length_static :
    forall n, 0 <= n -> Dimension.is_static D (Dimension.of_length D n) = true;
  get_length_of_length :
    forall n, 0 <= n -> Dimension.get_length D (Dimension.of_length D n) = n
}.

(** The answer that [is_static] computes when it does not read its
    cache. *)
Definition all_static {Dim : Type} (D : Dimension.ops Dim) (s : Shape.t Dim) : bool :=
  Shape.m_rank_is_static s && forallb (Dimension.is_static D) (Shape.m_dimensions s).

(** The cache [m_shape_type] tells the truth: when it holds the static
    or the dynamic answer, this is the answer that [is_static] would
    compute. *)
Definition coherent {Dim : Type} (D : Dimension.ops Dim) (s : Shape.t Dim) : Prop :=
  match Shape.m_shape_type s with
  | SHAPE_IS_STATIC => all_static D s = true
  | SHAPE_IS_DYNAMIC => all_static D s = false
  | _ => True
  end.

(** The vectors that [set] and [get] take to themselves: the single
    element -2, or elements from -1 up. *)
Definition encodes (value : list Z) : Prop :=
  value = [-2] \/ Forall (fun elt => -1 <= elt) value.

(** What [merge_into] computes on shapes of the same static rank: the
    answers of [Dimension::merge] on the pairs of dimensions. *)
Definition merged {Dim : Type} (D : Dimension.ops Dim) (dst src : Shape.t Dim)
    : list (bool * Dim) :=
  map (fun p => Dimension.merge D (fst p) (fst p) (snd p))
      (combine (Shape.m_dimensions dst) (Shape.m_dimensions src)).

(** What [operator+] computes on shapes of the same static rank. *)
Definition sums {Dim : Type} (D : Dimension.ops Dim) (s1 s2 : Shape.t Dim) : list Dim :=
  map (fun p => Dimension.plus D (fst p) (snd p))
      (combine (Shape.m_dimensions s1) (Shape.m_dimensions s2)).

(** The number of dimensions of a shape, as an [int64_t]. *)
Definition size {Dim : Type} (s : Shape.t Dim) : Z :=
  Z.of_nat (List.length (Shape.m_dimensions s)).

End ov.

Module IntervalDimension.

Import ov.
Local Open Scope Z_scope.

(** An instance of [Dimension] for the examples, on the lines of the
    class of the header: a dimension is an interval of lengths, the
    static ones hold one length, and the length -1 stands for any
    length. *)
Record t : Type := mk { min_val : Z; max_val : Z }.

Definition s_max : Z := 2 ^ 63 - 1.

Definition of_length (n : Z) : t := if n =? -1 then mk 0 s_max else mk n n.

Definition is_static (d : t) : bool := min_val d =? max_val d.

Definition intersect (dst d1 d2 : t) : bool * t :=
  let lo := Z.max (min_val d1) (min_val d2) in
  let hi := Z.min (max_val d1) (max_val d2) in
  if lo <=? hi then (true, mk lo hi) else (false, dst).

Definition ops : Dimension.ops t :=
  Dimension.mkOps t
    of_length
    (mk 0 s_max)
    (mk 0 s_max)
    is_static
    (fun d => negb (is_static d))
    min_val
    min_val
    max_val
    (fun d e => negb ((min_val d =? min_val e) && (max_val d =? max_val e)))
    (fun d e => mk (min_val d + min_val e) (max_val d + max_val e))
    (fun d e => Z.max (min_val d) (min_val e) <=? Z.min (max_val d) (max_val e))
    (fun d e => ((min_val d =? min_val e) && (max_val d =? max_val e))
                || (negb (is_static d) && negb (is_static e)))
    (fun d e => (min_val d <=? min_val e) && (max_val e <=? max_val d))
    (fun d e => (min_val e <=? min_val d) && (max_val d <=? max_val e))
    intersect
    (fun dst d1 d2 =>
       if is_static d1 && (min_val d1 =? 1) then (true, d2)
       else if is_static d2 && (min_val d2 =? 1) then (true, d1)
       else intersect dst d1 d2).

(** The shape of the static lengths [lengths], as [Shape(lengths)]
    builds it. *)
Definition shape (lengths : list Z) : Shape.t t :=
  Shape.of_lengths ops SHAPE_IS_UNKNOWN lengths.

End IntervalDimension.

(** * Properties *)

(** ** Facts on [double] *)

Lemma Pcompare_Eq (p q : positive) :
  PosDef.Pos.compare_cont Eq p q = Pos.compare p q.
Proof. reflexivity. Qed.

Lemma SFcompare_Lt_trans (x y z : spec_float) :
  SFcompare x y = Some Lt -> SFcompare y z = Some Lt -> SFcompare x z = Some Lt.
Proof.
  destruct x as [sx|sx| |sx mx ex], y as [sy|sy| |sy my ey], z as [sz|sz| |sz mz ez];
    simpl; try discriminate;
    try (destruct sx; try discriminate); try (destruct sy; try discriminate);
    try (destruct sz; try discriminate); try reflexivity; try discriminate.
  all: rewrite ?Pcompare_Eq; intros A B.
  all: destruct (Z.compare_spec ex ey) as [E1|E1|E1];
    destruct (Z.compare_spec ey ez) as [E2|E2|E2];
    destruct (Z.compare_spec ex ez) as [E3|E3|E3];
    subst; try lia; try discriminate; try reflexivity.
  all: injection A as A; injection B as B; f_equal.
  all: try (apply CompOpp_iff in A; apply CompOpp_iff in B; apply CompOpp_iff;
            simpl in * ).
  all: rewrite ?Pos.compare_lt_iff, ?Pos.compare_gt_iff in *; lia.
Qed.

Lemma SFcompare_Lt_irrefl (x : spec_float) : SFcompare x x <> Some Lt.
Proof.
  destruct x as [sx|sx| |sx mx ex]; simpl; try discriminate.
  - destruct sx; discriminate.
  - rewrite Pcompare_Eq, Z.compare_refl, Pos.compare_refl.
    destruct sx; discriminate.
Qed.

Lemma ltb_true (x y : float) :
  (x <? y) = true <-> SFcompare (Prim2SF x) (Prim2SF y) = Some Lt.
Proof.
  rewrite FloatAxioms.ltb_spec. unfold SFltb.
  destruct (SFcompare (Prim2SF x) (Prim2SF y)) as [[ | | ]|]; split; congruence.
Qed.

Lemma ltb_asym (x y : float) : (x <? y) = true -> (y <? x) = false.
Proof.
  intros H. destruct (y <? x) eqn:E; [|reflexivity].
  apply ltb_true in H, E.
  destruct (SFcompare_Lt_irrefl (Prim2SF x)).
  eapply SFcompare_Lt_trans; eauto.
Qed.


Lemma ltb_eqb (x y : float) : (x <? y) = true -> (y =? x) = false.
Proof.
  intros H. apply ltb_true in H.
  rewrite FloatAxioms.eqb_spec. unfold SFeqb.
  destruct (SFcompare (Prim2SF y) (Prim2SF x)) as [[ | | ]|] eqn:E; try reflexivity.
  exfalso. revert H E.
  destruct (Prim2SF x) as [sx|sx| |sx mx ex], (Prim2SF y) as [sy|sy| |sy my ey];
    simpl; try discriminate;
    try (destruct sx; try discriminate); try (destruct sy; try discriminate).
  all: rewrite ?Pcompare_Eq.
  all: destruct (Z.compare_spec ex ey) as [E1|E1|E1];
    destruct (Z.compare_spec ey ex) as [E2|E2|E2]; subst; try lia; try discriminate.
  all: intros A B; injection A as A; injection B as B.
  all: try (apply CompOpp_iff in A; apply CompOpp_iff in B; simpl in * ).
  all: rewrite ?Pos.compare_lt_iff, ?Pos.compare_gt_iff, ?Pos.compare_eq_iff in *;
    subst; lia.
Qed.

Lemma ltb_leb (x y : float) : (x <? y) = true -> (y <=? x) = false.
Proof.
  intros H. rewrite FloatAxioms.leb_spec. unfold SFleb.
  destruct (SFcompare (Prim2SF y) (Prim2SF x)) as [[ | | ]|] eqn:E; try reflexivity.
  - pose proof (ltb_eqb _ _ H) as Q. rewrite FloatAxioms.eqb_spec in Q.
    unfold SFeqb in Q. rewrite E in Q. discriminate.
  - apply ltb_true in E. rewrite (ltb_asym _ _ H) in E. discriminate.
Qed.

Lemma is_nan_true (x : float) : is_nan x = true <-> isNaN x.
Proof.
  unfold is_nan, isNaN. rewrite FloatAxioms.eqb_spec. unfold SFeqb.
  destruct (Prim2SF x) as [s|s| |s mx e] eqn:E; simpl.
  - split; discriminate.
  - destruct s; split; discriminate.
  - split; reflexivity.
  - rewrite Pcompare_Eq, Z.compare_refl, Pos.compare_refl.
    destruct s; split; discriminate.
Qed.

Lemma isNaN_add_l x y : isNaN x -> isNaN (x + y).
Proof. unfold isNaN. intros H. rewrite FloatAxioms.add_spec, H. reflexivity. Qed.

Lemma isNaN_add_r x y : isNaN y -> isNaN (x + y).
Proof.
  unfold isNaN. intros H. rewrite FloatAxioms.add_spec, H.
  destruct (Prim2SF x); reflexivity.
Qed.

Lemma isNaN_sub_l x y : isNaN x -> isNaN (x - y).
Proof. unfold isNaN. intros H. rewrite FloatAxioms.sub_spec, H. reflexivity. Qed.

Lemma isNaN_sub_r x y : isNaN y -> isNaN (x - y).
Proof.
  unfold isNaN. intros H. rewrite FloatAxioms.sub_spec, H.
  destruct (Prim2SF x); reflexivity.
Qed.

Lemma isNaN_mul_l x y : isNaN x -> isNaN (x * y).
Proof. unfold isNaN. intros H. rewrite FloatAxioms.mul_spec, H. reflexivity. Qed.

Lemma isNaN_mul_r x y : isNaN y -> isNaN (x * y).
Proof.
  unfold isNaN. intros H. rewrite FloatAxioms.mul_spec, H.
  destruct (Prim2SF x); reflexivity.
Qed.

Lemma ltb_nan_l x y : isNaN x -> (x <? y) = false.
Proof. unfold isNaN. intros H. rewrite FloatAxioms.ltb_spec, H. reflexivity. Qed.

Lemma ltb_nan_r x y : isNaN y -> (x <? y) = false.
Proof.
  unfold isNaN. intros H. rewrite FloatAxioms.ltb_spec, H. unfold SFltb.
  destruct (Prim2SF x); reflexivity.
Qed.

Create HintDb nan.

#[local] Hint Resolve isNaN_add_l isNaN_add_r isNaN_sub_l isNaN_sub_r
  isNaN_mul_l isNaN_mul_r : nan.

(** ** Facts on the vectors *)

Lemma fold_left_ext_in {A B : Type} (f g : A -> B -> A) (l : list B) (a : A) :
  (forall a i, In i l -> f a i = g a i) -> fold_left f l a = fold_left g l a.
Proof.
  revert a. induction l as [|i l IH]; intros a H; simpl; [reflexivity|].
  rewrite (H a i) by (left; reflexivity). apply IH.
  intros a' i' Hi. apply H. right. exact Hi.
Qed.

Lemma update_row_length v i f : List.length (update_row v i f) = List.length v.
Proof.
  revert i; induction v as [|r v IH]; intros [|i]; simpl; auto.
Qed.

Lemma nth_update_row_same v i f :
  (i < List.length v)%nat -> nth i (update_row v i f) [] = f (nth i v []).
Proof.
  revert i; induction v as [|r v IH]; intros [|i] H; simpl in *; try lia; auto.
  apply IH; lia.
Qed.

Lemma nth_update_row_other v i k f :
  i <> k -> nth k (update_row v i f) [] = nth k v [].
Proof.
  revert i k; induction v as [|r v IH]; intros [|i] [|k] H; simpl; auto; try lia.
Qed.

Lemma nth_resize_put r j x : nth j (resize_put r j x) 0 = x.
Proof.
  revert r; induction j as [|j IH]; intros r; simpl; auto.
  destruct r; simpl; apply IH.
Qed.

Lemma set2_length v i j x : List.length (set2 v i j x) = List.length v.
Proof. apply update_row_length. Qed.

Lemma at2_set2_same v i j x :
  (i < List.length v)%nat -> at2 (set2 v i j x) i j = x.
Proof.
  intros H. unfold at2, set2, at1. rewrite nth_update_row_same by exact H.
  apply nth_resize_put.
Qed.

Lemma at2_set2_other v i k j j' x :
  i <> k -> at2 (set2 v i j x) k j' = at2 v k j'.
Proof.
  intros H. unfold at2, set2. rewrite nth_update_row_other by exact H. reflexivity.
Qed.

Lemma fold_set2_length (g : list (list float) -> nat -> float) j l v :
  List.length (fold_left (fun a i => set2 a i j (g a i)) l v) = List.length v.
Proof.
  revert v; induction l as [|i l IH]; intros v; simpl; auto.
  rewrite IH. apply set2_length.
Qed.

Lemma fold_set2_other (g : list (list float) -> nat -> float) j l v k j' :
  ~ In k l ->
  at2 (fold_left (fun a i => set2 a i j (g a i)) l v) k j' = at2 v k j'.
Proof.
  revert v; induction l as [|i l IH]; intros v H; simpl; auto.
  rewrite IH by (intros Hin; apply H; right; exact Hin).
  apply at2_set2_other. intros ->. apply H. left; reflexivity.
Qed.

(** ** One turn of [pivot_search] *)

Section PivotFacts.

Variable T : Activation.
Variable F : Function.
Variable N : nat.
Variables alpha_0 alpha_N : float.
Variable negative : bool.
Variable threshold : float.

Abbreviation body := (pivot_body T F N alpha_0 alpha_N negative threshold).
Abbreviation run := (pivot_run T F N alpha_0 alpha_N negative threshold).
Abbreviation loop := (pivot_loop T F N alpha_0 alpha_N negative threshold).

Lemma box2_length t al j :
  List.length (box2 F N alpha_0 alpha_N t al j) = List.length al.
Proof.
  unfold box2. rewrite set2_length.
  rewrite (fold_set2_length (fun _ i => alpha_at F t j i)). apply set2_length.
Qed.

Lemma box2_first t al j :
  (1 <= N)%nat -> List.length al = (N + 1)%nat ->
  at2 (box2 F N alpha_0 alpha_N t al j) 0 j = alpha_0.
Proof.
  intros HN Hl. unfold box2.
  rewrite at2_set2_other by lia.
  rewrite (fold_set2_other (fun _ i => alpha_at F t j i)).
  - apply at2_set2_same. lia.
  - rewrite in_seq. lia.
Qed.

Lemma box2_last t al j :
  List.length al = (N + 1)%nat ->
  at2 (box2 F N alpha_0 alpha_N t al j) N j = alpha_N.
Proof.
  intros Hl. unfold box2. apply at2_set2_same.
  rewrite (fold_set2_length (fun _ i => alpha_at F t j i)), set2_length. lia.
Qed.

Lemma box3_loop_length t al j idx eps eps' :
  box3_loop F negative t al j idx eps = Returned eps' ->
  List.length eps' = List.length eps.
Proof.
  revert eps; induction idx as [|i idx IH]; intros eps; simpl.
  - intros [= <-]. reflexivity.
  - destruct (is_nan _); [discriminate|].
    intros H. apply IH in H. rewrite H. apply set2_length.
Qed.

Lemma box3_loop_Returned t al j idx eps eps' :
  (forall i, In i idx -> (i < List.length eps)%nat) ->
  box3_loop F negative t al j idx eps = Returned eps' ->
  forall i, In i idx -> is_nan (epsilon_at F negative t al j i i) = false.
Proof.
  revert eps; induction idx as [|i idx IH]; intros eps Hlt; simpl.
  - intros _ i [].
  - rewrite at2_set2_same by (apply Hlt; left; reflexivity).
    destruct (is_nan (epsilon_at F negative t al j i i)) eqn:E; [discriminate|].
    intros H k [<-|Hk]; [exact E|].
    eapply IH; [|exact H|exact Hk].
    intros k' Hk'. rewrite set2_length. apply Hlt. right; exact Hk'.
Qed.

Lemma box3_loop_Thrown t al j idx eps e :
  (forall i, In i idx -> (i < List.length eps)%nat) ->
  box3_loop F negative t al j idx eps = Thrown e ->
  e = OutOfRange /\
  exists i, In i idx /\ is_nan (epsilon_at F negative t al j i i) = true.
Proof.
  revert eps; induction idx as [|i idx IH]; intros eps Hlt; simpl.
  - discriminate.
  - rewrite at2_set2_same by (apply Hlt; left; reflexivity).
    destruct (is_nan (epsilon_at F negative t al j i i)) eqn:E.
    + intros [= <-]. split; [reflexivity|]. exists i. split; [left; reflexivity|exact E].
    + intros H. apply IH in H.
      * destruct H as [He [k [Hk Hn]]]. split; [exact He|].
        exists k. split; [right; exact Hk|exact Hn].
      * intros k' Hk'. rewrite set2_length. apply Hlt. right; exact Hk'.
Qed.

Lemma min_inner i : (i < N)%nat -> Nat.min i (N - 1) = i.
Proof. lia. Qed.

Lemma min_last : Nat.min N (N - 1) = (N - 1)%nat.
Proof. lia. Qed.

(** [box3] returns exactly when none of the [N + 1] errors is a NaN. *)
Lemma box3_Returned st :
  rows_ok N st ->
  (exists eps,
      box3 F N negative (v_t st)
           (box2 F N alpha_0 alpha_N (v_t st) (v_alpha st) (v_j st))
           (v_j st) (v_epsilon st) = Returned eps) <->
  (forall i, (i <= N)%nat ->
             is_nan (epsilon_value F N alpha_0 alpha_N negative st i) = false).
Proof.
  intros [_ Hl]. unfold box3, epsilon_value.
  set (al := box2 F N alpha_0 alpha_N (v_t st) (v_alpha st) (v_j st)).
  assert (Hlt : forall i, In i (seq 0 N) -> (i < List.length (v_epsilon st))%nat)
    by (intros i Hi; apply in_seq in Hi; lia).
  destruct (box3_loop F negative (v_t st) al (v_j st) (seq 0 N) (v_epsilon st))
    as [eps1|e] eqn:E; simpl.
  - pose proof (box3_loop_length _ _ _ _ _ _ E) as Hl1.
    pose proof (box3_loop_Returned _ _ _ _ _ _ Hlt E) as Hin.
    rewrite at2_set2_same by lia.
    destruct (is_nan (epsilon_at F negative (v_t st) al (v_j st) (N - 1) N)) eqn:EN.
    + split.
      * intros [eps H]; discriminate.
      * intros H. specialize (H N (le_n N)). rewrite min_last in H. congruence.
    + split.
      * intros _ i Hi. destruct (Nat.eq_dec i N) as [->|Hne].
        -- rewrite min_last. exact EN.
        -- rewrite min_inner by lia. apply Hin. apply in_seq. lia.
      * intros _. eexists; reflexivity.
  - destruct (box3_loop_Thrown _ _ _ _ _ _ Hlt E) as [_ [i [Hi Hn]]].
    apply in_seq in Hi. split.
    + intros [eps H]; discriminate.
    + intros H. specialize (H i ltac:(lia)). rewrite min_inner in H by lia. congruence.
Qed.

(** [box3] throws nothing but the out-of-range error. *)
Lemma box3_Thrown st e :
  rows_ok N st ->
  box3 F N negative (v_t st)
       (box2 F N alpha_0 alpha_N (v_t st) (v_alpha st) (v_j st))
       (v_j st) (v_epsilon st) = Thrown e ->
  e = OutOfRange.
Proof.
  intros [_ Hl]. unfold box3.
  set (al := box2 F N alpha_0 alpha_N (v_t st) (v_alpha st) (v_j st)).
  destruct (box3_loop F negative (v_t st) al (v_j st) (seq 0 N) (v_epsilon st))
    as [eps1|e1] eqn:E; simpl.
  - destruct (is_nan _); [|discriminate]. intros [= <-]. reflexivity.
  - intros [= <-]. eapply box3_loop_Thrown; [|exact E].
    intros i Hi; apply in_seq in Hi; lia.
Qed.

Lemma box3_length t al j eps eps' :
  box3 F N negative t al j eps = Returned eps' -> List.length eps' = List.length eps.
Proof.
  unfold box3.
  destruct (box3_loop F negative t al j (seq 0 N) eps) as [eps1|e1] eqn:E; simpl;
    [|discriminate].
  destruct (is_nan _); [discriminate|]. intros [= <-].
  rewrite set2_length. eapply box3_loop_length; exact E.
Qed.


(** What a turn does, by the outcome of [box3] and the two tests. *)
Lemma body_cases st :
  (exists e,
      box3 F N negative (v_t st)
           (box2 F N alpha_0 alpha_N (v_t st) (v_alpha st) (v_j st))
           (v_j st) (v_epsilon st) = Thrown e /\ body st = inl (Thrown e))
  \/ (exists eps,
      box3 F N negative (v_t st)
           (box2 F N alpha_0 alpha_N (v_t st) (v_alpha st) (v_j st))
           (v_j st) (v_epsilon st) = Returned eps /\
      let mm := max_min_epsilon N eps (v_j st) in
      (v_j st = max_iterations T /\ body st = inl (Thrown PivotNotConverged))
      \/ (v_j st <> max_iterations T /\ spread_test threshold (fst mm) (snd mm) = true /\
          body st =
          inl (Returned
                 (emit F N negative (v_t st)
                       (box2 F N alpha_0 alpha_N (v_t st) (v_alpha st) (v_j st))
                       (v_j st) ((fst mm + snd mm) / 4),
                  (fst mm + snd mm) / 4)))
      \/ (v_j st <> max_iterations T /\ spread_test threshold (fst mm) (snd mm) = false /\
          exists st',
            body st = inr st' /\
            v_alpha st' = box2 F N alpha_0 alpha_N (v_t st) (v_alpha st) (v_j st) /\
            v_epsilon st' = eps)).
Proof.
  unfold pivot_body.
  destruct (box3 F N negative (v_t st) _ (v_j st) (v_epsilon st)) as [eps|e] eqn:E.
  - right. exists eps. split; [reflexivity|].
    destruct (max_min_epsilon N eps (v_j st)) as [mx mn]; simpl.
    destruct (Nat.eqb_spec (v_j st) (max_iterations T)) as [Hj|Hj]; simpl.
    + left. split; [exact Hj|reflexivity].
    + right. destruct (spread_test threshold mx mn) eqn:Es.
      * left. split; [exact Hj|]. split; reflexivity.
      * right. split; [exact Hj|]. split; [reflexivity|].
        destruct (if (0 <? v_j st)%nat then _ else _) as [[j' D'] s'].
        eexists. split; [reflexivity|]. split; reflexivity.
  - left. exists e. split; reflexivity.
Qed.

Lemma body_rows st st' : rows_ok N st -> body st = inr st' -> rows_ok N st'.
Proof.
  intros [Ha He] H.
  destruct (body_cases st) as [[e [_ Hb]]|[eps [E [[_ Hb]|[[_ [_ Hb]]|[_ [_ [st1 [Hb [A B]]]]]]]]]];
    try congruence.
  assert (st1 = st') by congruence. subst st1.
  split.
  - rewrite A, box2_length. exact Ha.
  - rewrite B. rewrite (box3_length _ _ _ _ _ E). exact He.
Qed.

Lemma init_rows : rows_ok N (pivot_init N alpha_0 alpha_N).
Proof. split; simpl; apply repeat_length. Qed.

Lemma run_rows k st st' : rows_ok N st -> run k st = Some st' -> rows_ok N st'.
Proof.
  revert st; induction k as [|k IH]; intros st Hr; simpl.
  - intros [= <-]. exact Hr.
  - destruct (body st) as [r|st1] eqn:E; [discriminate|].
    apply IH. eapply body_rows; eauto.
Qed.

(** The call ends with [r] exactly when some turn, reached within the
    fuel, ends with [r]. *)
Lemma loop_run fuel st r :
  loop fuel st = Some r <->
  exists k st', (k < fuel)%nat /\ run k st = Some st' /\ body st' = inl r.
Proof.
  revert st; induction fuel as [|fuel IH]; intros st; simpl.
  - split; [discriminate|]. intros [k [st' [Hk _]]]; lia.
  - destruct (body st) as [r0|st1] eqn:E.
    + split.
      * intros [= <-]. exists 0%nat, st. repeat split; [lia|exact E].
      * intros [k [st' [Hk [Hr Hb]]]]. destruct k as [|k]; simpl in Hr.
        -- injection Hr as <-. congruence.
        -- rewrite E in Hr. discriminate.
    + rewrite IH. split.
      * intros [k [st' [Hk [Hr Hb]]]]. exists (S k), st'.
        repeat split; [lia| |exact Hb]. simpl. rewrite E. exact Hr.
      * intros [k [st' [Hk [Hr Hb]]]]. destruct k as [|k]; simpl in Hr.
        -- injection Hr as <-. congruence.
        -- rewrite E in Hr. exists k, st'. repeat split; [lia|exact Hr|exact Hb].
Qed.

(** More fuel does not change an answer. *)
Lemma loop_mono fuel fuel' st r :
  (fuel <= fuel')%nat -> loop fuel st = Some r -> loop fuel' st = Some r.
Proof.
  intros Hle H. apply loop_run in H. apply loop_run.
  destruct H as [k [st' [Hk H]]]. exists k, st'. split; [lia|exact H].
Qed.

(** The segments of a completed turn start at [alpha_0] and end at
    [alpha_N]. *)
Lemma emit_brackets t al j ef :
  (1 <= N)%nat ->
  at2 al 0 j = alpha_0 -> at2 al N j = alpha_N ->
  brackets alpha_0 alpha_N (emit F N negative t al j ef).
Proof.
  intros HN H0 HL. unfold emit, brackets.
  destruct N as [|n]; [lia|].
  exists (emit_segment F negative t al j ef 0),
         (map (emit_segment F negative t al j ef) (seq 1 n)),
         (mkPwl 0 0 (at2 al (S n) j)).
  split; [reflexivity|]. split; [exact H0|exact HL].
Qed.

Lemma body_Returned_brackets st r e :
  (1 <= N)%nat -> rows_ok N st -> body st = inl (Returned (r, e)) ->
  brackets alpha_0 alpha_N r.
Proof.
  intros HN [Ha He] H.
  destruct (body_cases st) as [[e' [_ Hb]]|[eps [E [[_ Hb]|[[_ [_ Hb]]|[_ [_ [st1 [Hb _]]]]]]]]];
    try congruence.
  rewrite Hb in H. injection H as <- _.
  apply emit_brackets; [exact HN| |].
  - apply box2_first; assumption.
  - apply box2_last; assumption.
Qed.

Lemma body_Thrown st e :
  rows_ok N st -> body st = inl (Thrown e) ->
  e = OutOfRange \/ e = PivotNotConverged.
Proof.
  intros Hr H.
  destruct (body_cases st) as [[e' [E Hb]]|[eps [E [[_ Hb]|[[_ [_ Hb]]|[_ [_ [st1 [Hb _]]]]]]]]];
    try congruence.
  - left. assert (e' = e) by congruence. subst. eapply box3_Thrown; eauto.
  - right. congruence.
Qed.

End PivotFacts.

Lemma pivot_search_brackets fuel T F result N a0 aN neg me thr r e :
  (1 <= N)%nat ->
  pivot_search fuel T F result N a0 aN neg me thr = Some (Returned (r, e)) ->
  brackets a0 aN r.
Proof.
  unfold pivot_search. intros HN H. apply loop_run in H.
  destruct H as [k [st' [_ [Hr Hb]]]].
  eapply body_Returned_brackets; [exact HN| |exact Hb].
  eapply run_rows; [|exact Hr]. apply init_rows.
Qed.

Lemma pivot_search_Thrown fuel T F result N a0 aN neg me thr e :
  pivot_search fuel T F result N a0 aN neg me thr = Some (Thrown e) ->
  e = OutOfRange \/ e = PivotNotConverged.
Proof.
  unfold pivot_search. intros H. apply loop_run in H.
  destruct H as [k [st' [_ [Hr Hb]]]].
  eapply body_Thrown; [|exact Hb].
  eapply run_rows; [|exact Hr]. apply init_rows.
Qed.

Lemma pivot_search_mono fuel fuel' T F result N a0 aN neg me thr r :
  (fuel <= fuel')%nat ->
  pivot_search fuel T F result N a0 aN neg me thr = Some r ->
  pivot_search fuel' T F result N a0 aN neg me thr = Some r.
Proof. unfold pivot_search. apply loop_mono. Qed.

(** ** The search by segment count *)

Section GrowFacts.

Variable T : Activation.
Variable F : Function.
Variables L U allowed : float.
Variable negative : bool.

Lemma grow_mono fuel fuel' gas gas' n pwl e r :
  (fuel <= fuel')%nat -> (gas <= gas')%nat ->
  grow fuel gas T F L U allowed negative n pwl e = Some r ->
  grow fuel' gas' T F L U allowed negative n pwl e = Some r.
Proof.
  intros Hf. revert gas' n pwl e.
  induction gas as [|gas IH]; intros gas' n pwl e Hg; simpl.
  - destruct gas'; simpl; destruct (_ && _); try discriminate; auto.
  - destruct gas' as [|gas']; [lia|]. simpl.
    destruct (_ && _); [|auto].
    destruct (pivot_search fuel T F pwl (S n) L U negative _ default_threshold)
      as [[[p1 e1]|e1]|] eqn:E; try discriminate.
    + rewrite (pivot_search_mono _ _ _ _ _ _ _ _ _ _ _ _ Hf E).
      apply IH. lia.
    + rewrite (pivot_search_mono _ _ _ _ _ _ _ _ _ _ _ _ Hf E). auto.
Qed.

Lemma grow_brackets fuel gas n pwl e n' pwl' e' :
  brackets L U pwl ->
  grow fuel gas T F L U allowed negative n pwl e = Some (Returned (n', pwl', e')) ->
  brackets L U pwl'.
Proof.
  revert n pwl e. induction gas as [|gas IH]; intros n pwl e Hb; simpl.
  - destruct (_ && _); [discriminate|]. intros [= _ <- _]. exact Hb.
  - destruct (_ && _); [|intros [= _ <- _]; exact Hb].
    destruct (pivot_search fuel T F pwl (S n) L U negative _ default_threshold)
      as [[[p1 e1]|e1]|] eqn:E; try discriminate.
    apply IH. eapply pivot_search_brackets; [|exact E]. lia.
Qed.

Lemma grow_Thrown fuel gas n pwl e err :
  grow fuel gas T F L U allowed negative n pwl e = Some (Thrown err) ->
  err = OutOfRange \/ err = PivotNotConverged.
Proof.
  revert n pwl e. induction gas as [|gas IH]; intros n pwl e; simpl.
  - destruct (_ && _); discriminate.
  - destruct (_ && _); [|discriminate].
    destruct (pivot_search fuel T F pwl (S n) L U negative _ default_threshold)
      as [[[p1 e1]|e1]|] eqn:E; try discriminate.
    + apply IH.
    + intros [= <-]. eapply pivot_search_Thrown; exact E.
Qed.

(** Where the [while] stops: at the cap, or with the sampled error
    within the budget. *)
Lemma grow_exit fuel gas n pwl e n' pwl' e' :
  (n <= max_segments_number T)%nat ->
  grow fuel gas T F L U allowed negative n pwl e = Some (Returned (n', pwl', e')) ->
  (n <= n' <= max_segments_number T)%nat /\
  (n' = max_segments_number T \/ (max_error T F allowed <? e') = false).
Proof.
  revert n pwl e. induction gas as [|gas IH]; intros n pwl e Hn; simpl.
  - destruct (Nat.ltb_spec n (max_segments_number T)) as [Hlt|Hge]; simpl.
    + destruct (max_error T F allowed <? e) eqn:Eb; [discriminate|].
      intros [= <- _ <-]. split; [lia|]. right; exact Eb.
    + intros [= <- _ _]. split; [lia|]. left; lia.
  - destruct (Nat.ltb_spec n (max_segments_number T)) as [Hlt|Hge]; simpl.
    + destruct (max_error T F allowed <? e) eqn:Eb.
      * destruct (pivot_search fuel T F pwl (S n) L U negative _ default_threshold)
          as [[[p1 e1]|e1]|] eqn:E; try discriminate.
        intros H. apply IH in H; [|lia]. destruct H as [H1 H2]. split; [lia|exact H2].
      * intros [= <- _ <-]. split; [lia|]. right; exact Eb.
    + intros [= <- _ _]. split; [lia|]. left; lia.
Qed.

End GrowFacts.

Lemma search_segments_mono fuel fuel' T F L U allowed pwl r :
  (fuel <= fuel')%nat ->
  search_segments fuel T F L U allowed pwl = Some r ->
  search_segments fuel' T F L U allowed pwl = Some r.
Proof.
  intros Hf. unfold search_segments.
  destruct (pivot_search fuel T F pwl 1 L U _ _ default_threshold)
    as [[[p1 e1]|e1]|] eqn:E; try discriminate;
    rewrite (pivot_search_mono _ _ _ _ _ _ _ _ _ _ _ _ Hf E); [|auto].
  apply grow_mono; exact Hf.
Qed.

Lemma search_segments_brackets fuel T F L U allowed pwl n pwl' e' :
  search_segments fuel T F L U allowed pwl = Some (Returned (n, pwl', e')) ->
  brackets L U pwl'.
Proof.
  unfold search_segments.
  destruct (pivot_search fuel T F pwl 1 L U _ _ default_threshold)
    as [[[p1 e1]|e1]|] eqn:E; try discriminate.
  apply grow_brackets. eapply pivot_search_brackets; [|exact E]. lia.
Qed.

Lemma search_segments_Thrown fuel T F L U allowed pwl err :
  search_segments fuel T F L U allowed pwl = Some (Thrown err) ->
  err = OutOfRange \/ err = PivotNotConverged.
Proof.
  unfold search_segments.
  destruct (pivot_search fuel T F pwl 1 L U _ _ default_threshold)
    as [[[p1 e1]|e1]|] eqn:E; try discriminate.
  - apply grow_Thrown.
  - intros [= <-]. eapply pivot_search_Thrown; exact E.
Qed.

Lemma search_segments_exit fuel T F L U allowed pwl n pwl' e' :
  search_segments fuel T F L U allowed pwl = Some (Returned (n, pwl', e')) ->
  (1 <= n <= max_segments_number T)%nat /\
  (n = max_segments_number T \/ (max_error T F allowed <? e') = false).
Proof.
  unfold search_segments.
  destruct (pivot_search fuel T F pwl 1 L U _ _ default_threshold)
    as [[[p1 e1]|e1]|] eqn:E; try discriminate.
  apply grow_exit. unfold max_segments_number. lia.
Qed.

Lemma segment_search_mono fuel fuel' T F L U allowed pwl r :
  (fuel <= fuel')%nat ->
  segment_search fuel T F L U allowed pwl = Some r ->
  segment_search fuel' T F L U allowed pwl = Some r.
Proof.
  intros Hf. unfold segment_search.
  destruct (search_segments fuel T F L U allowed pwl) as [r0|] eqn:E; [|discriminate].
  rewrite (search_segments_mono _ _ _ _ _ _ _ _ _ Hf E). auto.
Qed.

Lemma segment_search_brackets fuel T F L U allowed pwl pwl' e' :
  segment_search fuel T F L U allowed pwl = Some (Returned (pwl', e')) ->
  brackets L U pwl'.
Proof.
  unfold segment_search.
  destruct (search_segments fuel T F L U allowed pwl) as [[[[n p1] e1]|e1]|] eqn:E;
    try discriminate.
  destruct (_ <=? _)%nat; [discriminate|]. intros [= <- _].
  eapply search_segments_brackets; exact E.
Qed.

(** ** [pwl_search] *)

Lemma negative_pwl_brackets L U pwl :
  brackets L U pwl -> brackets L U (negative_pwl pwl).
Proof.
  intros [first [mid [last [-> [H1 H2]]]]]. unfold negative_pwl, brackets.
  rewrite map_cons, map_app. simpl.
  eexists _, _, _. split; [reflexivity|]. split; assumption.
Qed.

Lemma merge_brackets L B U pwl pwl2 :
  brackets L B pwl -> brackets B U pwl2 -> brackets L U (merge pwl pwl2).
Proof.
  intros [f1 [m1 [l1 [-> [H1 _]]]]] [f2 [m2 [l2 [-> [_ H2]]]]].
  unfold merge. change (f1 :: m1 ++ [l1]) with ((f1 :: m1) ++ [l1]).
  rewrite removelast_last. simpl.
  exists f1, (m1 ++ f2 :: m2), l2. split.
  - rewrite <- app_assoc. reflexivity.
  - split; assumption.
Qed.

Lemma pwl_search_mono fuel fuel' T F L U allowed e r :
  (fuel <= fuel')%nat ->
  pwl_search fuel T F L U allowed e = Some r ->
  pwl_search fuel' T F L U allowed e = Some r.
Proof.
  revert fuel' L U e r. induction fuel as [|fuel IH]; intros fuel' L U e r Hf; simpl;
    [discriminate|].
  destruct fuel' as [|fuel']; [lia|]. simpl.
  destruct (U <? L); [auto|].
  destruct (split_search T L U).
  - destruct (pwl_search fuel T F L (get_break_bound T) allowed 0)
      as [[[p1 e1]|e1]|] eqn:E1; try discriminate;
      rewrite (IH fuel' _ _ _ _ ltac:(lia) E1); [|auto].
    destruct (pwl_search fuel T F (get_break_bound T) U allowed 0)
      as [[[p2 e2]|e2]|] eqn:E2; try discriminate;
      rewrite (IH fuel' _ _ _ _ ltac:(lia) E2); auto.
  - apply segment_search_mono. lia.
Qed.

(** The segments do not depend on the [err_pct] the caller passes in. *)
Lemma pwl_search_err_pct fuel T F L U allowed e e' :
  option_map segments_of (pwl_search fuel T F L U allowed e) =
  option_map segments_of (pwl_search fuel T F L U allowed e').
Proof.
  destruct fuel as [|fuel]; simpl; [reflexivity|].
  destruct (U <? L); reflexivity.
Qed.

Lemma split_search_bounds T L U :
  split_search T L U = true ->
  (L <? get_break_bound T) = true /\ (get_break_bound T <? U) = true.
Proof.
  unfold split_search. destruct (U <? L); [discriminate|].
  destruct T; try discriminate; intros H; apply andb_true_iff in H; exact H.
Qed.

Lemma pwl_search_brackets fuel T F L U allowed e pwl e' :
  (U <? L) = false ->
  pwl_search fuel T F L U allowed e = Some (Returned (pwl, e')) ->
  brackets L U pwl.
Proof.
  revert L U e pwl e'. induction fuel as [|fuel IH]; intros L U e pwl e' Hlu; simpl;
    [discriminate|].
  rewrite Hlu.
  destruct (split_search T L U) eqn:Es.
  - apply split_search_bounds in Es. destruct Es as [Hl Hu].
    destruct (pwl_search fuel T F L (get_break_bound T) allowed 0)
      as [[[p1 e1]|e1]|] eqn:E1; try discriminate.
    destruct (pwl_search fuel T F (get_break_bound T) U allowed 0)
      as [[[p2 e2]|e2]|] eqn:E2; try discriminate.
    intros [= <- _].
    apply IH in E1; [|apply ltb_asym; exact Hl].
    apply IH in E2; [|apply ltb_asym; exact Hu].
    apply merge_brackets with (B := get_break_bound T).
    + apply negative_pwl_brackets; exact E1.
    + destruct T; try apply negative_pwl_brackets; exact E2.
  - apply segment_search_brackets.
Qed.

Lemma box3_Thrown_NaN (F : Function) (N : nat) (a0 aN : float) (neg : bool)
    (st : pivot_state) (e : runtime_error) :
  rows_ok N st ->
  box3 F N neg (v_t st) (box2 F N a0 aN (v_t st) (v_alpha st) (v_j st))
       (v_j st) (v_epsilon st) = Thrown e ->
  exists i, (i <= N)%nat /\ is_nan (epsilon_value F N a0 aN neg st i) = true.
Proof.
  intros [_ Hl]. unfold box3, epsilon_value.
  set (al := box2 F N a0 aN (v_t st) (v_alpha st) (v_j st)).
  assert (Hlt : forall i, In i (seq 0 N) -> (i < List.length (v_epsilon st))%nat)
    by (intros i Hi; apply in_seq in Hi; lia).
  destruct (box3_loop F neg (v_t st) al (v_j st) (seq 0 N) (v_epsilon st))
    as [eps1|e1] eqn:E; simpl.
  - pose proof (box3_loop_length _ _ _ _ _ _ _ _ E) as Hl1.
    rewrite at2_set2_same by lia.
    destruct (is_nan (epsilon_at F neg (v_t st) al (v_j st) (N - 1) N)) eqn:EN;
      [|discriminate].
    intros _. exists N. split; [lia|]. rewrite min_last. exact EN.
  - intros _. destruct (box3_loop_Thrown _ _ _ _ _ _ _ _ Hlt E) as [_ [i [Hi Hn]]].
    apply in_seq in Hi. exists i. split; [lia|]. rewrite min_inner by lia. exact Hn.
Qed.

(** ** The two-column search is [pivot_search] *)

Lemma nth_combine {A B : Type} (l : list A) (l' : list B) (i : nat) (d : A) (d' : B) :
  (i < List.length l)%nat -> (i < List.length l')%nat ->
  nth i (combine l l') (d, d') = (nth i l d, nth i l' d').
Proof.
  revert l' i; induction l as [|x l IH]; intros [|y l'] [|i]; simpl; intros H1 H2;
    try lia; auto.
  apply IH; lia.
Qed.

Lemma nth_map_lt {A B : Type} (f : A -> B) (l : list A) (i : nat) (d : A) (d' : B) :
  (i < List.length l)%nat -> nth i (map f l) d' = f (nth i l d).
Proof.
  intros H. rewrite (nth_indep _ d' (f d)) by (rewrite length_map; exact H).
  apply map_nth.
Qed.

Lemma tl_length {A : Type} (l : list A) : List.length (tl l) = (List.length l - 1)%nat.
Proof. destruct l; simpl; lia. Qed.

Lemma nth_tl_S {A : Type} (l : list A) (i : nat) (d : A) :
  nth i (tl l) d = nth (S i) l d.
Proof. destruct l; simpl; [destruct i; reflexivity|reflexivity]. Qed.

Lemma last_as_nth {A : Type} (l : list A) (d : A) :
  last l d = nth (List.length l - 1) l d.
Proof.
  induction l as [|x l IH]; simpl; [reflexivity|].
  destruct l as [|y l]; [reflexivity|].
  rewrite IH. simpl. rewrite Nat.sub_0_r. reflexivity.
Qed.

Lemma fold_left_through_map {A B C : Type} (g : A -> C -> A) (h : B -> C)
    (l : list B) (init : A) :
  fold_left (fun acc i => g acc (h i)) l init = fold_left g (map h l) init.
Proof. revert init; induction l as [|x l IH]; intros init; simpl; auto. Qed.

Lemma column_length v n j : List.length (column v n j) = n.
Proof. unfold column. rewrite length_map, length_seq. reflexivity. Qed.

Lemma nth_column v n j i : (i < n)%nat -> nth i (column v n j) 0 = at2 v i j.
Proof.
  intros H. unfold column.
  rewrite (nth_map_lt _ _ _ 0%nat) by (rewrite length_seq; exact H).
  rewrite seq_nth by exact H. reflexivity.
Qed.

Lemma column_ext v v' n j j' :
  (forall i, (i < n)%nat -> at2 v i j = at2 v' i j') -> column v n j = column v' n j'.
Proof.
  intros H. unfold column. apply map_ext_in. intros i Hi. apply in_seq in Hi.
  apply H. lia.
Qed.

Lemma nth_resize_put_older r j j' x :
  (j' < j)%nat -> nth j' (resize_put r j x) 0 = nth j' r 0.
Proof.
  revert r j'; induction j as [|j IH]; intros r j' H; [lia|].
  destruct r as [|y r]; simpl.
  - destruct j' as [|j']; [reflexivity|].
    rewrite IH by lia. destruct j'; reflexivity.
  - destruct j' as [|j']; [reflexivity|]. apply IH. lia.
Qed.

Lemma nth_update_row_short v i f :
  (List.length v <= i)%nat -> update_row v i f = v.
Proof.
  revert i; induction v as [|r v IH]; intros [|i] H; simpl in *; try lia; auto.
  rewrite IH by lia. reflexivity.
Qed.

Lemma at2_set2_older v i k j j' x :
  (j' < j)%nat -> at2 (set2 v i j x) k j' = at2 v k j'.
Proof.
  intros H. destruct (Nat.eq_dec i k) as [->|Hne].
  - destruct (Nat.lt_ge_cases k (List.length v)) as [Hk|Hk].
    + unfold at2, set2, at1. rewrite nth_update_row_same by exact Hk.
      apply nth_resize_put_older. exact H.
    + unfold set2. rewrite nth_update_row_short by exact Hk. reflexivity.
  - apply at2_set2_other. exact Hne.
Qed.

Lemma fold_set2_older (g : list (list float) -> nat -> float) j l v k j' :
  (j' < j)%nat ->
  at2 (fold_left (fun a i => set2 a i j (g a i)) l v) k j' = at2 v k j'.
Proof.
  intros H. revert v; induction l as [|i l IH]; intros v; simpl; auto.
  rewrite IH. apply at2_set2_older. exact H.
Qed.

Lemma fold_set2_same (g : list (list float) -> nat -> float) (x : float) j l v k :
  NoDup l -> In k l -> (k < List.length v)%nat ->
  (forall a, nth k a [] = nth k v [] -> g a k = x) ->
  at2 (fold_left (fun a i => set2 a i j (g a i)) l v) k j = x.
Proof.
  intros Hnd. revert v. induction Hnd as [|i l Hni Hnd IH]; intros v Hin Hk Hg;
    [destruct Hin|]. simpl.
  destruct (Nat.eq_dec i k) as [->|Hne].
  - rewrite fold_set2_other by exact Hni.
    rewrite (Hg v eq_refl). apply at2_set2_same. exact Hk.
  - destruct Hin as [Hin|Hin]; [congruence|].
    apply IH; [exact Hin|rewrite set2_length; exact Hk|].
    intros a Ha. apply Hg. rewrite Ha. unfold set2.
    apply nth_update_row_other. exact Hne.
Qed.

Lemma resize_row_length v i n : List.length (resize_row v i n) = List.length v.
Proof. apply update_row_length. Qed.

Lemma at2_resize_row_other v i n k j :
  i <> k -> at2 (resize_row v i n) k j = at2 v k j.
Proof.
  intros H. unfold at2, resize_row. rewrite nth_update_row_other by exact H. reflexivity.
Qed.

Lemma existsb_nth_iff (p : float -> bool) (l : list float) :
  existsb p l = true <-> exists i, (i < List.length l)%nat /\ p (nth i l 0) = true.
Proof.
  rewrite existsb_exists. split.
  - intros [x [Hin Hp]]. destruct (In_nth l x 0 Hin) as [i [Hi Hx]].
    exists i. split; [exact Hi|]. rewrite Hx. exact Hp.
  - intros [i [Hi Hp]]. exists (nth i l 0). split; [apply nth_In; exact Hi|exact Hp].
Qed.

Section ColumnsFacts.

Variable T : Activation.
Variable F : Function.
Variable N : nat.
Variables alpha_0 alpha_N : float.
Variable negative : bool.
Variable threshold : float.
Hypothesis HN : (1 <= N)%nat.

Lemma box2_inner t al j i :
  List.length al = (N + 1)%nat -> (1 <= i < N)%nat ->
  at2 (box2 F N alpha_0 alpha_N t al j) i j = alpha_at F t j i.
Proof.
  intros Hl Hi. unfold box2. rewrite at2_set2_other by lia.
  apply (fold_set2_same (fun _ i => alpha_at F t j i)).
  - apply seq_NoDup.
  - apply in_seq. lia.
  - rewrite set2_length. lia.
  - reflexivity.
Qed.

Lemma box2_older t al j i j' :
  (j' < j)%nat -> at2 (box2 F N alpha_0 alpha_N t al j) i j' = at2 al i j'.
Proof.
  intros H. unfold box2. rewrite at2_set2_older by exact H.
  rewrite (fold_set2_older (fun _ i => alpha_at F t j i)) by exact H.
  apply at2_set2_older. exact H.
Qed.

Lemma alpha_column_length (ct : list float) :
  List.length ct = N ->
  List.length (alpha_column F alpha_0 alpha_N ct) = (N + 1)%nat.
Proof.
  intros H. unfold alpha_column. simpl.
  rewrite length_app, length_map, length_combine, tl_length, H. simpl. lia.
Qed.

Lemma box2_column t al j :
  List.length al = (N + 1)%nat ->
  column (box2 F N alpha_0 alpha_N t al j) (N + 1) j
  = alpha_column F alpha_0 alpha_N (column t N j).
Proof.
  intros Hl. apply (nth_ext _ _ 0 0).
  - rewrite column_length, alpha_column_length; [reflexivity|apply column_length].
  - rewrite column_length. intros i Hi. rewrite nth_column by exact Hi.
    unfold alpha_column.
    assert (Hlen : List.length (map (fun p => cross F (fst p) (snd p))
                                    (combine (column t N j) (tl (column t N j))))
                   = (N - 1)%nat).
    { rewrite length_map, length_combine, tl_length, column_length. lia. }
    destruct (Nat.eq_dec i 0) as [->|H0]; [apply box2_first; [exact HN|exact Hl]|].
    destruct i as [|i]; [lia|]. simpl nth.
    destruct (Nat.eq_dec (S i) N) as [HiN|HiN].
    + rewrite HiN. rewrite box2_last by exact Hl.
      rewrite app_nth2 by lia. rewrite Hlen.
      replace (i - (N - 1))%nat with 0%nat by lia. reflexivity.
    + rewrite box2_inner by (try exact Hl; lia).
      rewrite app_nth1 by lia.
      rewrite (nth_map_lt _ _ _ (0, 0))
        by (rewrite length_combine, tl_length, column_length; lia).
      rewrite nth_combine by (rewrite ?tl_length, column_length; lia).
      simpl fst; simpl snd. rewrite nth_tl_S.
      rewrite !nth_column by lia.
      unfold alpha_at, cross. replace (S i - 1)%nat with i by lia. reflexivity.
Qed.

Lemma box3_loop_values t al j idx eps eps' :
  NoDup idx ->
  (forall i, In i idx -> (i < List.length eps)%nat) ->
  box3_loop F negative t al j idx eps = Returned eps' ->
  (forall i, In i idx -> at2 eps' i j = epsilon_at F negative t al j i i)
  /\ (forall k j', ~ In k idx \/ (j' < j)%nat -> at2 eps' k j' = at2 eps k j').
Proof.
  intros Hnd. revert eps. induction Hnd as [|i idx Hni Hnd IH]; intros eps Hlt; simpl.
  - intros [= <-]. split; [intros i []|reflexivity].
  - rewrite at2_set2_same by (apply Hlt; left; reflexivity).
    destruct (is_nan (epsilon_at F negative t al j i i)); [discriminate|].
    intros H. apply IH in H.
    2:{ intros k Hk. rewrite set2_length. apply Hlt. right; exact Hk. }
    destruct H as [Hv Hp]. split.
    + intros k [<-|Hk]; [|apply Hv; exact Hk].
      rewrite Hp by (left; exact Hni).
      apply at2_set2_same. apply Hlt. left; reflexivity.
    + intros k j' Hk. rewrite Hp by (destruct Hk as [Hk|Hk]; [left|right]; tauto).
      destruct Hk as [Hk|Hk].
      * apply at2_set2_other. intros ->. apply Hk. left; reflexivity.
      * apply at2_set2_older. exact Hk.
Qed.

Lemma box3_values t al j eps eps' :
  List.length eps = (N + 1)%nat ->
  box3 F N negative t al j eps = Returned eps' ->
  (forall i, (i <= N)%nat ->
             at2 eps' i j = epsilon_at F negative t al j (Nat.min i (N - 1)) i)
  /\ (forall k j', (j' < j)%nat -> at2 eps' k j' = at2 eps k j').
Proof.
  intros Hl. unfold box3.
  destruct (box3_loop F negative t al j (seq 0 N) eps) as [eps1|e1] eqn:E; simpl;
    [|discriminate].
  destruct (is_nan _); [discriminate|]. intros [= <-].
  pose proof (box3_loop_length _ _ _ _ _ _ _ _ E) as Hl1.
  apply box3_loop_values in E; [|apply seq_NoDup|intros i Hi; apply in_seq in Hi; lia].
  destruct E as [Hv Hp]. split.
  - intros i Hi. destruct (Nat.eq_dec i N) as [->|Hne].
    + rewrite at2_set2_same by lia. rewrite min_last. reflexivity.
    + rewrite at2_set2_other by lia. rewrite min_inner by lia.
      apply Hv. apply in_seq. lia.
  - intros k j' Hj. rewrite at2_set2_older by exact Hj. apply Hp. right; exact Hj.
Qed.

Lemma epsilon_column_length (ct alc : list float) :
  List.length ct = N -> List.length alc = (N + 1)%nat ->
  List.length (epsilon_column F negative ct alc) = (N + 1)%nat.
Proof.
  intros H1 H2. unfold epsilon_column.
  rewrite length_app, length_map, length_combine, H1, H2. simpl. lia.
Qed.

Lemma epsilon_column_nth t al j i :
  (i <= N)%nat ->
  nth i (epsilon_column F negative (column t N j) (column al (N + 1) j)) 0
  = epsilon_at F negative t al j (Nat.min i (N - 1)) i.
Proof.
  intros Hi. unfold epsilon_column.
  assert (Hlen : List.length (map (fun p => error_at F negative (fst p) (snd p))
                                  (combine (column t N j) (column al (N + 1) j))) = N).
  { rewrite length_map, length_combine, !column_length. lia. }
  destruct (Nat.eq_dec i N) as [->|Hne].
  - rewrite app_nth2 by lia. rewrite Hlen, Nat.sub_diag. simpl nth.
    rewrite !last_as_nth, !column_length, !nth_column by lia.
    rewrite min_last. replace (N + 1 - 1)%nat with N by lia. reflexivity.
  - rewrite app_nth1 by lia.
    rewrite (nth_map_lt _ _ _ (0, 0)) by (rewrite length_combine, !column_length; lia).
    rewrite nth_combine by (rewrite column_length; lia).
    rewrite !nth_column by lia. rewrite min_inner by lia. reflexivity.
Qed.

Lemma max_min_column_eq eps j :
  max_min_epsilon N eps j = max_min_column (column eps (N + 1) j).
Proof.
  unfold max_min_epsilon, max_min_column, column.
  rewrite Nat.add_1_r. simpl seq. simpl map. simpl hd. simpl tl.
  rewrite <- fold_left_through_map. reflexivity.
Qed.

Lemma emit_columns_eq t al j ef :
  emit F N negative t al j ef
  = emit_columns F negative (column t N j) (column al (N + 1) j) ef.
Proof.
  unfold emit, emit_columns. f_equal.
  - apply (nth_ext _ _ (mkPwl 0 0 0) (mkPwl 0 0 0)).
    + rewrite !length_map, length_seq, !length_combine, tl_length, !column_length. lia.
    + rewrite length_map, length_seq. intros i Hi.
      rewrite (nth_map_lt _ _ _ 0%nat) by (rewrite length_seq; exact Hi).
      rewrite seq_nth by exact Hi.
      rewrite (nth_map_lt _ _ _ (0, (0, 0)))
        by (rewrite !length_combine, tl_length, !column_length; lia).
      rewrite nth_combine
        by (rewrite ?length_combine, ?tl_length, !column_length; lia).
      rewrite nth_combine by (rewrite ?tl_length, !column_length; lia).
      simpl fst; simpl snd. rewrite nth_tl_S. rewrite !nth_column by lia.
      unfold emit_segment, segment_at. simpl. rewrite Nat.add_1_r. reflexivity.
  - rewrite last_as_nth, column_length, nth_column by lia.
    replace (N + 1 - 1)%nat with N by lia. reflexivity.
Qed.

Lemma box4_length Delta t al eps d j :
  List.length (box4 N Delta t al eps d j) = List.length d.
Proof.
  unfold box4. apply (fold_set2_length (fun _ i => d_at Delta t al eps j i)).
Qed.

Lemma box4_column Delta t al eps d j :
  List.length d = (N + 1)%nat ->
  column (box4 N Delta t al eps d j) N j
  = d_column Delta (column t N j) (column al (N + 1) j) (column eps (N + 1) j).
Proof.
  intros Hl. apply (nth_ext _ _ 0 0).
  - unfold d_column.
    rewrite length_map, !length_combine, !tl_length, !column_length. lia.
  - rewrite column_length. intros i Hi. rewrite nth_column by exact Hi.
    unfold box4.
    rewrite (fold_set2_same (fun _ i => d_at Delta t al eps j i) (d_at Delta t al eps j i));
      [|apply seq_NoDup|apply in_seq; lia|lia|reflexivity].
    unfold d_column.
    rewrite (nth_map_lt _ _ _ (0, ((0, 0), (0, 0))))
      by (rewrite !length_combine, !tl_length, !column_length; lia).
    rewrite nth_combine
      by (rewrite ?length_combine, ?tl_length, !column_length; lia).
    rewrite nth_combine
      by (rewrite ?length_combine, ?tl_length, !column_length; lia).
    rewrite !nth_combine by (rewrite ?tl_length, !column_length; lia).
    simpl fst; simpl snd. rewrite !nth_tl_S. rewrite !nth_column by lia.
    unfold d_at, step_at. rewrite Nat.add_1_r. reflexivity.
Qed.

Lemma box5_length t d j : List.length (box5 N t d j) = List.length t.
Proof.
  unfold box5. rewrite resize_row_length.
  apply (fold_set2_length (fun t' i => at2 t' i j + at2 d i j)).
Qed.

Lemma box5_next t d j :
  List.length t = (N + 1)%nat ->
  column (box5 N t d j) N (j + 1) = next_t (column t N j) (column d N j).
Proof.
  intros Hl. apply (nth_ext _ _ 0 0).
  - unfold next_t. rewrite length_map, length_combine, !column_length. lia.
  - rewrite column_length. intros i Hi. rewrite nth_column by exact Hi.
    unfold box5. rewrite at2_resize_row_other by lia.
    rewrite (fold_set2_same (fun t' i => at2 t' i j + at2 d i j)
                            (at2 t i j + at2 d i j));
      [|apply seq_NoDup|apply in_seq; lia|lia|].
    + unfold next_t.
      rewrite (nth_map_lt _ _ _ (0, 0)) by (rewrite length_combine, !column_length; lia).
      rewrite nth_combine by (rewrite column_length; lia).
      rewrite !nth_column by lia. reflexivity.
    + intros a Ha. unfold at2. rewrite Ha. reflexivity.
Qed.

Lemma box5_older t d j i j' :
  (i < N)%nat -> (j' <= j)%nat -> at2 (box5 N t d j) i j' = at2 t i j'.
Proof.
  intros Hi Hj. unfold box5. rewrite at2_resize_row_other by lia.
  apply (fold_set2_older (fun t' i => at2 t' i j + at2 d i j)). lia.
Qed.

End ColumnsFacts.

Section Simulation.

Variable T : Activation.
Variable F : Function.
Variable N : nat.
Variables alpha_0 alpha_N : float.
Variable negative : bool.
Variable threshold : float.
Hypothesis HN : (1 <= N)%nat.

Lemma columns_of_init :
  columns_of N (pivot_init N alpha_0 alpha_N) (columns_init N alpha_0 alpha_N).
Proof.
  unfold columns_of, pivot_init, columns_init. simpl.
  repeat split; try reflexivity; try (rewrite repeat_length; reflexivity).
  - unfold seed_t. rewrite length_app, length_map, length_seq. reflexivity.
  - unfold column. apply map_ext_in. intros i Hi. apply in_seq in Hi.
    unfold at2, seed_t, at1. rewrite app_nth1 by (rewrite length_map, length_seq; lia).
    rewrite (nth_map_lt _ _ _ 0%nat) by (rewrite length_seq; lia).
    rewrite seq_nth by lia. reflexivity.
  - lia.
  - lia.
  - lia.
Qed.

(** One turn of the two searches, from related locals: the same end of
    the call, or related locals again. *)
Lemma body_simulation st cs :
  columns_of N st cs ->
  match pivot_body T F N alpha_0 alpha_N negative threshold st,
        columns_body T F alpha_0 alpha_N negative threshold cs with
  | inl r, inl r' => r = r'
  | inr st', inr cs' => columns_of N st' cs'
  | _, _ => False
  end.
Proof.
  intros [Hj [HD [Hs [Hm [Lt [La [Le [Ld [Ht Hprev]]]]]]]]].
  assert (Hrows : rows_ok N st) by (split; assumption).
  unfold pivot_body, columns_body.
  rewrite Hj, HD, Hs, Hm, Ht.
  set (j := v_j st) in *.
  set (al := box2 F N alpha_0 alpha_N (v_t st) (v_alpha st) j).
  rewrite <- (box2_column F N alpha_0 alpha_N HN (v_t st) (v_alpha st) j La).
  fold al.
  set (E := epsilon_column F negative (column (v_t st) N j) (column al (N + 1) j)).
  assert (HE : forall i, (i <= N)%nat ->
                         nth i E 0 = epsilon_value F N alpha_0 alpha_N negative st i).
  { intros i Hi. unfold E. rewrite epsilon_column_nth by lia. reflexivity. }
  assert (HEl : List.length E = (N + 1)%nat).
  { unfold E. apply epsilon_column_length; [exact HN|apply column_length|apply column_length]. }
  destruct (box3 F N negative (v_t st) al j (v_epsilon st)) as [eps|e] eqn:EB.
  - (* no NaN *)
    destruct (box3_values F N negative HN (v_t st) al j (v_epsilon st) eps Le EB)
      as [Hv Hold].
    pose proof (box3_length _ _ _ _ _ _ _ _ EB) as Leps. rewrite Le in Leps.
    assert (HEc : E = column eps (N + 1) j).
    { apply (nth_ext _ _ 0 0); [rewrite HEl, column_length; reflexivity|].
      rewrite HEl. intros i Hi. rewrite nth_column by exact Hi.
      rewrite Hv by lia. unfold E. apply epsilon_column_nth; lia. }
    assert (Hnan : existsb is_nan E = false).
    { destruct (existsb is_nan E) eqn:Ex; [|reflexivity]. exfalso.
      apply existsb_nth_iff in Ex. destruct Ex as [i [Hi Hn]].
      rewrite HEl in Hi. rewrite HE in Hn by lia.
      destruct (box3_Returned F N alpha_0 alpha_N negative st Hrows) as [Hfw _].
      assert (Hex : exists eps0,
                 box3 F N negative (v_t st)
                      (box2 F N alpha_0 alpha_N (v_t st) (v_alpha st) (v_j st))
                      (v_j st) (v_epsilon st) = Returned eps0)
        by (exists eps; exact EB).
      specialize (Hfw Hex i ltac:(lia)). congruence. }
    rewrite Hnan. rewrite HEc. rewrite <- max_min_column_eq.
    destruct (max_min_epsilon N eps j) as [mx mn].
    destruct ((j =? max_iterations T)%nat || spread_test threshold mx mn) eqn:Edone.
    + destruct (j =? max_iterations T)%nat; [reflexivity|].
      rewrite emit_columns_eq by exact HN. reflexivity.
    + (* the loop goes on *)
      assert (Hstep : forall (back : bool) (Delta : float) (same : bool),
                 (back = true -> (0 < j)%nat) ->
                 columns_of N
                   (mkPivotState ((if back then j - 1 else j) + 1) Delta same mx
                      (box5 N (v_t st)
                            (box4 N Delta (v_t st) al eps (v_d st)
                                  (if back then j - 1 else j))
                            (if back then j - 1 else j))
                      al eps
                      (box4 N Delta (v_t st) al eps (v_d st)
                            (if back then j - 1 else j)))
                   (mkPivotColumns (if back then j else (j + 1)) Delta same mx
                      (next_t (if back then c_t_prev cs else column (v_t st) N j)
                              (d_column Delta
                                 (if back then c_t_prev cs else column (v_t st) N j)
                                 (if back then c_alpha_prev cs
                                  else column al (N + 1) j)
                                 (if back then c_epsilon_prev cs
                                  else column eps (N + 1) j)))
                      (if back then c_t_prev cs else column (v_t st) N j)
                      (if back then c_alpha_prev cs else column al (N + 1) j)
                      (if back then c_epsilon_prev cs else column eps (N + 1) j))).
      { intros back Delta same Hback.
        set (jd := if back then (j - 1)%nat else j).
        assert (Hbt : (if back then c_t_prev cs else column (v_t st) N j)
                      = column (v_t st) N jd).
        { unfold jd. destruct back; [|reflexivity].
          apply Hprev. apply Hback. reflexivity. }
        assert (Hbal : (if back then c_alpha_prev cs else column al (N + 1) j)
                       = column al (N + 1) jd).
        { unfold jd. destruct back; [|reflexivity].
          destruct (Hprev (Hback eq_refl)) as [_ [-> _]].
          apply column_ext. intros i _. symmetry. apply box2_older.
          specialize (Hback eq_refl). lia. }
        assert (Hbeps : (if back then c_epsilon_prev cs else column eps (N + 1) j)
                        = column eps (N + 1) jd).
        { unfold jd. destruct back; [|reflexivity].
          destruct (Hprev (Hback eq_refl)) as [_ [_ ->]].
          apply column_ext. intros i _. symmetry. apply Hold.
          specialize (Hback eq_refl). lia. }
        rewrite Hbt, Hbal, Hbeps.
        unfold columns_of. simpl.
        split; [unfold jd; destruct back; [specialize (Hback eq_refl)|]; lia|].
        split; [reflexivity|]. split; [reflexivity|]. split; [reflexivity|].
        split; [rewrite box5_length; exact Lt|].
        split; [unfold al; rewrite box2_length; exact La|].
        split; [exact Leps|].
        split; [rewrite box4_length; exact Ld|].
        split.
        - rewrite (box5_next N HN (v_t st) _ jd Lt).
          rewrite (box4_column N HN Delta (v_t st) al eps (v_d st) jd Ld). reflexivity.
        - intros _. replace (jd + 1 - 1)%nat with jd by lia.
          split; [|split; reflexivity].
          apply column_ext. intros i Hi. symmetry. apply box5_older; lia. }
      destruct (0 <? j)%nat eqn:Ej.
      * apply Nat.ltb_lt in Ej.
        destruct (v_max_epsilon st <? mx).
        -- apply (Hstep true). intros _; exact Ej.
        -- destruct (mx =? v_max_epsilon st).
           ++ destruct (v_same_epsilon st); simpl.
              ** apply (Hstep true). intros _; exact Ej.
              ** apply (Hstep false). discriminate.
           ++ apply (Hstep false). discriminate.
      * apply (Hstep false). discriminate.
  - (* a NaN *)
    pose proof (box3_Thrown F N alpha_0 alpha_N negative st e Hrows EB) as ->.
    destruct (box3_Thrown_NaN F N alpha_0 alpha_N negative st OutOfRange Hrows EB)
      as [i [Hi Hn]].
    assert (Hex : existsb is_nan E = true).
    { apply existsb_nth_iff. exists i. split; [lia|]. rewrite HE by exact Hi. exact Hn. }
    rewrite Hex. reflexivity.
Qed.

Lemma loop_simulation fuel st cs :
  columns_of N st cs ->
  columns_loop T F alpha_0 alpha_N negative threshold fuel cs
  = pivot_loop T F N alpha_0 alpha_N negative threshold fuel st.
Proof.
  revert st cs. induction fuel as [|fuel IH]; intros st cs H; simpl; [reflexivity|].
  apply body_simulation in H.
  destruct (pivot_body T F N alpha_0 alpha_N negative threshold st) as [r|st'],
           (columns_body T F alpha_0 alpha_N negative threshold cs) as [r'|cs'];
    try contradiction.
  - rewrite H. reflexivity.
  - apply IH. exact H.
Qed.

End Simulation.

(** The search on two columns is [pivot_search], from one segment on. *)
Lemma pivot_search_columns_eq fuel T F result N a0 aN neg me thr :
  (1 <= N)%nat ->
  pivot_search_columns fuel T F N a0 aN neg thr
  = pivot_search fuel T F result N a0 aN neg me thr.
Proof.
  intros HN. unfold pivot_search_columns, pivot_search.
  apply loop_simulation; [exact HN|]. apply columns_of_init; try exact HN.
Qed.

Lemma grow_columns_eq fuel gas T F L U allowed neg n pwl e :
  grow_columns fuel gas T F L U allowed neg n pwl e
  = grow fuel gas T F L U allowed neg n pwl e.
Proof.
  revert n pwl e. induction gas as [|gas IH]; intros n pwl e; simpl; [reflexivity|].
  destruct (_ && _); [|reflexivity].
  rewrite (pivot_search_columns_eq fuel T F pwl (S n) L U neg
             (max_error T F allowed) default_threshold) by lia.
  destruct (pivot_search fuel T F pwl (S n) L U neg _ default_threshold)
    as [[[p1 e1]|e1]|]; try reflexivity.
  apply IH.
Qed.

Lemma search_segments_columns_eq fuel T F L U allowed pwl :
  search_segments_columns fuel T F L U allowed pwl
  = search_segments fuel T F L U allowed pwl.
Proof.
  unfold search_segments_columns, search_segments.
  rewrite (pivot_search_columns_eq fuel T F pwl 1 L U _
             (max_error T F allowed) default_threshold) by lia.
  destruct (pivot_search fuel T F pwl 1 L U _ _ default_threshold)
    as [[[p1 e1]|e1]|]; try reflexivity.
  apply grow_columns_eq.
Qed.

(** ** The header of the examples *)

(** [to_nat] reads the small natural numbers back; in the header of the
    examples a Power node with the exponent 3 is searched on [[-16, 16]]
    as the cube, and the function keeps an exponent that is no integer. *)
Lemma example_header_power :
  forallb (fun n => Nat.eqb (to_nat (of_nat n)) n) (seq 0 1000) = true
  /\ node_bounds example_header (PowerNode (mkConstant element.f32 [3])) = (-16, 16)
  /\ node_bounds example_header (PowerNode (mkConstant element.f32 [2.5])) = (0, 16)
  /\ m_exponent (Function_Power example_header 2.5 1 0) = 2.5
  /\ pwl_search_node example_header 30 (PowerNode (mkConstant element.f32 [3])) 600 0
     = pwl_search 29 Power (Function_Power_nat 3 1 0) (-16) 16 600 0.
Proof.
  split; [vm_compute; reflexivity|]. split; [vm_compute; reflexivity|].
  split; [vm_compute; reflexivity|]. split; [vm_compute; reflexivity|].
  vm_compute. reflexivity.
Qed.

(** ** The rounding of [double] arithmetic *)

(** The four operations of [double] round their exact result; the lemmas
    below bound the error of this rounding from the definitions of the
    specification of the kernel's floating-point numbers. *)

Section RoundDigits.

Local Open Scope Z_scope.

(** *** Digits *)

(** The number of binary digits of a positive number is its logarithm
    plus one. *)
Lemma Zdigits2_log2 (p : positive) : Zdigits2 (Zpos p) = Z.log2 (Zpos p) + 1.
Proof.
  assert (H : forall q, digits2_pos q = Pos.size q).
  { induction q as [q IH|q IH|]; simpl; congruence. }
  simpl. rewrite H. destruct p; simpl; lia.
Qed.

Lemma Zdigits2_nonneg (m : Z) : 0 <= Zdigits2 m.
Proof. destruct m; simpl; lia. Qed.

Lemma Zdigits2_bounds (m : Z) :
  0 < m -> 2 ^ (Zdigits2 m - 1) <= m < 2 ^ Zdigits2 m.
Proof.
  intros H. destruct m as [|p|p]; try lia.
  rewrite Zdigits2_log2. replace (Z.log2 (Z.pos p) + 1 - 1) with (Z.log2 (Z.pos p)) by lia.
  replace (Z.log2 (Z.pos p) + 1) with (Z.succ (Z.log2 (Z.pos p))) by lia.
  apply Z.log2_spec. lia.
Qed.

Lemma Zdigits2_le (m n : Z) : 0 <= m -> 0 <= n -> m < 2 ^ n -> Zdigits2 m <= n.
Proof.
  intros Hm Hn H. destruct (Z.eq_dec m 0) as [->|Hz]; [simpl; lia|].
  destruct (Zdigits2_bounds m ltac:(lia)) as [Hl _].
  destruct (Z_le_gt_dec (Zdigits2 m) n) as [|Hgt]; [assumption|exfalso].
  assert (2 ^ n <= 2 ^ (Zdigits2 m - 1)) by (apply Z.pow_le_mono_r; lia).
  lia.
Qed.

Lemma Zdigits2_ge (m n : Z) : 0 <= n -> 2 ^ n <= m -> n + 1 <= Zdigits2 m.
Proof.
  intros Hn H.
  assert (0 < 2 ^ n) by (apply Z.pow_pos_nonneg; lia).
  destruct (Zdigits2_bounds m ltac:(lia)) as [_ Hu].
  destruct (Z_le_gt_dec (n + 1) (Zdigits2 m)) as [|Hgt]; [assumption|exfalso].
  assert (2 ^ Zdigits2 m <= 2 ^ n)
    by (apply Z.pow_le_mono_r; [lia|pose proof (Zdigits2_nonneg m); lia]).
  lia.
Qed.

(** *** Shifts to the right *)

(** A shift to the right halves the mantissa, whatever it does with the
    round and sticky bits. *)
Lemma shr_1_m (r : shr_record) :
  0 <= shr_m r -> shr_m (shr_1 r) = shr_m r / 2 /\ 0 <= shr_m (shr_1 r).
Proof.
  destruct r as [m r s]. simpl. intros H.
  destruct m as [|[p|p|]|p]; simpl; try lia.
  - split; [reflexivity|lia].
  - split; [|lia]. apply Z.div_unique with 1; lia.
  - split; [|lia]. apply Z.div_unique with 0; lia.
  - split; [reflexivity|lia].
Qed.

Lemma iter_shr_1_m (p : positive) :
  forall r, 0 <= shr_m r ->
  shr_m (SpecFloat.iter_pos shr_1 p r) = shr_m r / 2 ^ Z.pos p
  /\ 0 <= shr_m (SpecFloat.iter_pos shr_1 p r).
Proof.
  induction p as [p IH|p IH|]; intros r H; simpl SpecFloat.iter_pos.
  - destruct (shr_1_m r H) as [E1 H1].
    destruct (IH _ H1) as [E2 H2]. destruct (IH _ H2) as [E3 H3].
    split; [|exact H3]. rewrite E3, E2, E1.
    rewrite !Z.div_div by (try apply Z.pow_pos_nonneg; lia).
    replace (2 ^ Z.pos p~1) with (2 * (2 ^ Z.pos p * 2 ^ Z.pos p)); [reflexivity|].
    assert (Hp : Z.pos p~1 = 1 + Z.pos p + Z.pos p) by lia.
    rewrite Hp, 2!Z.pow_add_r by lia. rewrite Z.pow_1_r. ring.
  - destruct (IH _ H) as [E2 H2]. destruct (IH _ H2) as [E3 H3].
    split; [|exact H3]. rewrite E3, E2.
    rewrite !Z.div_div by (try apply Z.pow_pos_nonneg; lia).
    replace (2 ^ Z.pos p~0) with (2 ^ Z.pos p * 2 ^ Z.pos p); [reflexivity|].
    assert (Hp : Z.pos p~0 = Z.pos p + Z.pos p) by lia.
    rewrite Hp, Z.pow_add_r by lia. reflexivity.
  - destruct (shr_1_m r H) as [E1 H1]. split; [|exact H1]. rewrite E1. reflexivity.
Qed.

Lemma shr_m_of_loc (m : Z) (l : location) : shr_m (shr_record_of_loc m l) = m.
Proof. destruct l as [|[ | | ]]; reflexivity. Qed.

Lemma shr_spec (r : shr_record) (e n : Z) :
  0 <= shr_m r ->
  snd (shr r e n) = e + Z.max n 0
  /\ shr_m (fst (shr r e n)) = shr_m r / 2 ^ Z.max n 0
  /\ 0 <= shr_m (fst (shr r e n)).
Proof.
  intros H. destruct n as [|p|p]; cbn [shr fst snd Z.max Z.compare].
  - rewrite Z.add_0_r, Z.pow_0_r, Z.div_1_r. repeat split; auto.
  - destruct (iter_shr_1_m p r H) as [E1 H1].
    split; [reflexivity|split; [exact E1|exact H1]].
  - rewrite Z.add_0_r, Z.pow_0_r, Z.div_1_r. repeat split; auto.
Qed.

Lemma round_nearest_even_bounds (m : Z) (l : location) :
  m <= round_nearest_even m l <= m + 1.
Proof. destruct l as [|[ | | ]]; simpl; try lia. destruct (Z.even m); lia. Qed.

End RoundDigits.

Section RoundMantissa.

Local Open Scope Z_scope.

Lemma fexp_eq (e : Z) : fexp prec emax e = Z.max (e - 53) (-1074).
Proof. reflexivity. Qed.

Lemma Zdigits2_lt (m : Z) : 0 <= m -> m < 2 ^ Zdigits2 m.
Proof.
  intros H. destruct (Z.eq_dec m 0) as [->|Hz]; [simpl; lia|].
  apply Zdigits2_bounds. lia.
Qed.

(** *** The rounding of a mantissa *)

(** [binary_round_aux] on a mantissa that is not below its place: the
    mantissa is cut at the place [fexp] gives, rounded up by one at most,
    and cut by one more bit at most. *)
Lemma binary_round_aux_spec (sx : bool) (mx ex : Z) (lx : location) :
  0 <= mx -> ex <= fexp prec emax (Zdigits2 mx + ex) ->
  exists m2 e2,
    binary_round_aux prec emax sx mx ex lx =
      match m2 with
      | Z0 => S754_zero sx
      | Zpos m => if e2 <=? emax - prec then S754_finite sx m e2 else S754_infinity sx
      | Zneg _ => S754_nan
      end
    /\ 0 <= m2
    /\ ((e2 = fexp prec emax (Zdigits2 mx + ex)
         /\ mx / 2 ^ (fexp prec emax (Zdigits2 mx + ex) - ex) <= m2
            <= mx / 2 ^ (fexp prec emax (Zdigits2 mx + ex) - ex) + 1)
        \/ (e2 = fexp prec emax (Zdigits2 mx + ex) + 1
            /\ mx / 2 ^ (fexp prec emax (Zdigits2 mx + ex) - ex) - 1 <= 2 * m2
               <= mx / 2 ^ (fexp prec emax (Zdigits2 mx + ex) - ex) + 1)).
Proof.
  intros Hm Hk.
  set (E := fexp prec emax (Zdigits2 mx + ex)) in *.
  set (m1 := mx / 2 ^ (E - ex)).
  unfold binary_round_aux.
  (* the first shift *)
  assert (S1 : shr_fexp prec emax mx ex lx
               = shr (shr_record_of_loc mx lx) ex (E - ex)) by reflexivity.
  pose proof (shr_spec (shr_record_of_loc mx lx) ex (E - ex)) as P1.
  rewrite shr_m_of_loc in P1. specialize (P1 Hm).
  rewrite S1. destruct (shr (shr_record_of_loc mx lx) ex (E - ex)) as [mrs' e'].
  cbn [fst snd] in P1. destruct P1 as [He' [Hm' Hp']].
  rewrite Z.max_l in He', Hm' by lia.
  replace (ex + (E - ex)) with E in He' by lia. subst e'. fold m1 in Hm'.
  (* the rounding *)
  pose proof (round_nearest_even_bounds (shr_m mrs') (loc_of_shr_record mrs')) as Hr.
  set (m1' := round_nearest_even (shr_m mrs') (loc_of_shr_record mrs')) in *.
  rewrite Hm' in Hr.
  assert (Hm1 : 0 <= m1) by (rewrite <- Hm'; exact Hp').
  (* the second shift is by one bit at most *)
  assert (Hk2 : fexp prec emax (Zdigits2 m1' + E) - E <= 1).
  { pose proof (Zdigits2_nonneg mx) as Hd.
    pose proof (Zdigits2_lt mx Hm) as Hlt.
    destruct (Z_le_gt_dec (E - ex) (Zdigits2 mx)) as [Hle|Hgt].
    - assert (m1 < 2 ^ (Zdigits2 mx - (E - ex))).
      { unfold m1. apply Z.div_lt_upper_bound; [apply Z.pow_pos_nonneg; lia|].
        rewrite <- Z.pow_add_r by lia.
        replace (E - ex + (Zdigits2 mx - (E - ex))) with (Zdigits2 mx) by lia.
        exact Hlt. }
      assert (Zdigits2 m1' <= Zdigits2 mx - (E - ex) + 1).
      { apply Zdigits2_le; [lia|lia|].
        rewrite Z.pow_add_r by lia. change (2 ^ 1) with 2. lia. }
      unfold E in *. rewrite !fexp_eq in *. lia.
    - assert (m1 = 0).
      { unfold m1. apply Z.div_small. split; [lia|].
        apply Z.lt_le_trans with (1 := Hlt). apply Z.pow_le_mono_r; lia. }
      assert (Zdigits2 m1' <= 1).
      { apply Zdigits2_le; [lia|lia|]. change (2 ^ 1) with 2. lia. }
      unfold E in *. rewrite !fexp_eq in *. lia. }
  assert (S2 : shr_fexp prec emax m1' E loc_Exact
               = shr (shr_record_of_loc m1' loc_Exact) E
                     (fexp prec emax (Zdigits2 m1' + E) - E)) by reflexivity.
  pose proof (shr_spec (shr_record_of_loc m1' loc_Exact) E
                (fexp prec emax (Zdigits2 m1' + E) - E)) as P2.
  rewrite shr_m_of_loc in P2. specialize (P2 ltac:(lia)).
  rewrite S2.
  destruct (shr (shr_record_of_loc m1' loc_Exact) E
              (fexp prec emax (Zdigits2 m1' + E) - E)) as [mrs'' e''].
  cbn [fst snd] in P2. destruct P2 as [He'' [Hm'' Hp'']].
  exists (shr_m mrs''), e''. split; [reflexivity|]. split; [exact Hp''|].
  destruct (Z_le_gt_dec (fexp prec emax (Zdigits2 m1' + E) - E) 0) as [Hle|Hgt].
  - left. rewrite Z.max_r in He'', Hm'' by lia.
    rewrite Z.pow_0_r, Z.div_1_r in Hm''. split; [lia|]. rewrite Hm''. exact Hr.
  - right. rewrite Z.max_l in He'', Hm'' by lia.
    replace (fexp prec emax (Zdigits2 m1' + E) - E) with 1 in * by lia.
    split; [lia|]. change (2 ^ 1) with 2 in Hm''.
    pose proof (Z.div_mod m1' 2 ltac:(lia)) as Hdm.
    pose proof (Z.mod_pos_bound m1' 2 ltac:(lia)) as Hb.
    rewrite <- Hm'' in Hdm. lia.
Qed.

End RoundMantissa.

Section RoundValue.

Local Open Scope R_scope.

Lemma bpow_pos (e : Z) : 0 < bpow e.
Proof. unfold bpow. apply powerRZ_lt. lra. Qed.

Lemma bpow_add (a b : Z) : bpow (a + b) = bpow a * bpow b.
Proof. unfold bpow. apply powerRZ_add. lra. Qed.

Lemma bpow_IZR (k : Z) : (0 <= k)%Z -> bpow k = IZR (2 ^ k).
Proof.
  intros H. unfold bpow. rewrite <- (Z2Nat.id k) at 1 by exact H.
  rewrite <- pow_powerRZ, pow_IZR. rewrite Z2Nat.id by exact H. reflexivity.
Qed.

Lemma bpow_le (a b : Z) : (a <= b)%Z -> bpow a <= bpow b.
Proof.
  intros H. replace b with (a + (b - a))%Z by lia.
  rewrite bpow_add, (bpow_IZR (b - a)) by lia.
  assert (1 <= IZR (2 ^ (b - a))).
  { apply IZR_le. assert (0 < 2 ^ (b - a))%Z by (apply Z.pow_pos_nonneg; lia). lia. }
  pose proof (bpow_pos a). nra.
Qed.

Lemma bpow_lt_inv (a b : Z) : bpow a < bpow b -> (a < b)%Z.
Proof.
  intros H. destruct (Z_lt_ge_dec a b) as [|Hge]; [assumption|exfalso].
  pose proof (bpow_le b a ltac:(lia)). lra.
Qed.

Lemma bpow_succ (e : Z) : bpow (e + 1) = 2 * bpow e.
Proof. rewrite bpow_add. unfold bpow at 2. simpl. lra. Qed.

(** The value of [m * 2^e] after a shift of the exponent. *)
Lemma F2R_shift (m : Z) (e k : Z) :
  (0 <= k)%Z -> IZR (m * 2 ^ k) * bpow e = IZR m * bpow (e + k).
Proof.
  intros H. rewrite mult_IZR, bpow_add, (bpow_IZR k H). ring.
Qed.

Lemma B2R_sign (s : bool) (m : Z) (e : Z) :
  IZR (cond_Zopp s m) * bpow e = if s then - (IZR m * bpow e) else IZR m * bpow e.
Proof. destruct s; simpl; [rewrite opp_IZR; ring|reflexivity]. Qed.

(** *** The rounding of a mantissa, in the reals *)

(** The same in the reals: when [(mx, ex)] stands for a real [z] from
    [mx * 2^ex] to [(mx + 1) * 2^ex], below [2^1023], the answer is finite,
    of the given sign, and its magnitude is within [2^-51 * z + 2^-1073]
    of [z]. *)
Lemma binary_round_aux_R (sx : bool) (mx ex : Z) (lx : location) (z : R) :
  (0 <= mx)%Z -> (ex <= fexp prec emax (Zdigits2 mx + ex))%Z ->
  IZR mx * bpow ex <= z <= IZR (mx + 1) * bpow ex ->
  z < bpow 1023 ->
  finite_SF (binary_round_aux prec emax sx mx ex lx) = true
  /\ exists v,
       B2R (binary_round_aux prec emax sx mx ex lx) = (if sx then - v else v)
       /\ 0 <= v
       /\ Rabs (v - z) <= bpow (-51) * z + bpow (-1073).
Proof.
  intros Hm Hk Hz Hov.
  destruct (binary_round_aux_spec sx mx ex lx Hm Hk) as [m2 [e2 [Hr [Hm2 Hc]]]].
  set (E := fexp prec emax (Zdigits2 mx + ex)) in *.
  set (m1 := (mx / 2 ^ (E - ex))%Z) in *.
  pose proof (bpow_pos ex) as Hbex. pose proof (bpow_pos E) as HbE.
  assert (HE : bpow E = IZR (2 ^ (E - ex)) * bpow ex).
  { rewrite <- bpow_IZR by lia. rewrite <- bpow_add. f_equal. lia. }
  assert (Hp : (0 < 2 ^ (E - ex))%Z) by (apply Z.pow_pos_nonneg; lia).
  assert (Hdiv : (m1 * 2 ^ (E - ex) <= mx < (m1 + 1) * 2 ^ (E - ex))%Z).
  { pose proof (Z.div_mod mx (2 ^ (E - ex)) ltac:(lia)) as Hdm.
    pose proof (Z.mod_pos_bound mx (2 ^ (E - ex)) Hp) as Hb.
    fold m1 in Hdm. lia. }
  assert (Hz1 : IZR m1 * bpow E <= z <= IZR (m1 + 1) * bpow E).
  { rewrite HE. split.
    - apply Rle_trans with (2 := proj1 Hz). rewrite <- Rmult_assoc, <- mult_IZR.
      apply Rmult_le_compat_r; [lra|]. apply IZR_le. lia.
    - apply Rle_trans with (1 := proj2 Hz). rewrite <- Rmult_assoc, <- mult_IZR.
      apply Rmult_le_compat_r; [lra|]. apply IZR_le. lia. }
  assert (Hz0 : 0 <= z).
  { apply Rle_trans with (2 := proj1 Hz). apply Rmult_le_pos; [apply IZR_le; lia|lra]. }
  (* the size of the last place *)
  assert (HbE' : bpow E <= bpow (-52) * z + bpow (-1074)).
  { unfold E in *. rewrite fexp_eq in *.
    destruct (Z.max_spec (Zdigits2 mx + ex - 53) (-1074)) as [[_ Em]|[Hlt Em]];
      rewrite Em in *.
    - pose proof (bpow_pos (-52)). nra.
    - assert (Hmx : (0 < mx)%Z).
      { destruct (Z.eq_dec mx 0) as [->|];
          [change (Zdigits2 0) with 0%Z in *; lia|lia]. }
      destruct (Zdigits2_bounds mx Hmx) as [Hl _].
      assert (bpow (Zdigits2 mx - 1) <= IZR mx)
        by (rewrite bpow_IZR by (pose proof (Zdigits2_ge mx 0); simpl in *; lia);
            apply IZR_le; exact Hl).
      replace (Zdigits2 mx + ex - 53)%Z with (-52 + ((Zdigits2 mx - 1) + ex))%Z by lia.
      rewrite 2!bpow_add. pose proof (bpow_pos (-52)). pose proof (bpow_pos (-1074)).
      assert (bpow (Zdigits2 mx - 1) * bpow ex <= z).
      { apply Rle_trans with (2 := proj1 Hz). apply Rmult_le_compat_r; lra. }
      assert (bpow (-52) * (bpow (Zdigits2 mx - 1) * bpow ex) <= bpow (-52) * z)
        by (apply Rmult_le_compat_l; lra).
      lra. }
  (* no overflow *)
  assert (HE970 : (E <= 970)%Z).
  { unfold E in *. rewrite fexp_eq in *.
    destruct (Z.eq_dec mx 0) as [Hz'|Hnz];
      [subst mx; change (Zdigits2 0) with 0%Z in *; lia|].
    destruct (Zdigits2_bounds mx ltac:(lia)) as [Hl _].
    assert (bpow (Zdigits2 mx - 1) <= IZR mx)
      by (rewrite bpow_IZR by (pose proof (Zdigits2_ge mx 0); simpl in *; lia);
          apply IZR_le; exact Hl).
    assert (Hlt : bpow (Zdigits2 mx - 1 + ex) < bpow 1023).
    { rewrite bpow_add. apply Rle_lt_trans with (2 := Hov).
      apply Rle_trans with (2 := proj1 Hz). apply Rmult_le_compat_r; lra. }
    apply bpow_lt_inv in Hlt. lia. }
  assert (He2 : (e2 <= 971)%Z) by lia.
  split.
  - rewrite Hr. destruct m2; [reflexivity| |lia].
    change (emax - prec)%Z with 971%Z. destruct (Z.leb_spec e2 971); [reflexivity|lia].
  - exists (IZR m2 * bpow e2). split; [|split].
    + rewrite Hr. destruct m2; [simpl; destruct sx; lra| |lia].
      change (emax - prec)%Z with 971%Z. destruct (Z.leb_spec e2 971); [|lia].
      unfold B2R. apply B2R_sign.
    + apply Rmult_le_pos; [apply IZR_le; lia|pose proof (bpow_pos e2); lra].
    + assert (Hv : IZR (m1 - 1) * bpow E <= IZR m2 * bpow e2 <= IZR (m1 + 1) * bpow E).
      { destruct Hc as [[-> [Ha Hb]]|[-> [Ha Hb]]].
        - apply IZR_le in Ha, Hb. rewrite minus_IZR. rewrite plus_IZR in *. nra.
        - rewrite bpow_succ. apply IZR_le in Ha, Hb.
          rewrite mult_IZR in Ha, Hb. rewrite minus_IZR in *. rewrite plus_IZR in *.
          nra. }
      rewrite minus_IZR, plus_IZR in Hv. rewrite plus_IZR in Hz1.
      assert (H51 : bpow (-51) = 2 * bpow (-52))
        by (replace (-51)%Z with (-52 + 1)%Z by lia; apply bpow_succ).
      assert (H1073 : bpow (-1073) = 2 * bpow (-1074))
        by (replace (-1073)%Z with (-1074 + 1)%Z by lia; apply bpow_succ).
      rewrite H51, H1073. apply Rabs_le. nra.
Qed.

End RoundValue.

Section RoundNormalize.

Local Open Scope Z_scope.

(** *** Shifts to the left *)

Lemma iter_xO (m d : positive) : Z.pos (Pos.iter xO m d) = Z.pos m * 2 ^ Z.pos d.
Proof.
  induction d as [|d IH] using Pos.peano_ind.
  - simpl. lia.
  - rewrite Pos.iter_succ, Pos2Z.inj_xO, IH, Pos2Z.inj_succ, Z.pow_succ_r by lia. ring.
Qed.

Lemma shl_align_spec (mx : positive) (ex ex' : Z) :
  snd (shl_align mx ex ex') = Z.min ex ex'
  /\ Z.pos (fst (shl_align mx ex ex')) = Z.pos mx * 2 ^ (ex - Z.min ex ex').
Proof.
  unfold shl_align. destruct (ex' - ex) as [|d|d] eqn:E; cbn [fst snd].
  - rewrite Z.min_l by lia. rewrite Z.sub_diag. simpl. lia.
  - rewrite Z.min_l by lia. rewrite Z.sub_diag. simpl. lia.
  - rewrite Z.min_r by lia. rewrite iter_xO. split; [reflexivity|].
    f_equal. f_equal. lia.
Qed.

Lemma Zdigits2_mul_pow2 (m : positive) (k : Z) :
  0 <= k -> Zdigits2 (Z.pos m * 2 ^ k) = Zdigits2 (Z.pos m) + k.
Proof.
  intros H. assert (0 < 2 ^ k) by (apply Z.pow_pos_nonneg; lia).
  destruct (Z.pos m * 2 ^ k) as [|p|p] eqn:E; try lia.
  rewrite !Zdigits2_log2, <- E. rewrite Z.log2_mul_pow2 by lia. lia.
Qed.

(** *** The approximation by [binary_round] and [binary_normalize] *)

Local Open Scope R_scope.

Lemma approx_exact (r : spec_float) : finite_SF r = true -> approx r (B2R r).
Proof.
  intros H. split; [exact H|]. split; [|split; intros; lra].
  replace (B2R r - B2R r) with 0 by ring. rewrite Rabs_R0.
  pose proof (bpow_pos (-51)). pose proof (bpow_pos (-1073)).
  pose proof (Rabs_pos (B2R r)). nra.
Qed.

Lemma approx_round_aux (sx : bool) (mx ex : Z) (lx : location) (z : R) :
  (0 <= mx)%Z -> (ex <= fexp prec emax (Zdigits2 mx + ex))%Z ->
  IZR mx * bpow ex <= z <= IZR (mx + 1) * bpow ex ->
  z < bpow 1023 ->
  approx (binary_round_aux prec emax sx mx ex lx) (if sx then - z else z).
Proof.
  intros Hm Hk Hz Hov.
  destruct (binary_round_aux_R sx mx ex lx z Hm Hk Hz Hov) as [Hf [v [Hv [Hv0 Hb]]]].
  assert (Hz0 : 0 <= z).
  { apply Rle_trans with (2 := proj1 Hz).
    apply Rmult_le_pos; [apply IZR_le; lia|pose proof (bpow_pos ex); lra]. }
  split; [exact Hf|]. rewrite Hv. destruct sx.
  - split; [|split; intros; lra].
    replace (- v - - z) with (- (v - z)) by ring. rewrite Rabs_Ropp, Rabs_Ropp.
    rewrite (Rabs_pos_eq z Hz0). exact Hb.
  - split; [|split; intros; lra]. rewrite (Rabs_pos_eq z Hz0). exact Hb.
Qed.

Lemma approx_round (sx : bool) (mx : positive) (ex : Z) :
  IZR (Z.pos mx) * bpow ex < bpow 1023 ->
  approx (binary_round prec emax sx mx ex)
         (if sx then - (IZR (Z.pos mx) * bpow ex) else IZR (Z.pos mx) * bpow ex).
Proof.
  intros Hov. unfold binary_round.
  pose proof (shl_align_spec mx ex (fexp prec emax (Z.pos (digits2_pos mx) + ex)))
    as [He Hm].
  destruct (shl_align mx ex (fexp prec emax (Z.pos (digits2_pos mx) + ex))) as [mz ez].
  cbn [fst snd] in He, Hm.
  change (Z.pos (digits2_pos mx)) with (Zdigits2 (Z.pos mx)) in *.
  set (F := fexp prec emax (Zdigits2 (Z.pos mx) + ex)) in *.
  assert (Hv : IZR (Z.pos mz) * bpow ez = IZR (Z.pos mx) * bpow ex).
  { rewrite Hm, F2R_shift by lia. f_equal. f_equal. lia. }
  rewrite <- Hv in *.
  apply approx_round_aux.
  - lia.
  - rewrite Hm, Zdigits2_mul_pow2 by lia.
    replace (Zdigits2 (Z.pos mx) + (ex - Z.min ex F) + ez)%Z
      with (Zdigits2 (Z.pos mx) + ex)%Z by lia.
    fold F. lia.
  - split; [lra|]. rewrite plus_IZR. pose proof (bpow_pos ez). nra.
  - exact Hov.
Qed.

Lemma approx_normalize (n e : Z) (szero : bool) :
  Rabs (IZR n * bpow e) < bpow 1023 ->
  approx (binary_normalize prec emax n e szero) (IZR n * bpow e).
Proof.
  intros Hov. pose proof (bpow_pos e) as Hb. destruct n as [|p|p]; simpl binary_normalize.
  - rewrite Rmult_0_l. apply (approx_exact (S754_zero szero)). reflexivity.
  - apply (approx_round false). rewrite Rabs_pos_eq in Hov; [exact Hov|].
    apply Rmult_le_pos; [apply IZR_le; lia|lra].
  - replace (IZR (Z.neg p) * bpow e) with (- (IZR (Z.pos p) * bpow e)) in *
      by (change (Z.neg p) with (- Z.pos p)%Z; rewrite opp_IZR; ring).
    apply (approx_round true). rewrite Rabs_Ropp, Rabs_pos_eq in Hov; [exact Hov|].
    apply Rmult_le_pos; [apply IZR_le; lia|lra].
Qed.

End RoundNormalize.

Section RoundAddSub.

Local Open Scope R_scope.

Lemma cond_Zopp_mul (s : bool) (a b : Z) : cond_Zopp s (a * b) = (cond_Zopp s a * b)%Z.
Proof. destruct s; simpl; lia. Qed.

Lemma B2R_align (s : bool) (m : positive) (e ez : Z) :
  (ez <= e)%Z ->
  IZR (cond_Zopp s (Z.pos (fst (shl_align m e ez)))) * bpow ez
  = B2R (S754_finite s m e).
Proof.
  intros H. destruct (shl_align_spec m e ez) as [_ Hm]. rewrite Hm.
  rewrite Z.min_r by lia. rewrite cond_Zopp_mul, F2R_shift by lia.
  unfold B2R. f_equal. f_equal. lia.
Qed.

Lemma approx_ext (r : spec_float) (z z' : R) : z = z' -> approx r z -> approx r z'.
Proof. intros ->. exact (fun H => H). Qed.

(** *** Addition and subtraction *)

(** The sum and the difference of two finite numbers, when they do not
    overflow. *)
Lemma SFadd_approx (x y : spec_float) :
  finite_SF x = true -> finite_SF y = true ->
  Rabs (B2R x + B2R y) < bpow 1023 ->
  approx (SFadd prec emax x y) (B2R x + B2R y).
Proof.
  destruct x as [sx|sx| |sx mx ex], y as [sy|sy| |sy my ey]; try discriminate;
    intros _ _ Hov.
  - apply approx_ext with 0; [simpl; lra|].
    destruct sx, sy; apply (approx_exact (S754_zero _)); reflexivity.
  - apply approx_ext with (B2R (S754_finite sy my ey)); [simpl; lra|].
    apply approx_exact. reflexivity.
  - apply approx_ext with (B2R (S754_finite sx mx ex)); [simpl; lra|].
    apply approx_exact. reflexivity.
  - cbn [SFadd].
    rewrite <- (B2R_align sx mx ex (Z.min ex ey)) in * by lia.
    rewrite <- (B2R_align sy my ey (Z.min ex ey)) in * by lia.
    rewrite <- Rmult_plus_distr_r, <- plus_IZR in *.
    apply approx_normalize. exact Hov.
Qed.

Lemma SFsub_approx (x y : spec_float) :
  finite_SF x = true -> finite_SF y = true ->
  Rabs (B2R x - B2R y) < bpow 1023 ->
  approx (SFsub prec emax x y) (B2R x - B2R y).
Proof.
  destruct x as [sx|sx| |sx mx ex], y as [sy|sy| |sy my ey]; try discriminate;
    intros _ _ Hov.
  - apply approx_ext with 0; [simpl; lra|].
    destruct sx, sy; apply (approx_exact (S754_zero _)); reflexivity.
  - apply approx_ext with (B2R (S754_finite (negb sy) my ey)).
    + unfold B2R. destruct sy; cbn [negb cond_Zopp Z.opp];
        change (Z.neg my) with (- Z.pos my)%Z; rewrite opp_IZR; ring.
    + apply approx_exact. reflexivity.
  - apply approx_ext with (B2R (S754_finite sx mx ex)); [simpl; lra|].
    apply approx_exact. reflexivity.
  - cbn [SFsub].
    rewrite <- (B2R_align sx mx ex (Z.min ex ey)) in * by lia.
    rewrite <- (B2R_align sy my ey (Z.min ex ey)) in * by lia.
    rewrite <- Rmult_minus_distr_r, <- minus_IZR in *.
    apply approx_normalize. exact Hov.
Qed.

End RoundAddSub.

Section RoundMulDiv.

Local Open Scope R_scope.

Lemma valid_canonical (s : bool) (m : positive) (e : Z) :
  valid_binary (S754_finite s m e) = true ->
  fexp prec emax (Zdigits2 (Z.pos m) + e) = e /\ (e <= 971)%Z.
Proof.
  unfold SpecFloat.valid_binary, bounded, canonical_mantissa. intros H.
  apply andb_true_iff in H. destruct H as [H1 H2].
  apply Z.eqb_eq in H1. apply Z.leb_le in H2. split; [exact H1|exact H2].
Qed.

Lemma Zdigits2_pos (m : positive) : (1 <= Zdigits2 (Z.pos m))%Z.
Proof. apply (Zdigits2_ge (Z.pos m) 0); simpl; lia. Qed.

(** *** Multiplication *)

(** The product of two finite numbers in canonical form, when it does
    not overflow. *)
Lemma SFmul_approx (x y : spec_float) :
  valid_binary x = true -> valid_binary y = true ->
  finite_SF x = true -> finite_SF y = true ->
  Rabs (B2R x * B2R y) < bpow 1023 ->
  approx (SFmul prec emax x y) (B2R x * B2R y).
Proof.
  destruct x as [sx|sx| |sx mx ex], y as [sy|sy| |sy my ey]; try discriminate;
    intros Vx Vy _ _ Hov;
    try (apply approx_ext with 0; [simpl; lra|];
         apply (approx_exact (S754_zero _)); reflexivity).
  cbn [SFmul].
  set (z := IZR (Z.pos (mx * my)) * bpow (ex + ey)).
  assert (Hz : B2R (S754_finite sx mx ex) * B2R (S754_finite sy my ey)
               = if xorb sx sy then - z else z).
  { unfold z, B2R. rewrite Pos2Z.inj_mul, mult_IZR, bpow_add.
    destruct sx, sy; cbn [xorb cond_Zopp Z.opp];
      change (Z.neg mx) with (- Z.pos mx)%Z; change (Z.neg my) with (- Z.pos my)%Z;
      rewrite ?opp_IZR; ring. }
  assert (Hz0 : 0 <= z).
  { unfold z. apply Rmult_le_pos; [apply IZR_le; lia|pose proof (bpow_pos (ex + ey)); lra]. }
  rewrite Hz in *. apply approx_round_aux.
  - lia.
  - destruct (valid_canonical _ _ _ Vx) as [Cx _].
    destruct (valid_canonical _ _ _ Vy) as [Cy _].
    pose proof (Zdigits2_pos mx) as Px. pose proof (Zdigits2_pos my) as Py.
    destruct (Zdigits2_bounds (Z.pos mx) ltac:(lia)) as [Lx _].
    destruct (Zdigits2_bounds (Z.pos my) ltac:(lia)) as [Ly _].
    assert (Hd : (Zdigits2 (Z.pos mx) + Zdigits2 (Z.pos my) - 2 + 1
                  <= Zdigits2 (Z.pos (mx * my)))%Z).
    { apply Zdigits2_ge; [lia|].
      replace (Zdigits2 (Z.pos mx) + Zdigits2 (Z.pos my) - 2)%Z
        with ((Zdigits2 (Z.pos mx) - 1) + (Zdigits2 (Z.pos my) - 1))%Z by lia.
      rewrite Z.pow_add_r, Pos2Z.inj_mul by lia.
      apply Z.mul_le_mono_nonneg; try assumption; apply Z.pow_nonneg; lia. }
    rewrite fexp_eq in *. lia.
  - fold z. split; [lra|]. unfold z. rewrite plus_IZR.
    pose proof (bpow_pos (ex + ey)). nra.
  - fold z. destruct (xorb sx sy).
    + rewrite Rabs_Ropp, Rabs_pos_eq in Hov; assumption.
    + rewrite Rabs_pos_eq in Hov; assumption.
Qed.

(** *** Division *)

(** The quotient of the two mantissas that [SFdiv] rounds. *)
Lemma SFdiv_core_binary_spec (mx my : positive) (ex ey : Z) :
  let e' := Z.min (fexp prec emax (Zdigits2 (Z.pos mx) + ex - (Zdigits2 (Z.pos my) + ey)))
                  (ex - ey) in
  exists l,
    SFdiv_core_binary prec emax (Z.pos mx) ex (Z.pos my) ey
    = ((Z.pos mx * 2 ^ (ex - ey - e')) / Z.pos my, e', l)%Z.
Proof.
  intros e'. unfold SFdiv_core_binary. fold e'.
  set (s := (ex - ey - e')%Z).
  assert (Hs : (0 <= s)%Z) by (unfold s, e'; lia).
  set (m' := match s with
             | Z.pos _ => Z.shiftl (Z.pos mx) s
             | 0%Z => Z.pos mx
             | Z.neg _ => 0%Z
             end).
  assert (Hm : m' = (Z.pos mx * 2 ^ s)%Z).
  { unfold m'. destruct s as [|p|p]; [simpl; lia| |lia].
    apply Z.shiftl_mul_pow2. lia. }
  destruct (Z.div_eucl m' (Z.pos my)) as [q r] eqn:E.
  exists (new_location (Z.pos my) r). f_equal. f_equal.
  rewrite <- Hm. unfold Z.div. rewrite E. reflexivity.
Qed.

(** The quotient of a finite number by one that is not zero, when it
    does not overflow. *)
Lemma SFdiv_approx (x : spec_float) (sy : bool) (my : positive) (ey : Z) :
  finite_SF x = true ->
  Rabs (B2R x / B2R (S754_finite sy my ey)) < bpow 1023 ->
  approx (SFdiv prec emax x (S754_finite sy my ey)) (B2R x / B2R (S754_finite sy my ey)).
Proof.
  assert (Hy : 0 < IZR (Z.pos my) * bpow ey).
  { apply Rmult_lt_0_compat; [apply IZR_lt; lia|apply bpow_pos]. }
  destruct x as [sx|sx| |sx mx ex]; try discriminate; intros _ Hov.
  - apply approx_ext with 0; [simpl; unfold Rdiv; lra|].
    apply (approx_exact (S754_zero _)). reflexivity.
  - cbn [SFdiv].
    destruct (SFdiv_core_binary_spec mx my ex ey) as [l ->].
    set (e' := Z.min (fexp prec emax (Zdigits2 (Z.pos mx) + ex - (Zdigits2 (Z.pos my) + ey)))
                     (ex - ey)).
    set (s := (ex - ey - e')%Z).
    assert (Hs : (0 <= s)%Z) by (unfold s, e'; lia).
    set (q := (Z.pos mx * 2 ^ s / Z.pos my)%Z).
    set (z := (IZR (Z.pos mx) * bpow ex) / (IZR (Z.pos my) * bpow ey)).
    assert (Hz : B2R (S754_finite sx mx ex) / B2R (S754_finite sy my ey)
                 = if xorb sx sy then - z else z).
    { unfold z, B2R. pose proof (bpow_pos ey). 
      assert (IZR (Z.pos my) <> 0) by (apply not_0_IZR; lia).
      destruct sx, sy; cbn [xorb cond_Zopp Z.opp];
        change (Z.neg mx) with (- Z.pos mx)%Z; change (Z.neg my) with (- Z.pos my)%Z;
        rewrite ?opp_IZR; field; split; lra. }
    assert (Hp : (0 < 2 ^ s)%Z) by (apply Z.pow_pos_nonneg; lia).
    assert (Hq0 : (0 <= q)%Z) by (unfold q; apply Z.div_pos; lia).
    assert (Hqm : (q * Z.pos my <= Z.pos mx * 2 ^ s < (q + 1) * Z.pos my)%Z).
    { pose proof (Z.div_mod (Z.pos mx * 2 ^ s) (Z.pos my) ltac:(lia)) as Hdm.
      pose proof (Z.mod_pos_bound (Z.pos mx * 2 ^ s) (Z.pos my) ltac:(lia)) as Hb.
      fold q in Hdm. lia. }
    assert (Hzq : z * IZR (Z.pos my) = IZR (Z.pos mx * 2 ^ s) * bpow e').
    { rewrite F2R_shift by lia. replace (e' + s)%Z with (ex + - ey)%Z by (unfold s; lia).
      rewrite bpow_add. unfold z. pose proof (bpow_pos ey).
      assert (IZR (Z.pos my) <> 0) by (apply not_0_IZR; lia).
      assert (Hinv : bpow (- ey) = / bpow ey).
      { apply Rmult_eq_reg_r with (bpow ey); [|lra].
        rewrite <- bpow_add. replace (- ey + ey)%Z with 0%Z by lia.
        rewrite Rinv_l by lra. reflexivity. }
      rewrite Hinv. field. split; lra. }
    assert (Hmy : 0 < IZR (Z.pos my)) by (apply IZR_lt; lia).
    assert (Hz0 : 0 <= z).
    { unfold z. apply Rmult_le_pos.
      - apply Rmult_le_pos; [apply IZR_le; lia|pose proof (bpow_pos ex); lra].
      - apply Rlt_le, Rinv_0_lt_compat. exact Hy. }
    rewrite Hz in *. apply approx_round_aux.
    + exact Hq0.
    + fold s. fold q.
      pose proof (Zdigits2_pos mx) as Px. pose proof (Zdigits2_pos my) as Py.
      destruct (Zdigits2_bounds (Z.pos mx) ltac:(lia)) as [Lx _].
      destruct (Zdigits2_bounds (Z.pos my) ltac:(lia)) as [_ Uy].
      assert (Hd : (Zdigits2 (Z.pos mx) + s - Zdigits2 (Z.pos my) <= Zdigits2 q)%Z).
      { destruct (Z_lt_le_dec (Zdigits2 (Z.pos mx) + s - Zdigits2 (Z.pos my)) 1)
          as [Hlt|Hge]; [pose proof (Zdigits2_nonneg q); lia|].
        replace (Zdigits2 (Z.pos mx) + s - Zdigits2 (Z.pos my))%Z
          with ((Zdigits2 (Z.pos mx) + s - Zdigits2 (Z.pos my) - 1) + 1)%Z by lia.
        apply Zdigits2_ge; [lia|].
        unfold q. apply Z.div_le_lower_bound; [lia|].
        apply Z.le_trans
          with (2 ^ Zdigits2 (Z.pos my)
                * 2 ^ (Zdigits2 (Z.pos mx) + s - Zdigits2 (Z.pos my) - 1))%Z.
        - apply Z.mul_le_mono_nonneg_r; [apply Z.pow_nonneg; lia|lia].
        - rewrite <- Z.pow_add_r by lia.
          replace (Zdigits2 (Z.pos my)
                   + (Zdigits2 (Z.pos mx) + s - Zdigits2 (Z.pos my) - 1))%Z
            with ((Zdigits2 (Z.pos mx) - 1) + s)%Z by lia.
          rewrite Z.pow_add_r by lia.
          apply Z.mul_le_mono_nonneg_r; [lia|exact Lx]. }
      unfold s, e' in *. rewrite !fexp_eq in *. lia.
    + fold s. fold q. fold z.
      destruct Hqm as [Hq1 Hq2]. apply IZR_le in Hq1. apply IZR_lt in Hq2.
      rewrite !mult_IZR in Hq1, Hq2. rewrite mult_IZR in Hzq.
      pose proof (bpow_pos e') as He'.
      apply Rlt_le in Hq2.
      apply Rmult_le_compat_r with (r := bpow e') in Hq1; [|lra].
      apply Rmult_le_compat_r with (r := bpow e') in Hq2; [|lra].
      split.
      * apply Rmult_le_reg_r with (IZR (Z.pos my)); [exact Hmy|].
        rewrite Hzq. lra.
      * apply Rmult_le_reg_r with (IZR (Z.pos my)); [exact Hmy|].
        rewrite Hzq. lra.
    + fold z. destruct (xorb sx sy).
      * rewrite Rabs_Ropp, Rabs_pos_eq in Hov; assumption.
      * rewrite Rabs_pos_eq in Hov; assumption.
Qed.

End RoundMulDiv.

Section RoundOrder.

Local Open Scope R_scope.

(** *** The order of the values *)

(** Of two positive numbers in canonical form the one with the smaller
    exponent is the smaller. *)
Lemma canonical_lt (m1 m2 : positive) (e1 e2 : Z) :
  fexp prec emax (Zdigits2 (Z.pos m1) + e1) = e1 ->
  fexp prec emax (Zdigits2 (Z.pos m2) + e2) = e2 ->
  (e1 < e2)%Z ->
  IZR (Z.pos m1) * bpow e1 < IZR (Z.pos m2) * bpow e2.
Proof.
  rewrite !fexp_eq. intros C1 C2 He.
  destruct (Zdigits2_bounds (Z.pos m1) ltac:(lia)) as [_ U1].
  destruct (Zdigits2_bounds (Z.pos m2) ltac:(lia)) as [L2 _].
  pose proof (Zdigits2_pos m1) as P1.
  assert (D2 : Zdigits2 (Z.pos m2) = 53%Z) by lia.
  assert (D1 : (Zdigits2 (Z.pos m1) <= 53)%Z) by lia.
  rewrite D2 in L2.
  assert (H1 : IZR (Z.pos m1) < bpow 53).
  { rewrite bpow_IZR by lia. apply IZR_lt.
    apply Z.lt_le_trans with (1 := U1). apply Z.pow_le_mono_r; lia. }
  assert (H2 : bpow 52 <= IZR (Z.pos m2)).
  { rewrite bpow_IZR by lia. apply IZR_le. exact L2. }
  assert (H3 : bpow (53 + e1) <= bpow (52 + e2)) by (apply bpow_le; lia).
  rewrite !bpow_add in H3.
  pose proof (bpow_pos e1). pose proof (bpow_pos e2).
  apply Rlt_le_trans with (bpow 53 * bpow e1); [apply Rmult_lt_compat_r; lra|].
  apply Rle_trans with (1 := H3). apply Rmult_le_compat_r; lra.
Qed.

(** [<] on finite [double]s follows the order of the reals. *)
Lemma B2R_lt_SFltb (x y : spec_float) :
  valid_binary x = true -> valid_binary y = true ->
  finite_SF x = true -> finite_SF y = true ->
  B2R x < B2R y -> SFltb x y = true.
Proof.
  destruct x as [sx|sx| |sx mx ex], y as [sy|sy| |sy my ey]; try discriminate;
    intros Vx Vy _ _ H; unfold SFltb, SFcompare.
  - simpl in H. lra.
  - unfold B2R in H. rewrite B2R_sign in H.
    assert (0 < IZR (Z.pos my) * bpow ey)
      by (apply Rmult_lt_0_compat; [apply IZR_lt; lia|apply bpow_pos]).
    destruct sy; [simpl in H; lra|reflexivity].
  - unfold B2R in H. rewrite B2R_sign in H.
    assert (0 < IZR (Z.pos mx) * bpow ex)
      by (apply Rmult_lt_0_compat; [apply IZR_lt; lia|apply bpow_pos]).
    destruct sx; [reflexivity|simpl in H; lra].
  - destruct (valid_canonical _ _ _ Vx) as [Cx _].
    destruct (valid_canonical _ _ _ Vy) as [Cy _].
    unfold B2R in H. rewrite !B2R_sign in H.
    assert (Px : 0 < IZR (Z.pos mx) * bpow ex)
      by (apply Rmult_lt_0_compat; [apply IZR_lt; lia|apply bpow_pos]).
    assert (Py : 0 < IZR (Z.pos my) * bpow ey)
      by (apply Rmult_lt_0_compat; [apply IZR_lt; lia|apply bpow_pos]).
    pose proof (bpow_pos ex) as Bx.
    destruct sx, sy; try reflexivity; try lra.
    + destruct (Z.compare_spec ex ey) as [E|E|E].
      * subst ey. rewrite Pos.compare_cont_spec. simpl.
        destruct (Pos.compare_spec mx my) as [E'|E'|E']; simpl.
        -- subst. lra.
        -- exfalso. assert (IZR (Z.pos mx) < IZR (Z.pos my)) by (apply IZR_lt; lia). nra.
        -- reflexivity.
      * exfalso. pose proof (canonical_lt _ _ _ _ Cx Cy E). lra.
      * reflexivity.
    + destruct (Z.compare_spec ex ey) as [E|E|E].
      * subst ey. rewrite Pos.compare_cont_spec. simpl.
        destruct (Pos.compare_spec mx my) as [E'|E'|E']; simpl.
        -- subst. lra.
        -- reflexivity.
        -- exfalso. assert (IZR (Z.pos my) < IZR (Z.pos mx)) by (apply IZR_lt; lia). nra.
      * reflexivity.
      * exfalso. pose proof (canonical_lt _ _ _ _ Cy Cx E). lra.
Qed.

(** *** The value of a finite [double] *)

Lemma scaled_B2R (x : spec_float) (n : Z) :
  scaled x = Some n -> finite_SF x = true /\ B2R x = IZR n * bpow (-1074).
Proof.
  destruct x as [s|s| |s m e]; unfold scaled; try discriminate.
  - intros [= <-]. split; [reflexivity|simpl; lra].
  - destruct (Z.leb_spec (-1074) e); [|discriminate]. intros E.
    assert (En : n = cond_Zopp s (Z.pos m * 2 ^ (e + 1074))%Z) by congruence.
    rewrite En.
    split; [reflexivity|]. rewrite cond_Zopp_mul, F2R_shift by lia.
    unfold B2R. f_equal. f_equal. lia.
Qed.

(** *** The small integers *)

(** [of_nat] is exact up to 501. *)
Lemma of_nat_table :
  forallb (fun i =>
             match Prim2SF (of_nat i) with
             | S754_zero _ => Nat.eqb i 0
             | S754_finite false m e =>
                 (e <=? 0)%Z && (Z.pos m =? Z.of_nat i * 2 ^ (- e))%Z
             | _ => false
             end)
          (seq 0 502) = true.
Proof. vm_compute. reflexivity. Qed.

Lemma of_nat_value (i : nat) :
  (i <= 501)%nat ->
  finite_SF (Prim2SF (of_nat i)) = true
  /\ B2R (Prim2SF (of_nat i)) = INR i
  /\ (i <> 0%nat -> exists m e, Prim2SF (of_nat i) = S754_finite false m e).
Proof.
  intros Hi. pose proof of_nat_table as T. rewrite forallb_forall in T.
  specialize (T i ltac:(apply in_seq; lia)).
  destruct (Prim2SF (of_nat i)) as [s|s| |s m e]; try discriminate.
  - apply Nat.eqb_eq in T. subst i. split; [reflexivity|]. split; [reflexivity|].
    intros H; contradiction.
  - destruct s; [discriminate|]. apply andb_true_iff in T. destruct T as [T1 T2].
    apply Z.leb_le in T1. apply Z.eqb_eq in T2.
    split; [reflexivity|]. split; [|intros _; eauto].
    unfold B2R. cbn [cond_Zopp]. rewrite T2, F2R_shift by lia.
    replace (e + - e)%Z with 0%Z by lia. unfold bpow. simpl.
    rewrite INR_IZR_INZ. ring.
Qed.

End RoundOrder.

Section RoundSamples.

Local Open Scope R_scope.

Lemma Rabs_le_inv (x y : R) : Rabs x <= y -> - y <= x <= y.
Proof. unfold Rabs. destruct (Rcase_abs x); lra. Qed.

Lemma bpow_m51 : bpow (-51) = / 2251799813685248.
Proof.
  apply Rmult_eq_reg_r with (bpow 51); [|pose proof (bpow_pos 51); lra].
  rewrite <- bpow_add. rewrite (bpow_IZR 51) by lia. simpl (2 ^ 51)%Z.
  unfold bpow. simpl. lra.
Qed.

(** What [approx] says of a value that is not negative. *)
Lemma approx_bounds (r : spec_float) (z : R) :
  approx r z -> 0 <= z ->
  finite_SF r = true
  /\ z - (z / 2251799813685248 + 2 * bpow (-1074)) <= B2R r
     <= z + (z / 2251799813685248 + 2 * bpow (-1074))
  /\ (0 < z -> 0 <= B2R r).
Proof.
  intros [Hf [Hb [Hp _]]] Hz. split; [exact Hf|]. split; [|exact Hp].
  rewrite (Rabs_pos_eq z Hz), bpow_m51 in Hb.
  replace (bpow (-1073)) with (2 * bpow (-1074)) in Hb
    by (replace (-1073)%Z with (-1074 + 1)%Z by lia; rewrite bpow_succ; reflexivity).
  apply Rabs_le_inv in Hb. unfold Rdiv. lra.
Qed.

(** What [approx] says of a value of magnitude [m] at most. *)
Lemma approx_upper (r : spec_float) (z m : R) :
  approx r z -> - m <= z <= m ->
  finite_SF r = true /\ B2R r <= z + (m / 2251799813685248 + 2 * bpow (-1074)).
Proof.
  intros [Hf [Hb _]] Hz. split; [exact Hf|].
  rewrite bpow_m51 in Hb.
  replace (bpow (-1073)) with (2 * bpow (-1074)) in Hb
    by (replace (-1073)%Z with (-1074 + 1)%Z by lia; rewrite bpow_succ; reflexivity).
  apply Rabs_le_inv in Hb.
  assert (Rabs z <= m) by (apply Rabs_le; lra).
  unfold Rdiv. lra.
Qed.

(** *** The samples of a domain whose bounds are well apart *)

(** The sample [L + i * ((U - L) / 501)], [i < 500], through its four
    roundings: the difference, the quotient, the product and the sum are
    each within [2^-51] of their exact value, relatively, or within
    [2^-1073]; the exact sample is [2 * (U - L) / 501] below [U] at
    least, which is more than the four errors when the bounds are well
    apart. *)

(** Every sample of a domain whose bounds are well apart is strictly
    below the upper bound. *)
Lemma samples_below_upper_bound (L U : float) (i : nat) :
  well_separated L U = true -> (i < 500)%nat ->
  (L + of_nat i * ((U - L) / of_nat 501) <? U)%float = true.
Proof.
  intros Hw Hi. unfold well_separated in Hw.
  destruct (scaled (Prim2SF L)) as [l|] eqn:El; [|discriminate].
  destruct (scaled (Prim2SF U)) as [u|] eqn:Eu; [|discriminate].
  apply andb_true_iff in Hw. destruct Hw as [Hw W3].
  apply andb_true_iff in Hw. destruct Hw as [W1 W2].
  apply Z.leb_le in W1, W2, W3.
  destruct (scaled_B2R _ _ El) as [Fl Vl]. destruct (scaled_B2R _ _ Eu) as [Fu Vu].
  set (rl := B2R (Prim2SF L)) in *. set (ru := B2R (Prim2SF U)) in *.
  set (h := bpow (-1074)) in *. set (B := bpow 1020).
  assert (Hh : 0 < h) by apply bpow_pos.
  assert (HB : 0 < B) by apply bpow_pos.
  assert (HhB : h <= B) by (apply bpow_le; lia).
  assert (H1023 : bpow 1023 = 8 * B).
  { replace 1023%Z with (3 + 1020)%Z by lia. rewrite bpow_add, (bpow_IZR 3) by lia.
    change (IZR (2 ^ 3)) with 8. reflexivity. }
  assert (HK : IZR (2 ^ 2094) * h = B).
  { rewrite <- bpow_IZR by lia. unfold h, B. rewrite <- bpow_add. f_equal. }
  (* the hypotheses, in the reals *)
  assert (F1l : - B <= rl <= B).
  { rewrite Vl, <- HK. split.
    - replace (- (IZR (2 ^ 2094) * h)) with (IZR (- 2 ^ 2094) * h)
        by (rewrite opp_IZR; ring).
      apply Rmult_le_compat_r; [lra|]. apply IZR_le. lia.
    - apply Rmult_le_compat_r; [lra|]. apply IZR_le. lia. }
  assert (F1u : - B <= ru <= B).
  { rewrite Vu, <- HK. split.
    - replace (- (IZR (2 ^ 2094) * h)) with (IZR (- 2 ^ 2094) * h)
        by (rewrite opp_IZR; ring).
      apply Rmult_le_compat_r; [lra|]. apply IZR_le. lia.
    - apply Rmult_le_compat_r; [lra|]. apply IZR_le. lia. }
  assert (HD : ru - rl = IZR (u - l) * h) by (rewrite Vl, Vu, minus_IZR; ring).
  assert (F2 : 16777216 * h <= ru - rl).
  { rewrite HD. apply Rmult_le_compat_r; [lra|]. apply IZR_le. exact W2. }
  assert (F3l : - (8796093022208 * (ru - rl)) <= rl <= 8796093022208 * (ru - rl)).
  { rewrite HD, Vl, <- Rmult_assoc.
    change 8796093022208 with (IZR (2 ^ 43)). rewrite <- mult_IZR. split.
    - replace (- (IZR (2 ^ 43 * (u - l)) * h)) with (IZR (- (2 ^ 43 * (u - l))) * h)
        by (rewrite opp_IZR; ring).
      apply Rmult_le_compat_r; [lra|]. apply IZR_le. lia.
    - apply Rmult_le_compat_r; [lra|]. apply IZR_le. lia. }
  assert (F3u : - (8796093022208 * (ru - rl)) <= ru <= 8796093022208 * (ru - rl)).
  { rewrite HD, Vu, <- Rmult_assoc.
    change 8796093022208 with (IZR (2 ^ 43)). rewrite <- mult_IZR. split.
    - replace (- (IZR (2 ^ 43 * (u - l)) * h)) with (IZR (- (2 ^ 43 * (u - l))) * h)
        by (rewrite opp_IZR; ring).
      apply Rmult_le_compat_r; [lra|]. apply IZR_le. lia.
    - apply Rmult_le_compat_r; [lra|]. apply IZR_le. lia. }
  clearbody B. clear HD HK Vl Vu W1 W2 W3 El Eu l u.
  (* the difference of the bounds *)
  assert (Ad : approx (Prim2SF (U - L)) (ru - rl)).
  { rewrite FloatAxioms.sub_spec. apply SFsub_approx; try assumption.
    fold ru rl. rewrite H1023. apply Rabs_def1; lra. }
  apply approx_bounds in Ad; [|lra]. destruct Ad as [Fd [Bd _]]. fold h in Bd.
  set (rd := B2R (Prim2SF (U - L))) in *.
  (* the step *)
  destruct (of_nat_value 501 ltac:(lia)) as [_ [V501 [m [e E501]]]]; [discriminate|].
  assert (Adl : approx (Prim2SF ((U - L) / of_nat 501)) (rd / 501)).
  { rewrite FloatAxioms.div_spec. unfold rd. rewrite E501 in *.
    replace 501 with (B2R (S754_finite false m e)) by (rewrite V501; simpl; lra).
    apply SFdiv_approx; [exact Fd|].
    rewrite V501. fold rd. replace (INR 501) with 501 by (simpl; lra).
    rewrite H1023. apply Rabs_def1; lra. }
  apply approx_bounds in Adl; [|lra]. destruct Adl as [Fdl [Bdl Pdl]]. fold h in Bdl.
  set (rdl := B2R (Prim2SF ((U - L) / of_nat 501))) in *.
  assert (Hdl0 : 0 <= rdl) by (apply Pdl; lra).
  (* the offset of the sample *)
  destruct (of_nat_value i ltac:(lia)) as [Fi [Vi _]].
  assert (Hi0 : 0 <= INR i) by apply pos_INR.
  assert (Hi499 : INR i <= 499).
  { replace 499 with (INR 499) by (simpl; lra). apply le_INR. lia. }
  assert (Hp0 : 0 <= INR i * rdl) by (apply Rmult_le_pos; assumption).
  assert (Hp499 : INR i * rdl <= 499 * rdl) by (apply Rmult_le_compat_r; assumption).
  assert (Ap : approx (Prim2SF (of_nat i * ((U - L) / of_nat 501))) (INR i * rdl)).
  { rewrite FloatAxioms.mul_spec. rewrite <- Vi. unfold rdl.
    apply SFmul_approx; try assumption; try apply Prim2SF_valid.
    rewrite Vi. fold rdl. rewrite H1023. apply Rabs_def1; lra. }
  apply approx_bounds in Ap; [|lra]. destruct Ap as [Fp [Bp _]]. fold h in Bp.
  set (rp := B2R (Prim2SF (of_nat i * ((U - L) / of_nat 501)))) in *.
  (* the sample *)
  assert (Ax : approx (Prim2SF (L + of_nat i * ((U - L) / of_nat 501))) (rl + rp)).
  { rewrite FloatAxioms.add_spec. unfold rl, rp. apply SFadd_approx; try assumption.
    fold rl. fold rp. rewrite H1023. apply Rabs_def1; lra. }
  assert (Hm : - (8796093022208 * (ru - rl) + 2 * h) <= rl + rp
               <= 8796093022208 * (ru - rl) + 2 * h) by lra.
  apply approx_upper with (m := 8796093022208 * (ru - rl) + 2 * h) in Ax; [|exact Hm].
  destruct Ax as [Fx Bx]. fold h in Bx.
  rewrite FloatAxioms.ltb_spec. apply B2R_lt_SFltb; try apply Prim2SF_valid; try assumption.
  fold ru. lra.
Qed.

End RoundSamples.

(** * The claims *)

(** ** C7: when the domain is split *)



(** ** C5: the sign of a sub-domain *)

Lemma eqb_zero_of_SF (x : float) (s : bool) :
  Prim2SF x = S754_zero s -> (x =? 0) = true.
Proof.
  intros H. rewrite FloatAxioms.eqb_spec, H. reflexivity.
Qed.

(** C5, as the code has it. [is_negative] is true for Exp on every
    sub-domain; for Sigmoid, Tanh and SoftSign it is the test
    [upper_bound == 0]; for Power it does not read the upper bound, is true
    whenever the exponent is an integer, of either parity, and false for
    an infinite or NaN exponent; for the other activations it is false. *)
Theorem is_negative_cases (T : Activation) (F : Function) (upper_bound : float) :
  match T with
  | Exp => is_negative T F upper_bound = true
  | Sigmoid | Tanh | SoftSign => is_negative T F upper_bound = (upper_bound =? 0)
  | Power =>
      (forall u, is_negative T F u = is_negative T F upper_bound)
      /\ (integral (m_exponent F) -> is_negative T F upper_bound = true)
      /\ (is_nan (m_exponent F) = true \/ is_infinity (m_exponent F) = true ->
          is_negative T F upper_bound = false)
  | Log | PowerIE => is_negative T F upper_bound = false
  end.
Proof.
  destruct T; try reflexivity.
  split; [reflexivity|]. split.
  - unfold integral, is_negative, fmod_1.
    destruct (Prim2SF (m_exponent F)) as [s|s| |s mx e] eqn:E; try contradiction.
    + intros _. eapply eqb_zero_of_SF; exact E.
    + intros [H|H].
      * apply Z.leb_le in H. rewrite H. simpl. destruct s; reflexivity.
      * destruct (0 <=? e)%Z; [simpl; destruct s; reflexivity|].
        rewrite H. simpl. destruct s; reflexivity.
  - unfold is_negative, fmod_1. intros [H|H].
    + apply is_nan_true in H. unfold isNaN in H. rewrite H. reflexivity.
    + unfold is_infinity in H. rewrite FloatAxioms.eqb_spec, FloatAxioms.abs_spec in H.
      destruct (Prim2SF (m_exponent F)) as [s|s| |s mx e]; try reflexivity.
      * discriminate.
      * simpl in H. discriminate.
Qed.

(** The theorem at Power with the exponents 2 and 3. *)
Lemma is_negative_cases_witness :
  integral 2 /\ integral 3
  /\ is_negative Power (Function_Power_nat 2 1 0) 16 = true
  /\ is_negative Power (Function_Power_nat 3 1 0) 16 = true.
Proof.
  split; [vm_compute; right; reflexivity|].
  split; [vm_compute; right; reflexivity|].
  split.
  - apply (is_negative_cases Power (Function_Power_nat 2 1 0) 16).
    vm_compute; right; reflexivity.
  - apply (is_negative_cases Power (Function_Power_nat 3 1 0) 16).
    vm_compute; right; reflexivity.
Defined.

(** C5 fails as it is stated: for Power the answer does not follow the
    parity of an integer exponent, it is [true] for the even exponent 2 and
    for the odd exponent 3 alike (and [false] for 2.5). *)
Lemma is_negative_ignores_parity :
  is_negative Power (Function_Power_nat 2 1 0) 16
  = is_negative Power (Function_Power_nat 3 1 0) 16
  /\ is_negative Power (mkFunction (fun x => x) (fun x => x) 2.5) 16 = false.
Proof. split; reflexivity. Qed.

(** ** C6 and C8: the exponent of a Power node *)

Lemma get_exponent_accepted (constant : Constant) (exponent : float) :
  In (get_element_type constant) exponent_types ->
  get_exponent exponent_types constant exponent = get_exponent_as constant exponent.
Proof.
  unfold exponent_types. simpl.
  destruct (get_element_type constant); simpl; intros H;
    try reflexivity; exfalso; repeat (destruct H as [H|H]; [discriminate|]); exact H.
Qed.

Lemma get_exponent_rejected (constant : Constant) (exponent : float) :
  ~ In (get_element_type constant) exponent_types ->
  get_exponent exponent_types constant exponent = Returned (false, exponent).
Proof.
  unfold exponent_types. simpl.
  destruct (get_element_type constant); simpl; intros H;
    try reflexivity; exfalso; apply H; auto 10.
Qed.

(** C6. A Power node whose constant, of an accepted type and with one
    element, holds an exponent that [are_floats_equal] finds equal to 1
    gets the identity PWL: exactly the segments (m = 1, b = 0,
    alpha = INT32_MIN) and (m = 0, b = 0, alpha = INT32_MAX), whatever the
    fuel, also none: the search itself is not run.  The node is replaced
    by a Pwl with m = (1), b = (0), alpha = (INT32_MIN, INT32_MAX). *)
Theorem power_identity (h : Header) (fuel : nat) (constant : Constant)
    (exponent allowed err_pct : float) :
  In (get_element_type constant) exponent_types ->
  get_vector constant = [exponent] ->
  are_floats_equal h exponent 1 = true ->
  pwl_search_Power h fuel constant allowed err_pct
  = Some (Returned ([mkPwl 1 0 INT32_MIN; mkPwl 0 0 INT32_MAX], err_pct))
  /\ transpose_to_pwl h fuel (PowerNode constant) allowed
     = Some (Returned (Some (mkPwlOp [1] [0] [INT32_MIN; INT32_MAX])))
  /\ INT32_MIN = - 0x1p31 /\ INT32_MAX = 0x1p31 - 1.
Proof.
  intros Hty Hv He.
  assert (Hp : forall e0,
             pwl_search_Power h fuel constant allowed e0
             = Some (Returned ([mkPwl 1 0 INT32_MIN; mkPwl 0 0 INT32_MAX], e0))).
  { intros e0. unfold pwl_search_Power.
    rewrite (get_exponent_accepted _ _ Hty). unfold get_exponent_as.
    rewrite Hv, He. reflexivity. }
  split; [apply Hp|]. split.
  - unfold transpose_to_pwl, pwl_search_node. rewrite Hp. reflexivity.
  - split; reflexivity.
Qed.

(** The theorem at the f32 constant 1, without fuel. *)
Lemma power_identity_witness :
  In (get_element_type (mkConstant element.f32 [1])) exponent_types
  /\ are_floats_equal example_header 1 1 = true
  /\ pwl_search_Power example_header 0 (mkConstant element.f32 [1]) 0x1p-7 0
     = Some (Returned ([mkPwl 1 0 INT32_MIN; mkPwl 0 0 INT32_MAX], 0)).
Proof.
  assert (Hin : In (get_element_type (mkConstant element.f32 [1])) exponent_types)
    by (simpl; auto 10).
  split; [exact Hin|]. split; [reflexivity|].
  apply (power_identity example_header 0 (mkConstant element.f32 [1]) 1 0x1p-7 0);
    [exact Hin|reflexivity|reflexivity].
Defined.

(** C8, as the code has it. The exponent is read from a constant of type
    i32, i64, u32, u64, f16, f32 or f64 with exactly one element; a
    constant of any other type fails with the unsupported-type error, and
    a constant of an accepted type with no element or several fails with
    the exponents-size error; both are of the kind UnsupportedType. *)
Theorem exponent_accepted_types (h : Header) (fuel : nat) (constant : Constant)
    (allowed err_pct : float) :
  exponent_types
  = [element.i32; element.i64; element.u32; element.u64;
     element.f16; element.f32; element.f64]
  /\ (In (get_element_type constant) exponent_types ->
      forall exponent, get_vector constant = [exponent] ->
      get_exponent exponent_types constant 0 = Returned (true, exponent))
  /\ (~ In (get_element_type constant) exponent_types ->
      pwl_search_Power h fuel constant allowed err_pct
      = Some (Thrown UnsupportedElement))
  /\ (In (get_element_type constant) exponent_types ->
      List.length (get_vector constant) <> 1%nat ->
      pwl_search_Power h fuel constant allowed err_pct
      = Some (Thrown ExponentsSize))
  /\ kind_of UnsupportedElement = UnsupportedType
  /\ kind_of ExponentsSize = UnsupportedType.
Proof.
  split; [reflexivity|]. split; [|split; [|split; [|split; reflexivity]]].
  - intros Hty exponent Hv. rewrite (get_exponent_accepted _ _ Hty).
    unfold get_exponent_as. rewrite Hv. reflexivity.
  - intros Hty. unfold pwl_search_Power.
    rewrite (get_exponent_rejected _ _ Hty). reflexivity.
  - intros Hty Hv. unfold pwl_search_Power.
    rewrite (get_exponent_accepted _ _ Hty). unfold get_exponent_as.
    destruct (get_vector constant) as [|e0 [|e1 v]]; simpl in Hv; try reflexivity.
    exfalso; apply Hv; reflexivity.
Qed.

(** The theorem at the u64 constant 2, at the i8 constant 2 and at the
    f32 constant (2, 3). *)
Lemma exponent_accepted_types_witness :
  get_exponent exponent_types (mkConstant element.u64 [2]) 0 = Returned (true, 2)
  /\ pwl_search_Power example_header 0 (mkConstant element.i8 [2]) 0x1p-7 0
     = Some (Thrown UnsupportedElement)
  /\ pwl_search_Power example_header 0 (mkConstant element.f32 [2; 3]) 0x1p-7 0
     = Some (Thrown ExponentsSize).
Proof.
  pose proof (exponent_accepted_types example_header 0 (mkConstant element.u64 [2])
                                      0x1p-7 0) as [_ [H1 _]].
  pose proof (exponent_accepted_types example_header 0 (mkConstant element.i8 [2])
                                      0x1p-7 0) as [_ [_ [H2 _]]].
  pose proof (exponent_accepted_types example_header 0 (mkConstant element.f32 [2; 3])
                                      0x1p-7 0) as [_ [_ [_ [H3 _]]]].
  split; [|split].
  - apply H1; [simpl; auto 10|reflexivity].
  - apply H2. simpl. intros H.
    repeat (destruct H as [H|H]; [discriminate|]). exact H.
  - apply H3; [simpl; auto 10|simpl; lia].
Defined.

(** C8 fails as it is stated: i16, i8, u8, u16 and bf16 are integer and
    floating-point types of at most 64 bits, and a Power node whose
    exponent constant has one of them, with one element, fails with the
    unsupported-type error. *)
Lemma exponent_i16_rejected :
  pwl_search_Power example_header 5 (mkConstant element.i16 [2]) 0x1p-7 0
  = Some (Thrown UnsupportedElement)
  /\ pwl_search_Power example_header 5 (mkConstant element.i8 [2]) 0x1p-7 0
     = Some (Thrown UnsupportedElement)
  /\ pwl_search_Power example_header 5 (mkConstant element.u8 [2]) 0x1p-7 0
     = Some (Thrown UnsupportedElement)
  /\ pwl_search_Power example_header 5 (mkConstant element.u16 [2]) 0x1p-7 0
     = Some (Thrown UnsupportedElement)
  /\ pwl_search_Power example_header 5 (mkConstant element.bf16 [2]) 0x1p-7 0
     = Some (Thrown UnsupportedElement).
Proof. repeat split; reflexivity. Qed.

(** ** C1: the segments bracket the domain *)

(** C1, as the code has it. Every segment list that [pwl_search] returns
    for a domain that is not inverted has at least two segments, the first
    with alpha equal to the lower bound and the last, the sentinel, with
    alpha equal to the upper bound; so has every list that [pivot_search]
    returns, between [alpha_0] and [alpha_N].  This covers the lists merged
    from the two halves of a split domain.  (Nothing orders the inner
    alphas.) *)
Theorem returned_segments_bracket (fuel : nat) (T : Activation) (F : Function)
    (L U allowed err_pct : float) (pwl : list Pwl) (err_pct' : float) :
  (U <? L) = false ->
  pwl_search fuel T F L U allowed err_pct = Some (Returned (pwl, err_pct')) ->
  brackets L U pwl
  /\ (2 <= List.length pwl)%nat
  /\ (forall result N neg me thr r e,
        (1 <= N)%nat ->
        pivot_search fuel T F result N L U neg me thr = Some (Returned (r, e)) ->
        brackets L U r).
Proof.
  intros Hlu H. apply pwl_search_brackets in H; [|exact Hlu].
  split; [exact H|]. split.
  - destruct H as [first [mid [last [-> _]]]]. simpl. rewrite length_app. simpl. lia.
  - intros result N neg me thr r e HN Hr. eapply pivot_search_brackets; eauto.
Qed.

(** The theorem at that search, which goes through the split and the
    merge. *)
Lemma returned_segments_bracket_witness :
  (16 <? -16) = false
  /\ split_search Power (-16) 16 = true
  /\ brackets (-16) 16 shifted_cube_segments.
Proof.
  split; [reflexivity|]. split; [reflexivity|].
  refine (proj1 (returned_segments_bracket 30 Power (Function_Power_nat 3 1 (-10.125))
                   (-16) 16 600 0 shifted_cube_segments
                   (match pwl_search 30 Power (Function_Power_nat 3 1 (-10.125))
                            (-16) 16 600 0 with
                    | Some (Returned (_, e)) => e
                    | _ => 0
                    end) _ _)).
  - reflexivity.
  - vm_compute. reflexivity.
Defined.

(** C1 fails as it is stated: for Power with exponent 3, scale 1 and shift
    -10.125, that is [y = (x - 10.125)^3], on [[-16, 16]] under the error
    budget 600 the search returns six segments, merged from the two
    halves, whose alphas are not increasing: the fifth alpha, the
    crossing of the two tangents of the right half, is above 16, the
    alpha of the sentinel. *)
Lemma shifted_cube_alphas_not_increasing :
  exists err_pct,
    pwl_search 30 Power (Function_Power_nat 3 1 (-10.125)) (-16) 16 600 0
    = Some (Returned (shifted_cube_segments, err_pct))
    /\ List.length shifted_cube_segments = 6%nat
    /\ strictly_increasing (map alpha shifted_cube_segments) = false
    /\ (16 <? alpha (nth 4 shifted_cube_segments (mkPwl 0 0 0))) = true
    /\ alpha (nth 5 shifted_cube_segments (mkPwl 0 0 0)) = 16.
Proof.
  eexists. split; [vm_compute; reflexivity|].
  repeat split; reflexivity.
Qed.

(** ** C9: two runs agree *)

(** C9. Two runs of [pwl_search] on the same activation, bounds and error
    budget that both come to an end give the same answer: the same
    exception, or segment arrays that are equal, in length and in every
    alpha, m and b.  What the runs may differ in does not matter: the
    fuel of the model, the value of [err_pct] that the caller passes in
    and, for [pivot_search], the former content of [result]. *)
Theorem pwl_search_deterministic (T : Activation) (F : Function)
    (L U allowed : float) (fuel1 fuel2 : nat) (err_pct1 err_pct2 : float)
    (r1 r2 : outcome (list Pwl * float)) :
  pwl_search fuel1 T F L U allowed err_pct1 = Some r1 ->
  pwl_search fuel2 T F L U allowed err_pct2 = Some r2 ->
  segments_of r1 = segments_of r2
  /\ (forall N neg me thr result1 result2 p1 p2,
        pivot_search fuel1 T F result1 N L U neg me thr = Some p1 ->
        pivot_search fuel2 T F result2 N L U neg me thr = Some p2 ->
        p1 = p2).
Proof.
  intros H1 H2. split.
  - apply (pwl_search_mono fuel1 (Nat.max fuel1 fuel2)) in H1; [|lia].
    apply (pwl_search_mono fuel2 (Nat.max fuel1 fuel2)) in H2; [|lia].
    pose proof (pwl_search_err_pct (Nat.max fuel1 fuel2) T F L U allowed
                                   err_pct1 err_pct2) as E.
    rewrite H1, H2 in E. simpl in E. congruence.
  - intros N neg me thr result1 result2 p1 p2 P1 P2.
    apply (pivot_search_mono fuel1 (Nat.max fuel1 fuel2)) in P1; [|lia].
    apply (pivot_search_mono fuel2 (Nat.max fuel1 fuel2)) in P2; [|lia].
    unfold pivot_search in *. congruence.
Qed.

(** The theorem at two runs of the search for Power with exponent 3 and
    shift -10.125 on [[-16, 16]], with different fuel and [err_pct]. *)
Lemma pwl_search_deterministic_witness :
  exists r1 r2,
    pwl_search 30 Power (Function_Power_nat 3 1 (-10.125)) (-16) 16 600 0 = Some r1
    /\ pwl_search 40 Power (Function_Power_nat 3 1 (-10.125)) (-16) 16 600 1 = Some r2
    /\ segments_of r1 = segments_of r2.
Proof.
  eexists. eexists.
  assert (H1 : pwl_search 30 Power (Function_Power_nat 3 1 (-10.125)) (-16) 16 600 0
               = Some (Returned (shifted_cube_segments,
                                 match pwl_search 30 Power (Function_Power_nat 3 1 (-10.125))
                                         (-16) 16 600 0 with
                                 | Some (Returned (_, e)) => e
                                 | _ => 0
                                 end)))
    by (vm_compute; reflexivity).
  assert (H2 : pwl_search 40 Power (Function_Power_nat 3 1 (-10.125)) (-16) 16 600 1
               = Some (Returned (shifted_cube_segments,
                                 match pwl_search 40 Power (Function_Power_nat 3 1 (-10.125))
                                         (-16) 16 600 1 with
                                 | Some (Returned (_, e)) => e
                                 | _ => 0
                                 end)))
    by (vm_compute; reflexivity).
  split; [exact H1|]. split; [exact H2|].
  exact (proj1 (pwl_search_deterministic Power (Function_Power_nat 3 1 (-10.125))
                  (-16) 16 600 30 40 0 1 _ _ H1 H2)).
Defined.

(** ** C3: inverted and NaN bounds *)

Lemma split_search_NaN (T : Activation) (L U : float) :
  isNaN L \/ isNaN U -> split_search T L U = false.
Proof.
  intros H. unfold split_search. destruct (U <? L); [reflexivity|].
  assert (E : (L <? get_break_bound T) && (get_break_bound T <? U) = false).
  { destruct H as [H|H].
    - rewrite (ltb_nan_l _ _ H). reflexivity.
    - rewrite (ltb_nan_r _ _ H). apply andb_false_r. }
  destruct T; try reflexivity; exact E.
Qed.

(** With a NaN bound the first error of the first turn is a NaN. *)
Lemma first_epsilon_NaN (F : Function) (L U : float) (neg : bool) :
  isNaN L \/ isNaN U ->
  is_nan (epsilon_value F 1 L U neg (pivot_init 1 L U) 0) = true.
Proof.
  intros H. apply is_nan_true.
  unfold epsilon_value, epsilon_at. simpl Nat.min. simpl v_t. simpl v_j.
  set (t00 := at2 (seed_t 1 L U) 0 0).
  assert (Ht : isNaN t00).
  { unfold t00, seed_t, at2, at1. simpl.
    destruct H as [H|H]; auto with nan. }
  auto 10 with nan.
Qed.

Lemma pivot_search_NaN (fuel : nat) (T : Activation) (F : Function)
    (result : list Pwl) (L U : float) (neg : bool) (me thr : float) :
  isNaN L \/ isNaN U ->
  pivot_search (S fuel) T F result 1 L U neg me thr = Some (Thrown OutOfRange).
Proof.
  intros H. unfold pivot_search. apply loop_run.
  exists 0%nat, (pivot_init 1 L U). split; [lia|]. split; [reflexivity|].
  pose proof (init_rows 1 L U) as Hr.
  destruct (body_cases T F 1 L U neg thr (pivot_init 1 L U))
    as [[e [E Hb]]|[eps [E _]]].
  - rewrite Hb. apply (box3_Thrown F 1 L U neg _ _ Hr) in E. rewrite E. reflexivity.
  - exfalso.
    assert (Hex : exists eps0,
               box3 F 1 neg (v_t (pivot_init 1 L U))
                    (box2 F 1 L U (v_t (pivot_init 1 L U))
                          (v_alpha (pivot_init 1 L U)) (v_j (pivot_init 1 L U)))
                    (v_j (pivot_init 1 L U)) (v_epsilon (pivot_init 1 L U))
               = Returned eps0) by (exists eps; exact E).
    destruct (box3_Returned F 1 L U neg _ Hr) as [Hfw _].
    specialize (Hfw Hex 0%nat ltac:(lia)).
    rewrite (first_epsilon_NaN F L U neg H) in Hfw. discriminate.
Qed.

(** C3, as the code has it. For an inverted domain, [L > U], [pwl_search]
    raises nothing and returns the empty segment list, and the entry
    [transpose_to_pwl] then answers [false] and leaves the node as it is.
    With a NaN bound the call fails in [pivot_search] with the
    out-of-range error, of the kind DomainError.  No error of the file is
    of the kind InvalidDomain. *)
Theorem invalid_domain_handling (fuel : nat) (T : Activation) (F : Function)
    (L U allowed err_pct : float) :
  ((U <? L) = true ->
   pwl_search (S fuel) T F L U allowed err_pct = Some (Returned ([], err_pct)))
  /\ (forall h node,
        generic_activation node = Some T ->
        (upper_bound h T <? lower_bound h T) = true ->
        transpose_to_pwl h (S fuel) node allowed = Some (Returned None))
  /\ (is_nan L = true \/ is_nan U = true ->
      pwl_search (S (S fuel)) T F L U allowed err_pct = Some (Thrown OutOfRange))
  /\ kind_of OutOfRange = DomainError
  /\ (forall e, kind_of e <> InvalidDomain).
Proof.
  split; [|split; [|split; [|split]]].
  - intros H. simpl. rewrite H. reflexivity.
  - intros h node Hn H. unfold transpose_to_pwl.
    assert (E : pwl_search_node h (S fuel) node allowed 0
                = Some (Returned ([], 0))).
    { destruct node; simpl in Hn; try discriminate; injection Hn as <-;
        unfold pwl_search_node; simpl; rewrite H; reflexivity. }
    rewrite E. reflexivity.
  - intros H.
    assert (Hn : isNaN L \/ isNaN U)
      by (destruct H as [H|H]; apply is_nan_true in H; auto).
    change (pwl_search (S (S fuel)) T F L U allowed err_pct)
      with (if U <? L then Some (Returned ([], err_pct))
            else if split_search T L U then
                   split_path (S fuel) T F L U allowed
                 else segment_search (S fuel) T F L U allowed []).
    rewrite (split_search_NaN T L U Hn).
    assert (Hlt : (U <? L) = false)
      by (destruct Hn as [Hn|Hn]; [apply ltb_nan_r|apply ltb_nan_l]; exact Hn).
    rewrite Hlt. unfold segment_search, search_segments.
    rewrite (pivot_search_NaN fuel T F [] L U _ _ _ Hn). reflexivity.
  - reflexivity.
  - intros [ | | | | ]; discriminate.
Qed.

(** The theorem at SoftSign on the inverted domain [[1, 0]] and on a
    domain with a NaN lower bound. *)
Lemma invalid_domain_handling_witness :
  (0 <? 1) = true
  /\ pwl_search 1 SoftSign Function_SoftSign 1 0 0x1p-8 0 = Some (Returned ([], 0))
  /\ is_nan nan = true
  /\ pwl_search 2 SoftSign Function_SoftSign nan 10 0x1p-8 0 = Some (Thrown OutOfRange).
Proof.
  pose proof (invalid_domain_handling 0 SoftSign Function_SoftSign 1 0 0x1p-8 0)
    as [H1 _].
  pose proof (invalid_domain_handling 0 SoftSign Function_SoftSign nan 10 0x1p-8 0)
    as [_ [_ [H2 _]]].
  split; [reflexivity|]. split; [apply H1; reflexivity|].
  split; [reflexivity|]. apply H2. left; reflexivity.
Defined.

(** C3 fails as it is stated: SoftSign on the inverted domain [[1, 0]]
    does not fail, the answer is the empty segment list; and on a domain
    with a NaN bound the failure is the out-of-range error of
    [pivot_search], a DomainError, not an InvalidDomain. *)
Lemma inverted_domain_returns_empty :
  (0 <? 1) = true
  /\ pwl_search 5 SoftSign Function_SoftSign 1 0 0x1p-8 0 = Some (Returned ([], 0))
  /\ transpose_to_pwl
       (mkHeader (fun _ => Function_SoftSign) (Function_Power example_header)
                 (fun _ => 1) (fun _ => 0) (lower_bound_Power example_header)
                 are_floats_equal_ulp)
       5 SoftSignNode 0x1p-8
     = Some (Returned None)
  /\ pwl_search 5 SoftSign Function_SoftSign nan 10 0x1p-8 0 = Some (Thrown OutOfRange)
  /\ kind_of OutOfRange <> InvalidDomain.
Proof.
  split; [reflexivity|]. split; [reflexivity|]. split; [reflexivity|].
  split; [reflexivity|discriminate].
Qed.

(** ** C4: errors that are not finite *)

(** C4, as the code has it. [pivot_search] fails with the out-of-range
    error, of the kind DomainError, exactly when one of the signed errors
    [epsilon[i]], [i <= N], evaluated in some turn that the search reaches
    is a NaN.  The test is [std::isnan]: an infinite error does not raise
    it. *)
Theorem out_of_range_exactly_NaN (fuel : nat) (T : Activation) (F : Function)
    (result : list Pwl) (N : nat) (a0 aN : float) (neg : bool) (me thr : float) :
  (pivot_search fuel T F result N a0 aN neg me thr = Some (Thrown OutOfRange) <->
   exists k st i,
     (k < fuel)%nat
     /\ pivot_run T F N a0 aN neg thr k (pivot_init N a0 aN) = Some st
     /\ (i <= N)%nat
     /\ is_nan (epsilon_value F N a0 aN neg st i) = true)
  /\ kind_of OutOfRange = DomainError.
Proof.
  split; [|reflexivity]. unfold pivot_search. rewrite loop_run. split.
  - intros [k [st [Hk [Hr Hb]]]].
    pose proof (run_rows T F N a0 aN neg thr k _ _ (init_rows N a0 aN) Hr) as Hrows.
    destruct (body_cases T F N a0 aN neg thr st)
      as [[e [E Hb']]|[eps [E [[_ Hb']|[[_ [_ Hb']]|[_ [_ [st1 [Hb' _]]]]]]]]];
      try congruence.
    destruct (box3_Thrown_NaN F N a0 aN neg st e Hrows E) as [i [Hi Hn]].
    exists k, st, i. auto.
  - intros [k [st [i [Hk [Hr [Hi Hn]]]]]].
    pose proof (run_rows T F N a0 aN neg thr k _ _ (init_rows N a0 aN) Hr) as Hrows.
    exists k, st. split; [exact Hk|]. split; [exact Hr|].
    destruct (body_cases T F N a0 aN neg thr st) as [[e [E Hb]]|[eps [E _]]].
    + rewrite Hb. rewrite (box3_Thrown F N a0 aN neg st e Hrows E). reflexivity.
    + exfalso. destruct (box3_Returned F N a0 aN neg st Hrows) as [Hfw _].
      assert (Hex : exists eps0,
                 box3 F N neg (v_t st) (box2 F N a0 aN (v_t st) (v_alpha st) (v_j st))
                      (v_j st) (v_epsilon st) = Returned eps0)
        by (exists eps; exact E).
      specialize (Hfw Hex i Hi). congruence.
Qed.

(** C4 fails as it is stated: for Power with exponent 4 on
    [[0, 0x1.fp255]], with one segment, the error [epsilon[0]] of the
    second turn is [+infinity]; no error is raised, the search goes back
    one step, halves the step size and returns its segments at the next
    turn. *)
Lemma infinite_epsilon_not_raised :
  exists st pwl epsilon_final err_pct,
    pivot_run Power (Function_Power_nat 4 1 0) 1 0 0x1.fp255 true default_threshold
              1 (pivot_init 1 0 0x1.fp255) = Some st
    /\ epsilon_value (Function_Power_nat 4 1 0) 1 0 0x1.fp255 true st 0 = infinity
    /\ pivot_search 10 Power (Function_Power_nat 4 1 0) [] 1 0 0x1.fp255 true 0
                    default_threshold = Some (Returned (pwl, epsilon_final))
    /\ pwl_search 10 Power (Function_Power_nat 4 1 0) 0 0x1.fp255 0x1p1023 0
       = Some (Returned (pwl, err_pct)).
Proof.
  eexists. eexists. eexists. eexists.
  split; [vm_compute; reflexivity|].
  split; [vm_compute; reflexivity|].
  split; [vm_compute; reflexivity|].
  vm_compute. reflexivity.
Qed.

(** The theorem at SoftSign with a NaN lower bound: the first error of
    the first turn is a NaN. *)
Lemma out_of_range_exactly_NaN_witness :
  pivot_search 1 SoftSign Function_SoftSign [] 1 nan 10 false 0x1p-8 default_threshold
  = Some (Thrown OutOfRange).
Proof.
  apply (proj1 (out_of_range_exactly_NaN 1 SoftSign Function_SoftSign [] 1 nan 10
                  false 0x1p-8 default_threshold)).
  exists 0%nat, (pivot_init 1 nan 10), 0%nat.
  split; [lia|]. split; [reflexivity|]. split; [lia|]. reflexivity.
Defined.

(** ** C2: the two caps *)

Lemma pwl_search_unsplit (fuel : nat) (T : Activation) (F : Function)
    (L U allowed e : float) :
  split_search T L U = false ->
  pwl_search (S fuel) T F L U allowed e =
  if U <? L then Some (Returned ([], e)) else segment_search fuel T F L U allowed [].
Proof. intros Hs. simpl. rewrite Hs. reflexivity. Qed.

(** C2, as the code has it. [pivot_search] fails with its
    not-converged error exactly when it reaches a turn with
    [j == max_iterations] in which no error is a NaN, whatever the spread
    test says there; the search by segment count fails with its
    not-converged error exactly when its [while] ends with
    [segments_number] at [max_segments_number], whatever the sampled
    error is.  The caps are 2000 turns (5000 for Log) and 128 segments. *)
Theorem not_converged_exactly (fuel : nat) (T : Activation) (F : Function)
    (result : list Pwl) (N : nat) (a0 aN : float) (neg : bool) (me thr : float)
    (L U allowed : float) (pwl0 : list Pwl) :
  (pivot_search fuel T F result N a0 aN neg me thr = Some (Thrown PivotNotConverged) <->
   exists k st,
     (k < fuel)%nat
     /\ pivot_run T F N a0 aN neg thr k (pivot_init N a0 aN) = Some st
     /\ v_j st = max_iterations T
     /\ forall i, (i <= N)%nat -> is_nan (epsilon_value F N a0 aN neg st i) = false)
  /\ (segment_search fuel T F L U allowed pwl0 = Some (Thrown PwlNotConverged) <->
      exists pwl err_pct,
        search_segments fuel T F L U allowed pwl0
        = Some (Returned (max_segments_number T, pwl, err_pct)))
  /\ kind_of PivotNotConverged = NotConverged
  /\ kind_of PwlNotConverged = NotConverged
  /\ max_iterations T = (match T with Log => 5000 | _ => 2000 end)%nat
  /\ max_segments_number T = 128%nat.
Proof.
  split; [|split; [|repeat split; reflexivity]].
  - unfold pivot_search. rewrite loop_run. split.
    + intros [k [st [Hk [Hr Hb]]]].
      pose proof (run_rows T F N a0 aN neg thr k _ _ (init_rows N a0 aN) Hr) as Hrows.
      exists k, st. split; [exact Hk|]. split; [exact Hr|].
      destruct (body_cases T F N a0 aN neg thr st)
        as [[e [E Hb']]|[eps [E [[Hj Hb']|[[_ [_ Hb']]|[_ [_ [st1 [Hb' _]]]]]]]]];
        try congruence.
      * apply (box3_Thrown F N a0 aN neg st e Hrows) in E. congruence.
      * split; [exact Hj|].
        apply (box3_Returned F N a0 aN neg st Hrows). exists eps; exact E.
    + intros [k [st [Hk [Hr [Hj Hn]]]]].
      pose proof (run_rows T F N a0 aN neg thr k _ _ (init_rows N a0 aN) Hr) as Hrows.
      exists k, st. split; [exact Hk|]. split; [exact Hr|].
      apply (box3_Returned F N a0 aN neg st Hrows) in Hn. destruct Hn as [eps0 E0].
      destruct (body_cases T F N a0 aN neg thr st)
        as [[e [E Hb']]|[eps [E [[_ Hb']|[[Hj' _]|[Hj' _]]]]]];
        try congruence.
  - unfold segment_search. split.
    + destruct (search_segments fuel T F L U allowed pwl0)
        as [[[[n p] e]|e]|] eqn:E; try discriminate.
      * destruct (Nat.leb_spec (max_segments_number T) n) as [Hle|Hlt]; [|discriminate].
        intros _. apply search_segments_exit in E as Hx.
        assert (n = max_segments_number T) by lia. subst n. exists p, e. reflexivity.
      * intros [= ->]. apply search_segments_Thrown in E. destruct E; discriminate.
    + intros [p [e E]]. rewrite E. rewrite Nat.leb_refl. reflexivity.
Qed.


(** The run behind the next lemma, on two columns: the search by segment
    count for Power with exponent 2 on [[0, 1]] ends with 128 segments and
    a sampled error within the budget. *)
Lemma square_search_ends_at_cap :
  match search_segments_columns 3000 Power (Function_Power_nat 2 1 0) 0 1
                                square_budget [] with
  | Some (Returned (n, _, err_pct)) =>
      (n =? 128)%nat && (err_pct <=? square_budget) && negb (square_budget <? err_pct)
  | _ => false
  end = true.
Proof. vm_cast_no_check (eq_refl true). Qed.

(** C2 fails as it is stated: for Power with exponent 2 on [[0, 1]] under
    the error budget [0x1.24p-17] the search reaches 128 segments, whose
    sampled error is within the budget, and fails with the not-converged
    error all the same. *)
Lemma cap_reached_within_budget_fails :
  exists pwl err_pct,
    search_segments 3000 Power (Function_Power_nat 2 1 0) 0 1 square_budget []
    = Some (Returned (max_segments_number Power, pwl, err_pct))
    /\ (err_pct <=? square_budget) = true
    /\ (max_error Power (Function_Power_nat 2 1 0) square_budget <? err_pct) = false
    /\ pwl_search 3001 Power (Function_Power_nat 2 1 0) 0 1 square_budget 0
       = Some (Thrown PwlNotConverged).
Proof.
  pose proof square_search_ends_at_cap as H.
  rewrite search_segments_columns_eq in H.
  destruct (search_segments 3000 Power (Function_Power_nat 2 1 0) 0 1 square_budget [])
    as [[[[n pwl] e]|err]|] eqn:E; [|discriminate H|discriminate H].
  apply andb_true_iff in H. destruct H as [H H3].
  apply andb_true_iff in H. destruct H as [H1 H2].
  apply Nat.eqb_eq in H1. subst n. apply negb_true_iff in H3.
  exists pwl, e. split; [reflexivity|]. split; [exact H2|]. split; [exact H3|].
  rewrite pwl_search_unsplit by reflexivity.
  replace (1 <? 0) with false by reflexivity.
  unfold segment_search. rewrite E. reflexivity.
Qed.

(** ** C10: the inputs the error metric samples *)

Lemma pwl_outputs_at (segments : list Pwl) (L delta : float) (samples i : nat) :
  (i < samples)%nat ->
  at1 (pwl_outputs segments (sample_inputs L delta samples)) i
  = pwl_value segments (L + of_nat i * delta).
Proof.
  intros H. unfold at1, pwl_outputs, reference_pwl, sample_inputs.
  rewrite map_map. rewrite (nth_map_lt _ _ _ 0%nat) by (rewrite length_seq; exact H).
  rewrite seq_nth by exact H. reflexivity.
Qed.

(** What [calculate_error_pct] reads: the function at the lower bound
    and at the samples, and the PWL at the samples. *)
Lemma calculate_error_pct_reads (F F' : Function) (segments segments' : list Pwl)
    (L U offset offset' : float) (neg : bool) (samples : nat) :
  (1 <= samples)%nat ->
  let delta := (U - L) / of_nat (samples + 1) in
  get_value F' L = get_value F L ->
  (forall i, (i < samples)%nat ->
     get_value F' (L + of_nat i * delta) = get_value F (L + of_nat i * delta)
     /\ pwl_value segments' (L + of_nat i * delta)
        = pwl_value segments (L + of_nat i * delta)) ->
  calculate_error_pct F' segments' L U offset' neg samples
  = calculate_error_pct F segments L U offset neg samples.
Proof.
  intros Hs delta HL H. unfold calculate_error_pct. fold delta.
  destruct (delta <? 0); [reflexivity|].
  change (reference_pwl (sample_inputs L delta samples)
            (map m (firstn (List.length segments' - 1) segments'))
            (map b (firstn (List.length segments' - 1) segments'))
            (map alpha segments'))
    with (pwl_outputs segments' (sample_inputs L delta samples)).
  change (reference_pwl (sample_inputs L delta samples)
            (map m (firstn (List.length segments - 1) segments))
            (map b (firstn (List.length segments - 1) segments))
            (map alpha segments))
    with (pwl_outputs segments (sample_inputs L delta samples)).
  rewrite HL, !(pwl_outputs_at _ _ _ samples 0) by lia.
  assert (H0 : pwl_value segments' (L + of_nat 0 * delta)
               = pwl_value segments (L + of_nat 0 * delta)) by (apply H; lia).
  rewrite H0. apply fold_left_ext_in. intros a i Hi. apply in_seq in Hi.
  rewrite !pwl_outputs_at by lia.
  destruct (H i ltac:(lia)) as [E1 E2]. rewrite E1, E2. reflexivity.
Qed.

Lemma well_separated_lt (L U : float) : well_separated L U = true -> (L <? U) = true.
Proof.
  intros Hw. unfold well_separated in Hw.
  destruct (scaled (Prim2SF L)) as [l|] eqn:El; [|discriminate].
  destruct (scaled (Prim2SF U)) as [u|] eqn:Eu; [|discriminate].
  apply andb_true_iff in Hw. destruct Hw as [Hw _].
  apply andb_true_iff in Hw. destruct Hw as [_ W2]. apply Z.leb_le in W2.
  destruct (scaled_B2R _ _ El) as [Fl Vl]. destruct (scaled_B2R _ _ Eu) as [Fu Vu].
  rewrite FloatAxioms.ltb_spec.
  apply B2R_lt_SFltb; try apply Prim2SF_valid; try assumption.
  rewrite Vl, Vu. apply Rmult_lt_compat_r; [apply bpow_pos|].
  apply IZR_lt. lia.
Qed.

(** The sub-domains of the scenarios of the specification have bounds
    that are well apart. *)
Lemma scenario_domains_well_separated :
  forallb (fun d => well_separated (fst d) (snd d)) scenario_domains = true.
Proof. vm_compute. reflexivity. Qed.

(** C10, as the code has it. The error metric samples the 500 inputs
    [lower_bound + i * delta], [0 <= i < 500], with
    [delta = (upper_bound - lower_bound) / 501] in double arithmetic, and
    its answer depends on the activation function and on the segments
    only through the value of the function at the lower bound and the
    values of the function and of the PWL at these inputs.  When the
    bounds are well apart (finite, at most [2^1020] in magnitude, and
    [upper_bound - lower_bound] at least [2^-1050] and at least [2^-43]
    times the larger magnitude), every sample is strictly below the upper
    bound, and the answer is the same for every function and every PWL
    that take the same values strictly below the upper bound: it does not
    account for the values at the upper domain edge. *)
Theorem error_metric_samples (F : Function) (segments : list Pwl)
    (L U offset : float) (neg : bool) :
  let delta := (U - L) / of_nat (default_samples + 1) in
  let x := fun i : nat => L + of_nat i * delta in
  (forall y, In y (sample_inputs L delta default_samples)
             <-> exists i, (i < 500)%nat /\ y = x i)
  /\ (forall F' segments' offset',
        get_value F' L = get_value F L ->
        (forall i, (i < 500)%nat ->
           get_value F' (x i) = get_value F (x i)
           /\ pwl_value segments' (x i) = pwl_value segments (x i)) ->
        calculate_error_pct F' segments' L U offset' neg default_samples
        = calculate_error_pct F segments L U offset neg default_samples)
  /\ (well_separated L U = true ->
      (forall i, (i < 500)%nat -> (x i <? U) = true)
      /\ (forall F' segments' offset',
            (forall y, (y <? U) = true ->
               get_value F' y = get_value F y
               /\ pwl_value segments' y = pwl_value segments y) ->
            calculate_error_pct F' segments' L U offset' neg default_samples
            = calculate_error_pct F segments L U offset neg default_samples)).
Proof.
  intros delta x.
  assert (R : forall F' segments' offset',
            get_value F' L = get_value F L ->
            (forall i, (i < 500)%nat ->
               get_value F' (x i) = get_value F (x i)
               /\ pwl_value segments' (x i) = pwl_value segments (x i)) ->
            calculate_error_pct F' segments' L U offset' neg default_samples
            = calculate_error_pct F segments L U offset neg default_samples).
  { intros F' segments' offset' HL H.
    apply calculate_error_pct_reads; [unfold default_samples; lia|exact HL|exact H]. }
  split; [|split; [exact R|]].
  - intros y. unfold sample_inputs. rewrite in_map_iff. split.
    + intros [i [Hy Hi]]. apply in_seq in Hi. exists i. split; [|symmetry; exact Hy].
      unfold default_samples in Hi. lia.
    + intros [i [Hi ->]]. exists i. split; [reflexivity|]. apply in_seq.
      unfold default_samples. lia.
  - intros Hw.
    assert (B : forall i, (i < 500)%nat -> (x i <? U) = true).
    { intros i Hi. exact (samples_below_upper_bound L U i Hw Hi). }
    split; [exact B|].
    intros F' segments' offset' H. apply R.
    + apply H. apply well_separated_lt. exact Hw.
    + intros i Hi. apply H. apply B. exact Hi.
Qed.

(** The theorem at the domain [[0, 10]]. *)
Lemma error_metric_samples_witness :
  well_separated 0 10 = true
  /\ forall i, (i < 500)%nat ->
       (0 + of_nat i * ((10 - 0) / of_nat (default_samples + 1)) <? 10) = true.
Proof.
  assert (H : well_separated 0 10 = true) by (vm_compute; reflexivity).
  split; [exact H|].
  exact (proj1 (proj2 (proj2 (error_metric_samples Function_SoftSign
                                 softsign_right_segments 0 10 0 false)) H)).
Defined.

(** C10 fails as it is stated: on the domain [[3, 3 + 2^-51]]
    [lower_bound < upper_bound], [pwl_search] returns for SoftSign, with
    the error that the metric samples, and yet the last sample,
    [3 + 499 * delta], rounds to the upper bound; the metric does evaluate
    the PWL at the upper edge: for a PWL with the same values strictly
    below the upper bound and another value there, its answer is another,
    0.75. *)
Lemma last_sample_reaches_upper_bound :
  (3 <? softsign_edge_upper) = true
  /\ well_separated 3 softsign_edge_upper = false
  /\ pwl_search 30 SoftSign Function_SoftSign 3 softsign_edge_upper 0x1p-5 0
     = Some (Returned (softsign_edge_segments, softsign_edge_err_pct))
  /\ softsign_edge_err_pct
     = calculate_error_pct Function_SoftSign softsign_edge_segments 3 softsign_edge_upper
                           0 false default_samples
  /\ nth 499
       (sample_inputs 3 ((softsign_edge_upper - 3) / of_nat (default_samples + 1))
                      default_samples) 0
     = softsign_edge_upper
  /\ (forall y, (y <? softsign_edge_upper) = true ->
        pwl_value softsign_edge_segments_beyond y = pwl_value softsign_edge_segments y)
  /\ calculate_error_pct Function_SoftSign softsign_edge_segments_beyond 3
                         softsign_edge_upper 0 false default_samples
     = 0.75
  /\ (softsign_edge_err_pct <? 0.75) = true.
Proof.
  split; [reflexivity|]. split; [vm_compute; reflexivity|].
  split; [vm_compute; reflexivity|]. split; [vm_compute; reflexivity|].
  split; [vm_compute; reflexivity|].
  split; [|split; vm_compute; reflexivity].
  intros y Hy. unfold pwl_value, softsign_edge_segments_beyond, softsign_edge_segments.
  cbn [List.length Nat.sub map alpha tl removelast firstn m b range_search].
  rewrite (ltb_leb _ _ Hy). reflexivity.
Qed.

(** * Further properties of the search *)

(** ** The shape of the segment lists *)

(** The segments of a completed turn: [N] of them and the sentinel at
    [alpha_N]. *)
Lemma emit_closed F N neg t al j ef :
  closed_by N (at2 al N j) (emit F N neg t al j ef).
Proof.
  unfold emit, closed_by. split.
  - rewrite length_app, length_map, length_seq. reflexivity.
  - eexists. reflexivity.
Qed.

Lemma body_Returned_closed T F N a0 aN neg thr st r e :
  rows_ok N st ->
  pivot_body T F N a0 aN neg thr st = inl (Returned (r, e)) ->
  closed_by N aN r.
Proof.
  intros [Ha He] H.
  destruct (body_cases T F N a0 aN neg thr st)
    as [[e' [_ Hb]]|[eps [E [[_ Hb]|[[_ [_ Hb]]|[_ [_ [st1 [Hb _]]]]]]]]];
    try congruence.
  rewrite Hb in H. injection H as <- _.
  rewrite <- (box2_last F N a0 aN (v_t st) (v_alpha st) (v_j st) Ha) at 1.
  apply emit_closed.
Qed.

Lemma pivot_search_closed fuel T F result N a0 aN neg me thr r e :
  pivot_search fuel T F result N a0 aN neg me thr = Some (Returned (r, e)) ->
  closed_by N aN r.
Proof.
  unfold pivot_search. intros H. apply loop_run in H.
  destruct H as [k [st' [_ [Hr Hb]]]].
  eapply body_Returned_closed; [|exact Hb].
  eapply run_rows; [|exact Hr]. apply init_rows.
Qed.

(** [pivot_search] reads neither [result] nor [max_error]. *)
Lemma pivot_search_result fuel T F result result' N a0 aN neg me me' thr :
  pivot_search fuel T F result N a0 aN neg me thr
  = pivot_search fuel T F result' N a0 aN neg me' thr.
Proof. reflexivity. Qed.

Lemma grow_closed T F L U allowed neg fuel gas n pwl e n' pwl' e' :
  closed_by n U pwl ->
  grow fuel gas T F L U allowed neg n pwl e = Some (Returned (n', pwl', e')) ->
  closed_by n' U pwl'.
Proof.
  revert n pwl e. induction gas as [|gas IH]; intros n pwl e Hb; simpl.
  - destruct (_ && _); [discriminate|]. intros [= <- <- _]. exact Hb.
  - destruct (_ && _); [|intros [= <- <- _]; exact Hb].
    destruct (pivot_search fuel T F pwl (S n) L U neg _ default_threshold)
      as [[[p1 e1]|e1]|] eqn:E; try discriminate.
    apply IH. eapply pivot_search_closed; exact E.
Qed.

Lemma search_segments_closed fuel T F L U allowed pwl n pwl' e' :
  search_segments fuel T F L U allowed pwl = Some (Returned (n, pwl', e')) ->
  closed_by n U pwl'.
Proof.
  unfold search_segments.
  destruct (pivot_search fuel T F pwl 1 L U _ _ default_threshold)
    as [[[p1 e1]|e1]|] eqn:E; try discriminate.
  apply grow_closed. eapply pivot_search_closed; exact E.
Qed.

(** What [segment_search] returns: the segments of a count below the cap,
    closed by the sentinel, with a sampled error that does not exceed the
    budget. *)
Lemma segment_search_Returned fuel T F L U allowed pwl pwl' e' :
  segment_search fuel T F L U allowed pwl = Some (Returned (pwl', e')) ->
  exists n,
    (1 <= n < max_segments_number T)%nat
    /\ search_segments fuel T F L U allowed pwl = Some (Returned (n, pwl', e'))
    /\ closed_by n U pwl'
    /\ (max_error T F allowed <? e') = false.
Proof.
  unfold segment_search.
  destruct (search_segments fuel T F L U allowed pwl) as [[[[n p1] e1]|e1]|] eqn:E;
    try discriminate.
  destruct (Nat.leb_spec (max_segments_number T) n) as [Hle|Hlt]; [discriminate|].
  intros [= <- <-]. exists n.
  pose proof (search_segments_exit _ _ _ _ _ _ _ _ _ _ E) as [Hn Hx].
  pose proof (search_segments_closed _ _ _ _ _ _ _ _ _ _ E) as Hc.
  split; [lia|]. split; [reflexivity|]. split; [exact Hc|].
  destruct Hx as [Hx|Hx]; [lia|exact Hx].
Qed.

(** ** The two halves of a split domain *)

Lemma ltb_irrefl (x : float) : (x <? x) = false.
Proof.
  destruct (x <? x) eqn:E; [|reflexivity].
  pose proof (ltb_asym _ _ E). congruence.
Qed.

(** The two halves of a split domain are not split again, and are not
    inverted. *)
Lemma split_halves T L U :
  split_search T L U = true ->
  split_search T L (get_break_bound T) = false
  /\ split_search T (get_break_bound T) U = false
  /\ (get_break_bound T <? L) = false
  /\ (U <? get_break_bound T) = false.
Proof.
  intros Hs. destruct (split_search_bounds _ _ _ Hs) as [Hl Hu].
  pose proof (ltb_asym _ _ Hl) as Hl'. pose proof (ltb_asym _ _ Hu) as Hu'.
  repeat split; try assumption.
  - unfold split_search. rewrite Hl'.
    destruct T; try reflexivity; rewrite ltb_irrefl; apply andb_false_r.
  - unfold split_search. rewrite Hu'.
    destruct T; try reflexivity; rewrite ltb_irrefl; reflexivity.
Qed.

(** A search without split is the search by segment count. *)
Lemma pwl_search_unsplit_inv fuel T F L U allowed e r :
  (U <? L) = false -> split_search T L U = false ->
  pwl_search fuel T F L U allowed e = Some r ->
  exists fuel', fuel = S fuel' /\ segment_search fuel' T F L U allowed [] = Some r.
Proof.
  intros Hlu Hs. destruct fuel as [|fuel]; simpl; [discriminate|].
  rewrite Hlu, Hs. intros H. exists fuel. split; [reflexivity|exact H].
Qed.

(** A split search that returns: both halves were searched without split
    and returned, and the answer is their merge. *)
Lemma pwl_search_split_inv fuel T F L U allowed e pwl e' :
  split_search T L U = true ->
  pwl_search fuel T F L U allowed e = Some (Returned (pwl, e')) ->
  exists fuel' p1 e1 p2 e2,
    segment_search fuel' T F L (get_break_bound T) allowed [] = Some (Returned (p1, e1))
    /\ segment_search fuel' T F (get_break_bound T) U allowed [] = Some (Returned (p2, e2))
    /\ pwl = merge (negative_pwl p1) (right_half T p2)
    /\ e' = (e1 + e2) / 2.
Proof.
  intros Hs. destruct (split_halves _ _ _ Hs) as [H1 [H2 [H3 H4]]].
  destruct fuel as [|fuel]; simpl; [discriminate|].
  assert (Hlu : (U <? L) = false).
  { unfold split_search in Hs. destruct (U <? L); [discriminate|reflexivity]. }
  rewrite Hlu, Hs.
  destruct (pwl_search fuel T F L (get_break_bound T) allowed 0)
    as [[[p1 e1]|e1]|] eqn:E1; try discriminate.
  destruct (pwl_search fuel T F (get_break_bound T) U allowed 0)
    as [[[p2 e2]|e2]|] eqn:E2; try discriminate.
  intros [= <- <-].
  apply pwl_search_unsplit_inv in E1; [|assumption|assumption].
  apply pwl_search_unsplit_inv in E2; [|assumption|assumption].
  destruct E1 as [f1 [-> E1]]. destruct E2 as [f2 [Ef E2]]. injection Ef as <-.
  exists f1, p1, e1, p2, e2.
  split; [exact E1|]. split; [exact E2|]. split; reflexivity.
Qed.

(** A split search that throws: one of the halves, searched without
    split, threw. *)
Lemma pwl_search_split_Thrown fuel T F L U allowed e err :
  split_search T L U = true ->
  pwl_search fuel T F L U allowed e = Some (Thrown err) ->
  exists fuel' A B,
    segment_search fuel' T F A B allowed [] = Some (Thrown err).
Proof.
  intros Hs. destruct (split_halves _ _ _ Hs) as [H1 [H2 [H3 H4]]].
  destruct fuel as [|fuel]; simpl; [discriminate|].
  assert (Hlu : (U <? L) = false).
  { unfold split_search in Hs. destruct (U <? L); [discriminate|reflexivity]. }
  rewrite Hlu, Hs.
  destruct (pwl_search fuel T F L (get_break_bound T) allowed 0)
    as [[[p1 e1]|e1]|] eqn:E1; try discriminate.
  - destruct (pwl_search fuel T F (get_break_bound T) U allowed 0)
      as [[[p2 e2]|e2]|] eqn:E2; try discriminate.
    intros [= <-].
    apply pwl_search_unsplit_inv in E2; [|assumption|assumption].
    destruct E2 as [f2 [_ E2]]. eauto.
  - intros [= <-].
    apply pwl_search_unsplit_inv in E1; [|assumption|assumption].
    destruct E1 as [f1 [_ E1]]. eauto.
Qed.

(** ** What the search throws *)

Lemma segment_search_Thrown fuel T F L U allowed pwl err :
  segment_search fuel T F L U allowed pwl = Some (Thrown err) ->
  err = OutOfRange \/ err = PivotNotConverged \/ err = PwlNotConverged.
Proof.
  unfold segment_search.
  destruct (search_segments fuel T F L U allowed pwl) as [[[[n p1] e1]|e1]|] eqn:E;
    try discriminate.
  - destruct (_ <=? _)%nat; [|discriminate]. intros [= <-]. tauto.
  - intros [= <-]. apply search_segments_Thrown in E. tauto.
Qed.

Lemma pwl_search_Thrown fuel T F L U allowed e err :
  pwl_search fuel T F L U allowed e = Some (Thrown err) ->
  (U <? L) = false
  /\ (err = OutOfRange \/ err = PivotNotConverged \/ err = PwlNotConverged).
Proof.
  intros H.
  assert (Hlu : (U <? L) = false).
  { destruct fuel; simpl in H; [discriminate|].
    destruct (U <? L); [discriminate|reflexivity]. }
  split; [exact Hlu|].
  destruct (split_search T L U) eqn:Es.
  - destruct (pwl_search_split_Thrown _ _ _ _ _ _ _ _ Es H) as [f [A [B Hx]]].
    eapply segment_search_Thrown; exact Hx.
  - destruct (pwl_search_unsplit_inv _ _ _ _ _ _ _ _ Hlu Es H) as [f [_ Hx]].
    eapply segment_search_Thrown; exact Hx.
Qed.

(** ** Lengths and sentinels through the merge *)

Lemma closed_by_negative n U pwl :
  closed_by n U pwl ->
  List.length (negative_pwl pwl) = (n + 1)%nat
  /\ exists init, negative_pwl pwl = init ++ [mkPwl (- 0) (- 0) U].
Proof.
  intros [Hl [init ->]]. unfold negative_pwl. split.
  - rewrite length_map. exact Hl.
  - rewrite map_app. simpl. eexists. reflexivity.
Qed.

Lemma merge_length pwl pwl2 :
  (1 <= List.length pwl)%nat ->
  List.length (merge pwl pwl2) = (List.length pwl - 1 + List.length pwl2)%nat.
Proof.
  intros H. unfold merge. destruct pwl as [|p pwl]; [simpl in H; lia|].
  rewrite length_app, removelast_firstn_len, length_firstn. simpl. lia.
Qed.

Lemma right_half_length T pwl2 : List.length (right_half T pwl2) = List.length pwl2.
Proof. unfold right_half, negative_pwl. destruct T; try rewrite length_map; reflexivity. Qed.

Lemma right_half_closed T n U pwl2 :
  closed_by n U pwl2 ->
  exists init,
    right_half T pwl2
    = init ++ [let z := match T with Exp | Power => - 0 | _ => 0 end in mkPwl z z U].
Proof.
  intros Hc. unfold right_half.
  destruct T; try (destruct Hc as [_ Hc]; exact Hc);
    apply closed_by_negative in Hc; destruct Hc as [_ Hc]; exact Hc.
Qed.

(** ** The searches of the examples *)

Lemma softsign_search :
  pwl_search 60 SoftSign Function_SoftSign (-10) 10 0x1p-5 0
  = Some (Returned (softsign_segments, softsign_err_pct)).
Proof. vm_compute. reflexivity. Qed.

Lemma softsign_right_search :
  pwl_search 60 SoftSign Function_SoftSign 0 10 0x1p-5 0
  = Some (Returned (softsign_right_segments, softsign_right_err_pct)).
Proof. vm_compute. reflexivity. Qed.

Lemma softsign_node_transposed :
  transpose_to_pwl example_header 60 SoftSignNode 0x1p-5
  = Some (Returned (Some softsign_pwl_op)).
Proof. vm_compute. reflexivity. Qed.

Lemma shifted_cube_search :
  pwl_search 30 Power (Function_Power_nat 3 1 (-10.125)) (-16) 16 600 0
  = Some (Returned (shifted_cube_segments, shifted_cube_err_pct)).
Proof. vm_compute. reflexivity. Qed.

(** ** The number of segments and the sentinel *)

(** X1. Every segment list that [pwl_search] returns on a domain that
    is not inverted has, the sentinel counted, from 2 to
    [max_segments_number] entries when the domain is not split and from 3
    to [2 * max_segments_number - 1] entries when it is; and a list that
    [pivot_search] returns for [N] segments has [N + 1] entries. *)
Theorem segment_count_bounds (fuel : nat) (T : Activation) (F : Function)
    (L U allowed err_pct : float) (pwl : list Pwl) (err_pct' : float) :
  (U <? L) = false ->
  pwl_search fuel T F L U allowed err_pct = Some (Returned (pwl, err_pct')) ->
  (if split_search T L U
   then (3 <= List.length pwl <= 2 * max_segments_number T - 1)%nat
   else (2 <= List.length pwl <= max_segments_number T)%nat)
  /\ (forall result N neg me thr r e,
        (1 <= N)%nat ->
        pivot_search fuel T F result N L U neg me thr = Some (Returned (r, e)) ->
        List.length r = (N + 1)%nat).
Proof.
  intros Hlu H. split.
  - destruct (split_search T L U) eqn:Es.
    + destruct (pwl_search_split_inv _ _ _ _ _ _ _ _ _ Es H)
        as [f [p1 [e1 [p2 [e2 [H1 [H2 [-> _]]]]]]]].
      apply segment_search_Returned in H1. apply segment_search_Returned in H2.
      destruct H1 as [n1 [Hn1 [_ [[Hl1 _] _]]]].
      destruct H2 as [n2 [Hn2 [_ [[Hl2 _] _]]]].
      rewrite merge_length; unfold negative_pwl; rewrite length_map;
        [|lia]. rewrite right_half_length. lia.
    + destruct (pwl_search_unsplit_inv _ _ _ _ _ _ _ _ Hlu Es H) as [f [_ Hx]].
      apply segment_search_Returned in Hx.
      destruct Hx as [n [Hn [_ [[Hl _] _]]]]. lia.
  - intros result N neg me thr r e _ Hr.
    apply pivot_search_closed in Hr. destruct Hr as [Hr _]. exact Hr.
Qed.

(** The theorem at SoftSign on [[-10, 10]], split, and on [[0, 10]]. *)
Lemma segment_count_bounds_witness :
  (3 <= List.length softsign_segments <= 2 * max_segments_number SoftSign - 1)%nat
  /\ (2 <= List.length softsign_right_segments <= max_segments_number SoftSign)%nat.
Proof.
  split.
  - exact (proj1 (segment_count_bounds 60 SoftSign Function_SoftSign (-10) 10 0x1p-5 0
                    softsign_segments softsign_err_pct eq_refl softsign_search)).
  - exact (proj1 (segment_count_bounds 60 SoftSign Function_SoftSign 0 10 0x1p-5 0
                    softsign_right_segments softsign_right_err_pct eq_refl
                    softsign_right_search)).
Defined.

(** X2. The last entry of a segment list that [pwl_search] returns on
    a domain that is not inverted is the sentinel: its alpha is the upper
    bound and its m and b are the same zero, [+0] in general and [-0] for
    Exp and Power on a split domain, where the right half is negated. *)
Theorem last_segment_is_sentinel (fuel : nat) (T : Activation) (F : Function)
    (L U allowed err_pct : float) (pwl : list Pwl) (err_pct' : float) :
  (U <? L) = false ->
  pwl_search fuel T F L U allowed err_pct = Some (Returned (pwl, err_pct')) ->
  (exists init,
      pwl = init ++ [mkPwl (sentinel_zero T L U) (sentinel_zero T L U) U])
  /\ (sentinel_zero T L U =? 0) = true.
Proof.
  intros Hlu H. split.
  - unfold sentinel_zero. destruct (split_search T L U) eqn:Es.
    + destruct (pwl_search_split_inv _ _ _ _ _ _ _ _ _ Es H)
        as [f [p1 [e1 [p2 [e2 [H1 [H2 [-> _]]]]]]]].
      apply segment_search_Returned in H2.
      destruct H2 as [n2 [_ [_ [Hc _]]]].
      destruct (right_half_closed T _ _ _ Hc) as [init Hi]. rewrite Hi.
      unfold merge. eexists. rewrite app_assoc. reflexivity.
    + destruct (pwl_search_unsplit_inv _ _ _ _ _ _ _ _ Hlu Es H) as [f [_ Hx]].
      apply segment_search_Returned in Hx.
      destruct Hx as [n [_ [_ [[_ Hc] _]]]]. exact Hc.
  - unfold sentinel_zero. destruct (split_search T L U); [|reflexivity].
    destruct T; reflexivity.
Qed.

(** The theorem at SoftSign on [[-10, 10]] and at Power with exponent 3
    on [[-16, 16]], whose right half is negated. *)
Lemma last_segment_is_sentinel_witness :
  (exists init, softsign_segments = init ++ [mkPwl 0 0 10])
  /\ (exists init, shifted_cube_segments = init ++ [mkPwl (-0) (-0) 16]).
Proof.
  split.
  - exact (proj1 (last_segment_is_sentinel 60 SoftSign Function_SoftSign (-10) 10 0x1p-5 0
                    softsign_segments softsign_err_pct eq_refl softsign_search)).
  - exact (proj1 (last_segment_is_sentinel 30 Power (Function_Power_nat 3 1 (-10.125))
                    (-16) 16 600 0 shifted_cube_segments shifted_cube_err_pct
                    eq_refl shifted_cube_search)).
Defined.

(** ** The entry by node *)

Lemma brackets_length L U pwl : brackets L U pwl -> (2 <= List.length pwl)%nat.
Proof.
  intros [first [mid [last [-> _]]]]. simpl. rewrite length_app. simpl. lia.
Qed.

(** The segments that the entry by node returns, on bounds that are not
    inverted: at least two. *)
Lemma pwl_search_node_length h fuel node allowed e segments e' :
  (snd (node_bounds h node) <? fst (node_bounds h node)) = false ->
  pwl_search_node h fuel node allowed e = Some (Returned (segments, e')) ->
  (2 <= List.length segments)%nat.
Proof.
  intros Hb H.
  destruct node; simpl in Hb, H;
    try (eapply brackets_length, pwl_search_brackets; [exact Hb|exact H]).
  unfold pwl_search_Power in H.
  destruct (get_exponent exponent_types constant 0) as [[[|] x]|] eqn:Eg;
    try discriminate.
  assert (Hx : get_vector constant = [x]).
  { unfold exponent_types in Eg. simpl in Eg. unfold get_exponent_as in Eg.
    destruct (get_vector constant) as [|y [|z v]];
      repeat (destruct (element.eqb _ _); try discriminate);
      injection Eg as <-; reflexivity. }
  rewrite Hx in Hb. simpl in Hb.
  destruct (are_floats_equal h x 1).
  - injection H as <- _. simpl. lia.
  - eapply brackets_length, pwl_search_brackets; [exact Hb|exact H].
Qed.

(** X7. On bounds that are not inverted [transpose_to_pwl] never
    answers [false]: when it returns, the node is replaced by a Pwl whose
    constants m and b have the same length, 1 at least, and whose constant
    alpha has one element more; for a node without exponent alpha starts
    at the lower bound and ends at the upper bound. *)
Theorem transpose_replaces_node (h : Header) (fuel : nat) (node : Node)
    (allowed : float) (r : option PwlOp) :
  (snd (node_bounds h node) <? fst (node_bounds h node)) = false ->
  transpose_to_pwl h fuel node allowed = Some (Returned r) ->
  exists op,
    r = Some op
    /\ (1 <= List.length (m_constant op))%nat
    /\ List.length (b_constant op) = List.length (m_constant op)
    /\ List.length (alpha_constant op) = S (List.length (m_constant op))
    /\ (forall T, generic_activation node = Some T ->
        exists mid,
          alpha_constant op = lower_bound h T :: mid ++ [upper_bound h T]).
Proof.
  intros Hb. unfold transpose_to_pwl.
  destruct (pwl_search_node h fuel node allowed 0) as [[[segments e']|err]|] eqn:E;
    try discriminate.
  pose proof (pwl_search_node_length _ _ _ _ _ _ _ Hb E) as Hl.
  destruct (Nat.ltb_spec (List.length segments) 2) as [Hlt|_]; [lia|].
  intros [= <-]. eexists. split; [reflexivity|]. simpl.
  rewrite !length_map, !length_firstn.
  split; [lia|]. split; [reflexivity|]. split; [lia|].
  intros T HT.
  assert (Hbr : brackets (lower_bound h T) (upper_bound h T) segments).
  { destruct node; simpl in HT; try discriminate; injection HT as <-;
      simpl in Hb, E; eapply pwl_search_brackets; eauto. }
  destruct Hbr as [first [mid [last [-> [H1 H2]]]]].
  exists (map alpha mid). simpl. rewrite map_app. simpl. rewrite H1, H2. reflexivity.
Qed.

(** The theorem at the SoftSign node of the header of the examples. *)
Lemma transpose_replaces_node_witness :
  exists op,
    transpose_to_pwl example_header 60 SoftSignNode 0x1p-5 = Some (Returned (Some op))
    /\ List.length (m_constant op) = 6%nat
    /\ List.length (b_constant op) = List.length (m_constant op)
    /\ List.length (alpha_constant op) = S (List.length (m_constant op)).
Proof.
  destruct (transpose_replaces_node example_header 60 SoftSignNode 0x1p-5
              (Some softsign_pwl_op) eq_refl softsign_node_transposed)
    as [op [Hop [_ [H2 [H3 _]]]]].
  injection Hop as <-. exists softsign_pwl_op.
  split; [exact softsign_node_transposed|]. split; [reflexivity|].
  split; assumption.
Defined.

(** X5. [pwl_search] throws on a domain that is not inverted only,
    and what it throws is the out-of-range error or one of the two
    not-converged errors: a DomainError or a NotConverged, never an error
    of the exponent. *)
Theorem search_errors (fuel : nat) (T : Activation) (F : Function)
    (L U allowed err_pct : float) (err : runtime_error) :
  pwl_search fuel T F L U allowed err_pct = Some (Thrown err) ->
  (U <? L) = false
  /\ (err = OutOfRange \/ err = PivotNotConverged \/ err = PwlNotConverged)
  /\ (kind_of err = DomainError \/ kind_of err = NotConverged).
Proof.
  intros H. apply pwl_search_Thrown in H. destruct H as [Hlu He].
  split; [exact Hlu|]. split; [exact He|].
  destruct He as [->|[->| ->]]; simpl; auto.
Qed.

(** The theorem at SoftSign with a NaN lower bound. *)
Lemma search_errors_witness :
  pwl_search 5 SoftSign Function_SoftSign nan 10 0x1p-8 0 = Some (Thrown OutOfRange)
  /\ (10 <? nan) = false.
Proof.
  assert (H : pwl_search 5 SoftSign Function_SoftSign nan 10 0x1p-8 0
              = Some (Thrown OutOfRange)) by (vm_compute; reflexivity).
  split; [exact H|].
  exact (proj1 (search_errors 5 SoftSign Function_SoftSign nan 10 0x1p-8 0 OutOfRange H)).
Defined.

(** X6. What [transpose_to_pwl] throws is one of the three errors
    of the search or, for a Power node only, one of the two errors of the
    exponent; an error of the exponent is thrown before any search: with
    any fuel and any error budget the call fails in the same way. *)
Theorem node_errors (h : Header) (fuel : nat) (node : Node) (allowed : float)
    (err : runtime_error) :
  transpose_to_pwl h fuel node allowed = Some (Thrown err) ->
  (err = OutOfRange \/ err = PivotNotConverged \/ err = PwlNotConverged)
  \/ (exists constant,
         node = PowerNode constant
         /\ (err = ExponentsSize \/ err = UnsupportedElement)
         /\ forall fuel' allowed',
              transpose_to_pwl h fuel' node allowed' = Some (Thrown err)).
Proof.
  unfold transpose_to_pwl.
  destruct (pwl_search_node h fuel node allowed 0) as [[[segments e']|err']|] eqn:E;
    try discriminate.
  - destruct (_ <? _)%nat; discriminate.
  - intros [= <-].
    destruct node; simpl in E;
      try (left; eapply pwl_search_Thrown; exact E).
    unfold pwl_search_Power in E.
    destruct (get_exponent exponent_types constant 0) as [[[|] x]|e0] eqn:Eg.
    + destruct (are_floats_equal h x 1); [discriminate|].
      left; eapply pwl_search_Thrown; exact E.
    + injection E as <-. right. exists constant.
      split; [reflexivity|]. split; [tauto|].
      intros fuel' allowed'. simpl. unfold pwl_search_Power. rewrite Eg. reflexivity.
    + injection E as <-. right. exists constant.
      split; [reflexivity|]. split.
      * left. unfold exponent_types in Eg. simpl in Eg. unfold get_exponent_as in Eg.
        destruct (get_vector constant) as [|y [|z v]];
          repeat (destruct (element.eqb _ _); try discriminate);
          injection Eg as <-; reflexivity.
      * intros fuel' allowed'. simpl. unfold pwl_search_Power. rewrite Eg. reflexivity.
Qed.

(** The theorem at a Power node whose constant holds two exponents. *)
Lemma node_errors_witness :
  transpose_to_pwl example_header 0 (PowerNode (mkConstant element.f32 [2; 3])) 0x1p-7
  = Some (Thrown ExponentsSize)
  /\ ((ExponentsSize = OutOfRange \/ ExponentsSize = PivotNotConverged
       \/ ExponentsSize = PwlNotConverged)
      \/ exists constant,
           PowerNode (mkConstant element.f32 [2; 3]) = PowerNode constant
           /\ (ExponentsSize = ExponentsSize \/ ExponentsSize = UnsupportedElement)
           /\ forall fuel' allowed',
                transpose_to_pwl example_header fuel'
                                 (PowerNode (mkConstant element.f32 [2; 3])) allowed'
                = Some (Thrown ExponentsSize)).
Proof.
  split; [reflexivity|].
  exact (node_errors example_header 0 (PowerNode (mkConstant element.f32 [2; 3]))
                     0x1p-7 ExponentsSize eq_refl).
Defined.

(** ** The first count that fits *)

(** The invariant of the [while] of the search by segment count: the
    current segments are those of the trial with the current count, and
    every smaller count was tried and exceeded the budget. *)
Lemma grow_first_fit T F L U allowed fuel gas n pwl e n' pwl' e' :
  trial fuel T F L U allowed n = Some (Returned (pwl, e)) ->
  (forall k, (1 <= k < n)%nat ->
     exists pwl_k e_k,
       trial fuel T F L U allowed k = Some (Returned (pwl_k, e_k))
       /\ (max_error T F allowed <? e_k) = true) ->
  grow fuel gas T F L U allowed (is_negative T F U) n pwl e
  = Some (Returned (n', pwl', e')) ->
  trial fuel T F L U allowed n' = Some (Returned (pwl', e'))
  /\ (forall k, (1 <= k < n')%nat ->
        exists pwl_k e_k,
          trial fuel T F L U allowed k = Some (Returned (pwl_k, e_k))
          /\ (max_error T F allowed <? e_k) = true).
Proof.
  revert n pwl e. induction gas as [|gas IH]; intros n pwl e Ht Hk; simpl.
  - destruct (_ && _); [discriminate|]. intros [= <- <- <-]. split; assumption.
  - destruct ((n <? max_segments_number T)%nat && (max_error T F allowed <? e)) eqn:Ec;
      [|intros [= <- <- <-]; split; assumption].
    apply andb_true_iff in Ec. destruct Ec as [_ Ec].
    destruct (pivot_search fuel T F pwl (S n) L U (is_negative T F U) _ default_threshold)
      as [[[p1 e1]|e1]|] eqn:E; try discriminate.
    apply IH.
    + unfold trial.
      rewrite (pivot_search_result fuel T F [] pwl (S n) L U (is_negative T F U)
                 (max_error T F allowed) (max_error T F allowed) default_threshold).
      rewrite E. reflexivity.
    + intros k Hlt. destruct (Nat.eq_dec k n) as [->|Hne].
      * exists pwl, e. split; assumption.
      * apply Hk. lia.
Qed.

(** X4. The search without split returns the first count that fits:
    its list has [n] segments for some [n] from 1 up and below
    [max_segments_number], it is what [pivot_search] answers for [n]
    segments, the error sampled on it does not exceed the budget, and for
    every smaller count [pivot_search] had returned a list whose sampled
    error exceeded the budget. *)
Theorem first_fit (fuel : nat) (T : Activation) (F : Function)
    (L U allowed : float) (pwl0 pwl : list Pwl) (err_pct : float) :
  segment_search fuel T F L U allowed pwl0 = Some (Returned (pwl, err_pct)) ->
  exists n,
    (1 <= n < max_segments_number T)%nat
    /\ List.length pwl = (n + 1)%nat
    /\ trial fuel T F L U allowed n = Some (Returned (pwl, err_pct))
    /\ (max_error T F allowed <? err_pct) = false
    /\ (forall k, (1 <= k < n)%nat ->
          exists pwl_k e_k,
            trial fuel T F L U allowed k = Some (Returned (pwl_k, e_k))
            /\ (max_error T F allowed <? e_k) = true).
Proof.
  intros H. apply segment_search_Returned in H.
  destruct H as [n [Hn [Hs [[Hl _] Hb]]]]. exists n.
  split; [exact Hn|]. split; [exact Hl|].
  unfold search_segments in Hs.
  destruct (pivot_search fuel T F pwl0 1 L U _ _ default_threshold)
    as [[[p1 e1]|e1]|] eqn:E; try discriminate.
  apply grow_first_fit in Hs.
  - destruct Hs as [Ht Hk]. split; [exact Ht|]. split; [exact Hb|exact Hk].
  - unfold trial.
    rewrite (pivot_search_result fuel T F [] pwl0 1 L U (is_negative T F U)
               (max_error T F allowed) (max_error T F allowed) default_threshold).
    rewrite E. reflexivity.
  - intros k Hk. lia.
Qed.

(** The theorem at SoftSign on [[0, 10]]: three segments. *)
Lemma first_fit_witness :
  exists n,
    List.length softsign_right_segments = (n + 1)%nat
    /\ trial 59 SoftSign Function_SoftSign 0 10 0x1p-5 n
       = Some (Returned (softsign_right_segments, softsign_right_err_pct))
    /\ (forall k, (1 <= k < n)%nat ->
          exists pwl_k e_k,
            trial 59 SoftSign Function_SoftSign 0 10 0x1p-5 k
            = Some (Returned (pwl_k, e_k))
            /\ (max_error SoftSign Function_SoftSign 0x1p-5 <? e_k) = true).
Proof.
  assert (H : segment_search 59 SoftSign Function_SoftSign 0 10 0x1p-5 []
              = Some (Returned (softsign_right_segments, softsign_right_err_pct))).
  { pose proof softsign_right_search as Hs.
    apply pwl_search_unsplit_inv in Hs; [|reflexivity|reflexivity].
    destruct Hs as [f [Hf Hs]]. injection Hf as <-. exact Hs. }
  destruct (first_fit 59 SoftSign Function_SoftSign 0 10 0x1p-5 []
              softsign_right_segments softsign_right_err_pct H)
    as [n [_ [Hl [Ht [_ Hk]]]]].
  exists n. split; [exact Hl|]. split; [exact Ht|exact Hk].
Defined.

(** ** [negative_pwl] *)

Lemma opp_involutive (x : float) : - - x = x.
Proof.
  assert (H : Prim2SF (- - x) = Prim2SF x).
  { rewrite !FloatAxioms.opp_spec.
    destruct (Prim2SF x) as [s|s| |s mx ex]; simpl;
      try rewrite negb_involutive; reflexivity. }
  rewrite <- (FloatAxioms.SF2Prim_Prim2SF (- - x)), H.
  apply FloatAxioms.SF2Prim_Prim2SF.
Qed.

(** X9. The lambda [negative_pwl] is an involution: applied twice
    it gives back the list, bit for bit; it keeps the alphas and the
    length. *)
Theorem negative_pwl_involutive (pwl : list Pwl) :
  negative_pwl (negative_pwl pwl) = pwl
  /\ map alpha (negative_pwl pwl) = map alpha pwl
  /\ List.length (negative_pwl pwl) = List.length pwl.
Proof.
  unfold negative_pwl. split; [|split].
  - rewrite map_map. rewrite <- (map_id pwl) at 2. apply map_ext.
    intros [m0 b0 a0]. simpl. rewrite !opp_involutive. reflexivity.
  - rewrite map_map. reflexivity.
  - apply length_map.
Qed.

(** A search without split that returns has returned one of its trials. *)
Lemma segment_search_trial fuel T F L U allowed pwl0 pwl e :
  segment_search fuel T F L U allowed pwl0 = Some (Returned (pwl, e)) ->
  exists n,
    (1 <= n < max_segments_number T)%nat
    /\ closed_by n U pwl
    /\ trial fuel T F L U allowed n = Some (Returned (pwl, e)).
Proof.
  intros H. apply segment_search_Returned in H.
  destruct H as [n [Hn [Hs [Hc _]]]]. exists n.
  split; [exact Hn|]. split; [exact Hc|].
  unfold search_segments in Hs.
  destruct (pivot_search fuel T F pwl0 1 L U _ _ default_threshold)
    as [[[p1 e1]|e1]|] eqn:E; try discriminate.
  apply grow_first_fit in Hs.
  - exact (proj1 Hs).
  - unfold trial.
    rewrite (pivot_search_result fuel T F [] pwl0 1 L U (is_negative T F U)
               (max_error T F allowed) (max_error T F allowed) default_threshold).
    rewrite E. reflexivity.
  - intros k Hk. lia.
Qed.

(** The two recursive calls of a split search that returns. *)
Lemma pwl_search_split_calls fuel T F L U allowed e pwl e' :
  split_search T L U = true ->
  pwl_search fuel T F L U allowed e = Some (Returned (pwl, e')) ->
  exists fuel' left err1 right err2,
    fuel = S fuel'
    /\ pwl_search fuel' T F L (get_break_bound T) allowed 0
       = Some (Returned (left, err1))
    /\ pwl_search fuel' T F (get_break_bound T) U allowed 0
       = Some (Returned (right, err2))
    /\ pwl = merge (negative_pwl left)
                   (match T with Exp | Power => negative_pwl right | _ => right end)
    /\ e' = (err1 + err2) / 2.
Proof.
  intros Hs. destruct fuel as [|fuel]; simpl; [discriminate|].
  assert (Hlu : (U <? L) = false).
  { unfold split_search in Hs. destruct (U <? L); [discriminate|reflexivity]. }
  rewrite Hlu, Hs.
  destruct (pwl_search fuel T F L (get_break_bound T) allowed 0)
    as [[[p1 e1]|e1]|] eqn:E1; try discriminate.
  destruct (pwl_search fuel T F (get_break_bound T) U allowed 0)
    as [[[p2 e2]|e2]|] eqn:E2; try discriminate.
  intros [= <- <-]. exists fuel, p1, e1, p2, e2.
  split; [reflexivity|]. split; [exact E1|]. split; [exact E2|].
  split; reflexivity.
Qed.

(** X3. A segment list that [pwl_search] returns for a split domain
    is made of the answers of its two recursive calls, on the lower bound
    to the break point and on the break point to the upper bound: it is
    the answer of the first call, negated and without its sentinel
    [(0, 0, break)], followed by the answer of the second call, negated for
    Exp and Power; its error is the mean of the two errors.  The first
    part starts at the lower bound and holds from one segment up to fewer
    than [max_segments_number]; the second part starts at the break point,
    at the index where the first part ends, ends at the upper bound and
    holds [max_segments_number] entries at most. *)
Theorem split_joins_at_break (fuel : nat) (T : Activation) (F : Function)
    (L U allowed err_pct : float) (pwl : list Pwl) (err_pct' : float) :
  split_search T L U = true ->
  pwl_search fuel T F L U allowed err_pct = Some (Returned (pwl, err_pct')) ->
  exists fuel' init err1 right err2,
    fuel = S fuel'
    /\ pwl_search fuel' T F L (get_break_bound T) allowed 0
       = Some (Returned (init ++ [mkPwl 0 0 (get_break_bound T)], err1))
    /\ pwl_search fuel' T F (get_break_bound T) U allowed 0
       = Some (Returned (right, err2))
    /\ pwl = negative_pwl init
             ++ match T with Exp | Power => negative_pwl right | _ => right end
    /\ err_pct' = (err1 + err2) / 2
    /\ (1 <= List.length init < max_segments_number T)%nat
    /\ (List.length right <= max_segments_number T)%nat
    /\ nth 0 (map alpha pwl) 0 = L
    /\ nth (List.length init) (map alpha pwl) 0 = get_break_bound T
    /\ brackets (get_break_bound T) U right.
Proof.
  intros Hs H.
  destruct (pwl_search_split_calls _ _ _ _ _ _ _ _ _ Hs H)
    as [f [left [e1 [right [e2 [-> [C1 [C2 [-> ->]]]]]]]]].
  destruct (split_halves _ _ _ Hs) as [H1 [H2 [H3 H4]]].
  destruct (pwl_search_unsplit_inv _ _ _ _ _ _ _ _ H3 H1 C1) as [f1 [Ef S1]].
  destruct (pwl_search_unsplit_inv _ _ _ _ _ _ _ _ H4 H2 C2) as [f2 [Ef2 S2]].
  pose proof (segment_search_brackets _ _ _ _ _ _ _ _ _ S1) as B1.
  pose proof (segment_search_brackets _ _ _ _ _ _ _ _ _ S2) as B2.
  apply segment_search_Returned in S1. apply segment_search_Returned in S2.
  destruct S1 as [n1 [Hn1 [_ [[Hl1 [init Hi]] _]]]].
  destruct S2 as [n2 [Hn2 [_ [[Hl2 _] _]]]].
  subst left. rewrite length_app in Hl1. simpl in Hl1.
  assert (Hm : merge (negative_pwl (init ++ [mkPwl 0 0 (get_break_bound T)]))
                 (match T with Exp | Power => negative_pwl right | _ => right end)
               = negative_pwl init
                 ++ match T with Exp | Power => negative_pwl right | _ => right end).
  { unfold merge, negative_pwl. rewrite map_app. simpl.
    destruct (map _ init ++ _) eqn:Em.
    - destruct (map _ init); discriminate.
    - rewrite <- Em. rewrite removelast_last. reflexivity. }
  assert (Ha : map alpha (match T with Exp | Power => negative_pwl right | _ => right end)
               = map alpha right).
  { unfold negative_pwl. destruct T; try reflexivity; rewrite map_map; reflexivity. }
  assert (Hr : nth 0 (map alpha right) 0 = get_break_bound T).
  { destruct B2 as [f2' [m2 [l2 [-> [A2 _]]]]]. exact A2. }
  exists f, init, e1, right, e2.
  split; [reflexivity|]. split; [exact C1|]. split; [exact C2|].
  split; [exact Hm|]. split; [reflexivity|]. split; [lia|]. split; [lia|].
  rewrite Hm, map_app, Ha. unfold negative_pwl at 1 2. rewrite map_map. simpl.
  split; [|split; [|exact B2]].
  - destruct B1 as [f1' [m1 [l1 [E1 [A1 _]]]]].
    destruct init as [|i0 init']; [simpl in Hl1; lia|].
    simpl in E1. injection E1 as -> _. exact A1.
  - rewrite app_nth2 by (rewrite length_map; lia).
    rewrite length_map, Nat.sub_diag. exact Hr.
Qed.

(** The theorem at SoftSign on [[-10, 10]]: three segments of the left
    half, then the right half from 0 on. *)
Lemma split_joins_at_break_witness :
  exists fuel' init err1 right err2,
    pwl_search fuel' SoftSign Function_SoftSign (-10) 0 0x1p-5 0
    = Some (Returned (init ++ [mkPwl 0 0 0], err1))
    /\ pwl_search fuel' SoftSign Function_SoftSign 0 10 0x1p-5 0
       = Some (Returned (right, err2))
    /\ softsign_segments = negative_pwl init ++ right
    /\ nth (List.length init) (map alpha softsign_segments) 0 = 0.
Proof.
  destruct (split_joins_at_break 60 SoftSign Function_SoftSign (-10) 10 0x1p-5 0
              softsign_segments softsign_err_pct eq_refl softsign_search)
    as [f [init [e1 [right [e2 [_ [H1 [H2 [H3 [_ [_ [_ [_ [H4 _]]]]]]]]]]]]]].
  exists f, init, e1, right, e2.
  split; [exact H1|]. split; [exact H2|]. split; [exact H3|exact H4].
Defined.

(** ** The error metric *)

(** Of three numbers the middle one, when it is no NaN, is above the
    smaller or below the larger. *)
Lemma SFcompare_Lt_cotrans (x y z : spec_float) :
  SFcompare x z = Some Lt -> y <> S754_nan ->
  SFcompare x y = Some Lt \/ SFcompare y z = Some Lt.
Proof.
  destruct x as [sx|sx| |sx mx ex], y as [sy|sy| |sy my ey], z as [sz|sz| |sz mz ez];
    simpl; try discriminate; try congruence;
    try (destruct sx; try discriminate); try (destruct sy; try discriminate);
    try (destruct sz; try discriminate); intros A B; try (left; reflexivity);
    try (right; reflexivity); try discriminate.
  all: revert A; rewrite ?Pcompare_Eq.
  all: destruct (Z.compare_spec ex ey) as [E1|E1|E1];
    destruct (Z.compare_spec ey ez) as [E2|E2|E2];
    destruct (Z.compare_spec ex ez) as [E3|E3|E3];
    subst; try lia; intros A; try discriminate; try (left; reflexivity);
    try (right; reflexivity).
  all: injection A as A.
  all: try (apply CompOpp_iff in A; simpl in A).
  all: rewrite ?Pos.compare_lt_iff, ?Pos.compare_gt_iff in A.
  all: rewrite ?Pcompare_Eq, ?Pos.compare_refl.
  all: try destruct (Pos.compare_spec mx my) as [E4|E4|E4];
    try destruct (Pos.compare_spec my mz) as [E5|E5|E5];
    try destruct (Pos.compare_spec mx mz) as [E6|E6|E6];
    subst; try lia; simpl; auto.
  all: right; f_equal; try (apply CompOpp_iff; simpl);
    first [apply Pos.compare_lt_iff; lia | apply Pos.compare_gt_iff; lia].
Qed.

Lemma ltb_cotrans (x y z : float) :
  (x <? z) = true -> (x <? y) = false -> (y <? z) = false -> isNaN y.
Proof.
  intros H1 H2 H3. unfold isNaN.
  destruct (Prim2SF y) eqn:Ey; try reflexivity; exfalso.
  all: apply ltb_true in H1;
    destruct (SFcompare_Lt_cotrans _ (Prim2SF y) _ H1) as [H|H];
    [rewrite Ey; discriminate
    |apply ltb_true in H; congruence
    |apply ltb_true in H; congruence].
Qed.

Lemma ltb_trans (x y z : float) :
  (x <? y) = true -> (y <? z) = true -> (x <? z) = true.
Proof.
  intros H1 H2. apply ltb_true in H1, H2. apply ltb_true.
  eapply SFcompare_Lt_trans; eauto.
Qed.

Lemma abs_not_negative (x : float) : (abs x <? 0) = false.
Proof.
  rewrite FloatAxioms.ltb_spec, FloatAxioms.abs_spec. unfold SFltb.
  destruct (Prim2SF x) as [s|s| |s mx ex]; reflexivity.
Qed.

Lemma running_max_nan (g : nat -> float) l m0 :
  isNaN m0 -> fold_left (running_max g) l m0 = m0.
Proof.
  intros Hn. induction l as [|a l IH]; simpl; [reflexivity|].
  unfold running_max at 2. rewrite (ltb_nan_l _ _ Hn). exact IH.
Qed.

(** The running maximum of a loop [if (err > max_err) max_err = err]: it
    is the start value or a value of the loop, and no value exceeds it. *)
Lemma running_max_spec (g : nat -> float) l m0 :
  let r := fold_left (running_max g) l m0 in
  (r = m0 \/ exists i, In i l /\ r = g i)
  /\ (r <? m0) = false
  /\ forall i, In i l -> (r <? g i) = false.
Proof.
  revert m0. induction l as [|a l IH]; intros m0; simpl.
  - split; [left; reflexivity|]. split; [apply ltb_irrefl|]. intros i [].
  - destruct (IH (running_max g m0 a)) as [H1 [H2 H3]].
    assert (Hs : running_max g m0 a = if m0 <? g a then g a else m0) by reflexivity.
    rewrite Hs in *. clear Hs.
    destruct (m0 <? g a) eqn:Ea.
    + split; [|split].
      * right. destruct H1 as [H1|[i [Hi H1]]]; [exists a|exists i]; auto.
      * destruct (fold_left (running_max g) l (g a) <? m0) eqn:Er; [|reflexivity].
        pose proof (ltb_trans _ _ _ Er Ea). congruence.
      * intros i [<-|Hi]; [exact H2|apply H3; exact Hi].
    + split; [|split].
      * destruct H1 as [H1|[i [Hi H1]]]; [left|right; exists i]; auto.
      * exact H2.
      * intros i [<-|Hi]; [|apply H3; exact Hi].
        destruct (fold_left (running_max g) l m0 <? g a) eqn:Er; [|reflexivity].
        pose proof (ltb_cotrans _ _ _ Er H2 Ea) as Hn.
        rewrite (running_max_nan g l m0 Hn) in Er.
        rewrite (ltb_nan_l _ _ Hn) in Er. discriminate.
Qed.

(** X10. On a segment list that is not empty and with one sample at
    least, [calculate_error_pct] answers 0 when its step [delta] is
    negative; otherwise its answer is the error at the lower bound or the
    error at one of the samples, and neither of these errors exceeds it.
    The answer is never below zero, and it does not depend on the argument
    [offset]. *)
Theorem error_metric_is_maximum (F : Function) (segments : list Pwl)
    (L U offset : float) (neg : bool) (samples : nat) :
  (1 <= List.length segments)%nat ->
  (1 <= samples)%nat ->
  let delta := (U - L) / of_nat (samples + 1) in
  let r := calculate_error_pct F segments L U offset neg samples in
  ((delta <? 0) = true -> r = 0)
  /\ ((delta <? 0) = false ->
      (r = first_error F segments L U neg samples
       \/ exists i, (i < samples)%nat /\ r = sample_error F segments L U neg samples i)
      /\ (r <? first_error F segments L U neg samples) = false
      /\ forall i, (i < samples)%nat ->
           (r <? sample_error F segments L U neg samples i) = false)
  /\ (r <? 0) = false
  /\ (forall offset', calculate_error_pct F segments L U offset' neg samples = r).
Proof.
  intros _ _ delta r. subst r. unfold calculate_error_pct. fold delta.
  destruct (delta <? 0) eqn:Ed.
  - split; [reflexivity|]. split; [discriminate|]. split; reflexivity.
  - split; [discriminate|].
    pose proof (running_max_spec (sample_error F segments L U neg samples)
                  (seq 0 samples) (first_error F segments L U neg samples))
      as [H1 [H2 H3]].
    split; [|split; [|reflexivity]].
    + intros _. split; [|split].
      * destruct H1 as [H1|[i [Hi H1]]]; [left; exact H1|right].
        exists i. apply in_seq in Hi. split; [lia|exact H1].
      * exact H2.
      * intros i Hi. apply H3. apply in_seq. lia.
    + destruct H1 as [H1|[i [Hi H1]]].
      * change (fold_left _ _ _)
          with (fold_left (running_max (sample_error F segments L U neg samples))
                          (seq 0 samples) (first_error F segments L U neg samples)).
        rewrite H1. apply abs_not_negative.
      * change (fold_left _ _ _)
          with (fold_left (running_max (sample_error F segments L U neg samples))
                          (seq 0 samples) (first_error F segments L U neg samples)).
        rewrite H1. apply abs_not_negative.
Qed.

(** The theorem at SoftSign on [[0, 10]] with the segments found for
    it. *)
Lemma error_metric_is_maximum_witness :
  (calculate_error_pct Function_SoftSign softsign_right_segments 0 10 0 false
                       default_samples <? 0) = false
  /\ (forall offset',
        calculate_error_pct Function_SoftSign softsign_right_segments 0 10 offset' false
                            default_samples
        = calculate_error_pct Function_SoftSign softsign_right_segments 0 10 0 false
                              default_samples).
Proof.
  assert (H1 : (1 <= List.length softsign_right_segments)%nat) by (simpl; lia).
  assert (H2 : (1 <= default_samples)%nat) by (unfold default_samples; lia).
  exact (proj2 (proj2 (error_metric_is_maximum Function_SoftSign softsign_right_segments
                         0 10 0 false default_samples H1 H2))).
Defined.

(** ** The index of the turns *)

(** A turn that does not end the call starts below the cap and raises [j]
    by one at most. *)
Lemma body_index T F N a0 aN neg thr st st' :
  pivot_body T F N a0 aN neg thr st = inr st' ->
  v_j st <> max_iterations T /\ (v_j st' <= v_j st + 1)%nat.
Proof.
  unfold pivot_body.
  destruct (box3 F N neg (v_t st) _ (v_j st) (v_epsilon st)) as [eps|e];
    [|discriminate].
  destruct (max_min_epsilon N eps (v_j st)) as [mx mn].
  destruct (Nat.eqb_spec (v_j st) (max_iterations T)) as [Hj|Hj]; simpl;
    [discriminate|].
  destruct (spread_test thr mx mn); [discriminate|].
  destruct (0 <? v_j st)%nat;
    [destruct (v_max_epsilon st <? mx);
     [|destruct (mx =? v_max_epsilon st); [destruct (negb (v_same_epsilon st))|]]|];
    intros [= <-]; simpl; split; try assumption; lia.
Qed.

Lemma run_index T F N a0 aN neg thr k st st' :
  (v_j st <= max_iterations T)%nat ->
  pivot_run T F N a0 aN neg thr k st = Some st' ->
  (v_j st' <= v_j st + k)%nat /\ (v_j st' <= max_iterations T)%nat.
Proof.
  revert st. induction k as [|k IH]; intros st Hj; simpl.
  - intros [= <-]. split; [lia|exact Hj].
  - destruct (pivot_body T F N a0 aN neg thr st) as [r|st1] eqn:E; [discriminate|].
    apply body_index in E. destruct E as [E1 E2].
    intros H. apply IH in H; [|lia]. destruct H as [H1 H2]. split; [lia|exact H2].
Qed.

(** X11. After [k] turns of the loop of [pivot_search], for one segment
    at least, the index [j] is [k] at most and [max_iterations] at most;
    so the not-converged error of [pivot_search] is not raised within
    [max_iterations] turns. *)
Theorem pivot_index_bounded (T : Activation) (F : Function) (N : nat)
    (a0 aN : float) (neg : bool) (thr : float) (k : nat) (st : pivot_state) :
  (1 <= N)%nat ->
  pivot_run T F N a0 aN neg thr k (pivot_init N a0 aN) = Some st ->
  (v_j st <= k)%nat
  /\ (v_j st <= max_iterations T)%nat
  /\ (forall fuel result me,
        (fuel <= max_iterations T)%nat ->
        pivot_search fuel T F result N a0 aN neg me thr
        <> Some (Thrown PivotNotConverged)).
Proof.
  intros _ H. apply run_index in H; [|simpl; lia]. simpl in H.
  split; [tauto|]. split; [tauto|].
  intros fuel result me Hf Hp. unfold pivot_search in Hp.
  apply loop_run in Hp. destruct Hp as [k' [st' [Hk [Hr Hb]]]].
  pose proof (run_index T F N a0 aN neg thr k' (pivot_init N a0 aN) st'
                (Nat.le_0_l _) Hr) as [Hj' _].
  simpl in Hj'.
  pose proof (run_rows _ _ _ _ _ _ _ _ _ _ (init_rows N a0 aN) Hr) as Hrows.
  destruct (body_cases T F N a0 aN neg thr st')
    as [[e' [E Hb']]|[eps [E [[Hj _]|[[_ [_ Hb']]|[_ [_ [st1 [Hb' _]]]]]]]]];
    try congruence; try lia.
  rewrite Hb' in Hb. injection Hb as ->.
  apply (box3_Thrown F N a0 aN neg st' _ Hrows) in E. discriminate.
Qed.

(** The theorem at SoftSign on [[0, 10]] with one segment, after three
    turns. *)
Lemma pivot_index_bounded_witness :
  exists st,
    pivot_run SoftSign Function_SoftSign 1 0 10 false default_threshold 3
              (pivot_init 1 0 10) = Some st
    /\ (v_j st <= 3)%nat.
Proof.
  destruct (pivot_run SoftSign Function_SoftSign 1 0 10 false default_threshold 3
              (pivot_init 1 0 10)) as [st|] eqn:E; [|vm_compute in E; discriminate E].
  exists st. split; [reflexivity|].
  exact (proj1 (pivot_index_bounded SoftSign Function_SoftSign 1 0 10 false
                  default_threshold 3 st (Nat.le_refl 1) E)).
Defined.

(** ** The sign of the two halves *)

(** The call of [pivot_search] behind a trial. *)
Lemma trial_pivot_search fuel T F L U allowed n pwl e :
  trial fuel T F L U allowed n = Some (Returned (pwl, e)) ->
  exists epsilon,
    pivot_search fuel T F [] n L U (is_negative T F U) (max_error T F allowed)
                 default_threshold
    = Some (Returned (pwl, epsilon)).
Proof.
  unfold trial.
  destruct (pivot_search fuel T F [] n L U _ _ default_threshold)
    as [[[p1 e1]|e1]|]; try discriminate.
  intros [= <- _]. exists e1. reflexivity.
Qed.

(** X8. On a split domain [pwl_search] returns the answers of two
    calls of [pivot_search], the left one with the flag [negative] that
    [is_negative] gives at the break point and the right one with the flag
    it gives at the upper bound, the left answer negated whatever the flag
    and without its sentinel.  For Sigmoid, Tanh, SoftSign and Exp each
    half is negated after its search exactly when it was searched as a
    negated problem: the left flag holds, and the right answer is negated
    exactly when the right flag holds.  For Power both answers are negated
    whatever the flags say, which are the same for both halves. *)
Theorem halves_negated_as_searched (fuel : nat) (T : Activation) (F : Function)
    (L U allowed err_pct : float) (pwl : list Pwl) (err_pct' : float) :
  split_search T L U = true ->
  pwl_search fuel T F L U allowed err_pct = Some (Returned (pwl, err_pct')) ->
  exists fuel' n1 left eps1 n2 right eps2,
    pivot_search fuel' T F [] n1 L (get_break_bound T)
                 (is_negative T F (get_break_bound T))
                 (max_error T F allowed) default_threshold
    = Some (Returned (left, eps1))
    /\ pivot_search fuel' T F [] n2 (get_break_bound T) U
                    (is_negative T F U)
                    (max_error T F allowed) default_threshold
       = Some (Returned (right, eps2))
    /\ (T <> Power ->
        is_negative T F (get_break_bound T) = true
        /\ pwl = removelast (negative_pwl left)
                 ++ (if is_negative T F U then negative_pwl right else right))
    /\ (T = Power ->
        is_negative T F (get_break_bound T) = is_negative T F U
        /\ pwl = removelast (negative_pwl left) ++ negative_pwl right).
Proof.
  intros Hs H.
  destruct (pwl_search_split_inv _ _ _ _ _ _ _ _ _ Hs H)
    as [f [p1 [e1 [p2 [e2 [H1 [H2 [-> _]]]]]]]].
  destruct (segment_search_trial _ _ _ _ _ _ _ _ _ H1) as [n1 [Hn1 [[Hl1 _] T1]]].
  destruct (segment_search_trial _ _ _ _ _ _ _ _ _ H2) as [n2 [_ [_ T2]]].
  destruct (trial_pivot_search _ _ _ _ _ _ _ _ _ T1) as [eps1 P1].
  destruct (trial_pivot_search _ _ _ _ _ _ _ _ _ T2) as [eps2 P2].
  exists f, n1, p1, eps1, n2, p2, eps2.
  split; [exact P1|]. split; [exact P2|].
  assert (Hm : forall r, merge (negative_pwl p1) r = removelast (negative_pwl p1) ++ r).
  { intros r. unfold merge. destruct (negative_pwl p1) eqn:E; [|reflexivity].
    apply (f_equal (@List.length Pwl)) in E. unfold negative_pwl in E.
    rewrite length_map in E. simpl in E. lia. }
  rewrite Hm.
  destruct (split_search_bounds _ _ _ Hs) as [_ Hu]. apply ltb_eqb in Hu.
  split.
  - intros HT.
    destruct T; try congruence;
      try (unfold split_search in Hs; destruct (U <? L); discriminate Hs);
      simpl in *; try rewrite Hu; split; reflexivity.
  - intros ->. split; reflexivity.
Qed.

(** The theorem at SoftSign on [[-10, 10]]: the left half is searched
    and returned negated, the right half neither. *)
Lemma halves_negated_as_searched_witness :
  exists fuel' n1 left eps1 n2 right eps2,
    pivot_search fuel' SoftSign Function_SoftSign [] n1 (-10) 0 true 0x1p-5
                 default_threshold
    = Some (Returned (left, eps1))
    /\ pivot_search fuel' SoftSign Function_SoftSign [] n2 0 10 false 0x1p-5
                    default_threshold
       = Some (Returned (right, eps2))
    /\ softsign_segments = removelast (negative_pwl left) ++ right.
Proof.
  destruct (halves_negated_as_searched 60 SoftSign Function_SoftSign (-10) 10 0x1p-5 0
              softsign_segments softsign_err_pct eq_refl softsign_search)
    as [f [n1 [left [eps1 [n2 [right [eps2 [H1 [H2 [H3 _]]]]]]]]]].
  exists f, n1, left, eps1, n2, right, eps2.
  split; [exact H1|]. split; [exact H2|].
  exact (proj2 (H3 ltac:(discriminate))).
Defined.

(** * Properties of shapes *)

(** ** The instance of the examples *)

Lemma interval_laws : ov.laws IntervalDimension.ops.
Proof.
  constructor; simpl.
  - reflexivity.
  - reflexivity.
  - intros n Hn. unfold IntervalDimension.of_length, IntervalDimension.is_static.
    destruct (Z.eqb_spec n (-1)); [lia|]. simpl. apply Z.eqb_refl.
  - intros n Hn. unfold IntervalDimension.of_length.
    destruct (Z.eqb_spec n (-1)); [lia|]. reflexivity.
Qed.

(** ** The rank *)

Section ShapeFacts.

Import ov.
Local Open Scope Z_scope.

Context {Dim : Type} (D : Dimension.ops Dim).
Variable init : ShapeType.
Hypothesis HD : laws D.

Lemma rank_is_dynamic (s : Shape.t Dim) :
  Dimension.is_dynamic D (Shape.rank D s) = negb (Shape.m_rank_is_static s).
Proof.
  unfold Shape.rank. rewrite (is_dynamic_not_static D HD).
  destruct (Shape.m_rank_is_static s).
  - rewrite (of_length_static D HD); [reflexivity|lia].
  - rewrite (dynamic_not_static D HD). reflexivity.
Qed.

Lemma rank_is_static (s : Shape.t Dim) :
  Dimension.is_static D (Shape.rank D s) = Shape.m_rank_is_static s.
Proof.
  unfold Shape.rank. destruct (Shape.m_rank_is_static s).
  - rewrite (of_length_static D HD); [reflexivity|lia].
  - apply (dynamic_not_static D HD).
Qed.

Lemma rank_get_length (s : Shape.t Dim) :
  Shape.m_rank_is_static s = true ->
  Dimension.get_length D (Shape.rank D s) = size s.
Proof.
  intros H. unfold Shape.rank, size. rewrite H. apply (get_length_of_length D HD). lia.
Qed.

Lemma upto_size (s : Shape.t Dim) :
  Shape.upto (size s) = seq 0 (List.length (Shape.m_dimensions s)).
Proof. unfold Shape.upto, size. rewrite Nat2Z.id. reflexivity. Qed.

End ShapeFacts.

(** ** The indices in range *)

Section IndexFacts.

Import ov.
Local Open Scope Z_scope.

Context {Dim : Type} (D : Dimension.ops Dim).

Lemma index_const_in (s : Shape.t Dim) (i : nat) :
  (i < List.length (Shape.m_dimensions s))%nat ->
  Shape.index_const D s (Z.of_nat i) = Value (Shape.at_ D s i).
Proof.
  intros H. unfold Shape.index_const.
  destruct (Z.leb_spec (Z.of_nat (List.length (Shape.m_dimensions s))) (Z.of_nat i));
    [lia|]. rewrite Nat2Z.id. reflexivity.
Qed.

Lemma index_in (s : Shape.t Dim) (i : nat) :
  (i < List.length (Shape.m_dimensions s))%nat ->
  Shape.index D s (Z.of_nat i)
  = Value (Shape.at_ D s i, Shape.set_shape_type s SHAPE_IS_UPDATED).
Proof.
  intros H. unfold Shape.index.
  destruct (Z.leb_spec (Z.of_nat (List.length (Shape.m_dimensions s))) (Z.of_nat i));
    [lia|]. rewrite Nat2Z.id. reflexivity.
Qed.

(** The loop of [get] over the indices from [k] on. *)
Lemma get_loop_all (ref : Shape.t Dim) (n k : nat) (buffer : list Z) :
  (k + n = List.length (Shape.m_dimensions ref))%nat ->
  Shape.get_loop D ref (seq k n) buffer
  = (Value (buffer
            ++ map (fun elt => if Dimension.is_dynamic D elt then -1
                               else Dimension.get_length D elt)
                   (skipn k (Shape.m_dimensions ref))),
     buffer
     ++ map (fun elt => if Dimension.is_dynamic D elt then -1
                        else Dimension.get_length D elt)
            (skipn k (Shape.m_dimensions ref))).
Proof.
  revert k buffer. induction n as [|n IH]; intros k buffer Hk; simpl.
  - rewrite skipn_all2 by lia. simpl. rewrite app_nil_r. reflexivity.
  - rewrite index_const_in by lia. rewrite IH by lia.
    assert (Hs : skipn k (Shape.m_dimensions ref)
                 = Shape.at_ D ref k :: skipn (S k) (Shape.m_dimensions ref)).
    { unfold Shape.at_. clear IH. revert k Hk.
      induction (Shape.m_dimensions ref) as [|d l IHl]; intros k Hk; simpl in *; [lia|].
      destruct k as [|k]; [reflexivity|]. apply IHl. lia. }
    rewrite Hs. simpl. rewrite <- !app_assoc. reflexivity.
Qed.

End IndexFacts.

(** ** The attribute adapter *)

Section Adapter.

Import ov.
Local Open Scope Z_scope.

Context {Dim : Type} (D : Dimension.ops Dim).
Variable init : ShapeType.

(** X12. [get] after [set] reads back the vector that was set,
    whatever the buffer held before, and leaves it in the buffer, marked
    valid: for the vector (-2), of a dynamic rank, and for every vector of
    elements from -1 up, -1 standing for a dynamic dimension. *)
Theorem adapter_set_get (a : Shape.AttributeAdapter Dim) (value : list Z) :
  laws D ->
  encodes value ->
  Shape.get D (Shape.set D init a value)
  = (Value value,
     Shape.mkAttributeAdapter (Shape.m_ref (Shape.set D init a value)) value true).
Proof.
  intros HD [->|Hv].
  - unfold Shape.set, Shape.get. simpl.
    rewrite (rank_is_dynamic D HD). unfold Shape.dynamic. simpl.
    rewrite (dynamic_not_static D HD). reflexivity.
  - set (enc := fun elt => if elt =? -1 then Dimension.dynamic D
                           else Dimension.of_length D elt).
    assert (Hr : Shape.m_ref (Shape.set D init a value)
                 = Shape.of_dimensions init (map enc value)).
    { unfold Shape.set. simpl. destruct value as [|x [|y v]]; try reflexivity.
      inversion Hv as [|x0 l0 Hx _]; subst.
      destruct (Z.eqb_spec x (-2)); [lia|reflexivity]. }
    unfold Shape.get. replace (Shape.m_buffer_valid (Shape.set D init a value)) with false
      by reflexivity. simpl negb. cbv iota. rewrite Hr.
    rewrite (rank_is_dynamic D HD). simpl negb. cbv iota.
    rewrite (rank_get_length D HD) by reflexivity.
    rewrite upto_size. simpl Shape.m_dimensions. rewrite length_map.
    rewrite (get_loop_all D _ (List.length value) 0) by (simpl; rewrite length_map; lia).
    simpl. rewrite map_map.
    assert (Hid : map (fun x => if Dimension.is_dynamic D (enc x) then -1
                                else Dimension.get_length D (enc x)) value = value).
    { clear Hr. induction Hv as [|x l Hx Hl IH]; simpl; [reflexivity|].
      rewrite IH. f_equal. unfold enc. rewrite (is_dynamic_not_static D HD).
      destruct (Z.eqb_spec x (-1)) as [->|Hne].
      - rewrite (dynamic_not_static D HD). reflexivity.
      - rewrite (of_length_static D HD) by lia. simpl.
        apply (get_length_of_length D HD). lia. }
    rewrite Hid. reflexivity.
Qed.

End Adapter.

(** The theorem at the vector (1, -1, 224, 224), set on an adapter whose
    buffer held (7). *)
Lemma adapter_set_get_witness :
  ov.Shape.get IntervalDimension.ops
    (ov.Shape.set IntervalDimension.ops ov.SHAPE_IS_UNKNOWN
       (ov.Shape.mkAttributeAdapter (IntervalDimension.shape [7%Z]) [7%Z] true)
       [1; -1; 224; 224]%Z)
  = (ov.Value [1; -1; 224; 224]%Z,
     ov.Shape.mkAttributeAdapter
       (ov.Shape.m_ref
          (ov.Shape.set IntervalDimension.ops ov.SHAPE_IS_UNKNOWN
             (ov.Shape.mkAttributeAdapter (IntervalDimension.shape [7%Z]) [7%Z] true)
             [1; -1; 224; 224]%Z))
       [1; -1; 224; 224]%Z true).
Proof.
  apply (adapter_set_get IntervalDimension.ops ov.SHAPE_IS_UNKNOWN _ _ interval_laws).
  right. repeat constructor; lia.
Defined.

(** ** Rank, comparison and cache *)

Lemma forallb_pointwise {A : Type} (f g : A -> bool) (l : list A) :
  (forall x, f x = g x) -> forallb f l = forallb g l.
Proof.
  intros H. induction l as [|a l IH]; simpl; [reflexivity|]. rewrite H, IH. reflexivity.
Qed.

Lemma to_int64_small (x : Z) : (0 <= x < 2 ^ 63)%Z -> ov.to_int64 x = x.
Proof. intros H. unfold ov.to_int64. rewrite Z.mod_small by lia. lia. Qed.

Section ShapeRank.

Import ov.
Local Open Scope Z_scope.

Context {Dim : Type} (D : Dimension.ops Dim).
Variable init : ShapeType.

(** X16. [merge_rank(r)] changes nothing and answers [true] for a
    dynamic [r].  For a static [r], whose length is not negative, it
    answers [false] exactly when the
    rank of the shape is static with another number of dimensions; a shape
    of static rank is never changed; and after the answer [true] the rank
    is static with [r.get_length()] dimensions, all dynamic and with the
    cache reset when the rank was dynamic before. *)
Theorem merge_rank_cases (s : Shape.t Dim) (r : Dim) :
  (Dimension.is_dynamic D r = true -> Shape.merge_rank D s r = (true, s))
  /\ (Dimension.is_dynamic D r = false -> 0 <= Dimension.get_length D r ->
      (fst (Shape.merge_rank D s r) = false <->
       Shape.m_rank_is_static s = true /\ size s <> Dimension.get_length D r)
      /\ (Shape.m_rank_is_static s = true -> snd (Shape.merge_rank D s r) = s)
      /\ (fst (Shape.merge_rank D s r) = true ->
          Shape.m_rank_is_static (snd (Shape.merge_rank D s r)) = true
          /\ size (snd (Shape.merge_rank D s r)) = Dimension.get_length D r
          /\ (Shape.m_rank_is_static s = false ->
              Shape.m_dimensions (snd (Shape.merge_rank D s r))
              = repeat (Dimension.dynamic D) (Z.to_nat (Dimension.get_length D r))
              /\ Shape.m_shape_type (snd (Shape.merge_rank D s r)) = SHAPE_IS_UNKNOWN))).
Proof.
  unfold Shape.merge_rank, size. split.
  - intros ->. reflexivity.
  - intros -> Hr. destruct (Shape.m_rank_is_static s) eqn:Es; simpl.
    + split; [|split].
      * rewrite Z.eqb_neq. tauto.
      * reflexivity.
      * intros H. apply Z.eqb_eq in H. rewrite Es. split; [reflexivity|].
        split; [exact H|discriminate].
    + split; [|split].
      * split; [discriminate|]. intros [H _]; discriminate.
      * discriminate.
      * intros _. split; [reflexivity|]. split.
        -- rewrite repeat_length. lia.
        -- intros _. split; reflexivity.
Qed.

(** X18. [compatible] is symmetric when it is so on dimensions; a
    shape of dynamic rank is compatible with every shape; and two
    compatible shapes of static rank have the same number of
    dimensions. *)
Theorem compatible_symmetric (s s' : Shape.t Dim) :
  laws D ->
  (forall a b, Dimension.compatible D a b = Dimension.compatible D b a) ->
  Shape.compatible D s s' = Shape.compatible D s' s
  /\ (Shape.m_rank_is_static s = false ->
      Shape.compatible D s s' = true /\ Shape.compatible D s' s = true)
  /\ (Shape.m_rank_is_static s = true -> Shape.m_rank_is_static s' = true ->
      Shape.compatible D s s' = true ->
      List.length (Shape.m_dimensions s) = List.length (Shape.m_dimensions s')).
Proof.
  intros HD Hc.
  assert (Hcases : forall a b : Shape.t Dim,
             Shape.compatible D a b =
             if negb (Shape.m_rank_is_static a) || negb (Shape.m_rank_is_static b)
             then true
             else if negb (size a =? size b) then false
             else forallb (fun i => Dimension.compatible D (Shape.at_ D a i) (Shape.at_ D b i))
                          (seq 0 (List.length (Shape.m_dimensions a)))).
  { intros a b. unfold Shape.compatible. rewrite (rank_is_dynamic D HD).
    destruct (Shape.m_rank_is_static a) eqn:Ea; simpl; [|reflexivity].
    destruct (Shape.m_rank_is_static b) eqn:Eb; simpl; [|reflexivity].
    rewrite !(rank_get_length D HD) by assumption. rewrite upto_size. reflexivity. }
  split; [|split].
  - rewrite !Hcases.
    destruct (Shape.m_rank_is_static s), (Shape.m_rank_is_static s'); simpl;
      try reflexivity.
    rewrite (Z.eqb_sym (size s') (size s)).
    destruct (Z.eqb_spec (size s) (size s')) as [He|Hne]; simpl; [|reflexivity].
    unfold size in He. apply Nat2Z.inj in He. rewrite He.
    apply forallb_pointwise. intros i. apply Hc.
  - intros Hs. rewrite !Hcases, Hs. simpl. rewrite orb_true_r. split; reflexivity.
  - intros Hs Hs'. rewrite Hcases, Hs, Hs'. simpl.
    destruct (Z.eqb_spec (size s) (size s')) as [He|Hne]; simpl; [|discriminate].
    intros _. unfold size in He. apply Nat2Z.inj in He. exact He.
Qed.

Lemma all_indexed_swap (f g : Dim -> Dim -> bool) (s s' : Shape.t Dim)
    (idx : list nat) (success : bool) :
  (forall a b, f a b = g b a) ->
  Shape.all_indexed D f s s' idx success = Shape.all_indexed D g s' s idx success.
Proof.
  intros Hfg. revert success. induction idx as [|i idx IH]; intros success; simpl;
    [reflexivity|].
  unfold Shape.index_const.
  destruct (Z.of_nat (List.length (Shape.m_dimensions s)) <=? Z.of_nat i),
           (Z.of_nat (List.length (Shape.m_dimensions s')) <=? Z.of_nat i);
    try reflexivity.
  rewrite Hfg. apply IH.
Qed.

(** X19. [refines] and [relaxes] are dual when they are so on
    dimensions: [s.refines(s')] and [s'.relaxes(s)] give the same answer,
    or throw the same error. *)
Theorem refines_relaxes (s s' : Shape.t Dim) :
  (forall a b, Dimension.refines D a b = Dimension.relaxes D b a) ->
  Shape.refines D s s' = Shape.relaxes D s' s.
Proof.
  intros Hd. unfold Shape.refines, Shape.relaxes.
  destruct (Dimension.is_dynamic D (Shape.rank D s')); [reflexivity|].
  rewrite (Z.eqb_sym (Dimension.get_length D (Shape.rank D s'))).
  destruct (Dimension.is_static D (Shape.rank D s)); simpl; [|reflexivity].
  destruct (Z.eqb_spec (Dimension.get_length D (Shape.rank D s))
                       (Dimension.get_length D (Shape.rank D s'))) as [He|Hne];
    [|reflexivity].
  rewrite He. apply all_indexed_swap. exact Hd.
Qed.

Lemma get_shape_loop_Value (dims : list Dim) (shape v : list Z) :
  Shape.get_shape_loop D dims shape = Value v ->
  v = shape ++ map (fun d => to_size_t (Dimension.get_min_val D d)) dims
  /\ v = shape ++ map (fun d => to_size_t (Dimension.get_max_val D d)) dims
  /\ Forall (fun d => Dimension.get_min_val D d = Dimension.get_max_val D d) dims.
Proof.
  revert shape. induction dims as [|d dims IH]; intros shape; simpl.
  - intros [= <-]. rewrite app_nil_r. repeat split; constructor.
  - destruct (Z.eqb_spec (Dimension.get_min_val D d) (Dimension.get_max_val D d))
      as [He|Hne]; [|discriminate].
    intros H. apply IH in H. destruct H as [H1 [H2 H3]].
    rewrite <- app_assoc in H1, H2. simpl in H1, H2.
    split; [exact H1|]. split; [rewrite <- He; exact H2|]. constructor; assumption.
Qed.

Lemma get_shape_loop_Raise (dims : list Dim) (shape : list Z) (e : exception) :
  Shape.get_shape_loop D dims shape = Raise e ->
  e = CheckFailure "get_shape() must be called on a static shape"
  /\ exists d, In d dims /\ Dimension.get_min_val D d <> Dimension.get_max_val D d.
Proof.
  revert shape. induction dims as [|d dims IH]; intros shape; simpl; [discriminate|].
  destruct (Z.eqb_spec (Dimension.get_min_val D d) (Dimension.get_max_val D d))
    as [He|Hne].
  - intros H. apply IH in H. destruct H as [H1 [d' [H2 H3]]].
    split; [exact H1|]. exists d'. split; [right; exact H2|exact H3].
  - intros [= <-]. split; [reflexivity|]. exists d. split; [left; reflexivity|exact Hne].
Qed.

(** X21. When [get_shape] returns, the rank is static and its answer
    is that of [get_min_shape] and that of [get_max_shape], one length for
    each dimension; it fails, by its check, exactly for a dynamic rank or
    a dimension whose smallest and largest length differ. *)
Theorem get_shape_min_max (s : Shape.t Dim) :
  laws D ->
  match Shape.get_shape D s with
  | Value v =>
      v = Shape.get_min_shape D s /\ v = Shape.get_max_shape D s
      /\ List.length v = List.length (Shape.m_dimensions s)
      /\ Shape.m_rank_is_static s = true
  | Raise e =>
      e = CheckFailure "get_shape() must be called on a static shape"
      /\ (Shape.m_rank_is_static s = false
          \/ exists d, In d (Shape.m_dimensions s)
                       /\ Dimension.get_min_val D d <> Dimension.get_max_val D d)
  end.
Proof.
  intros HD. unfold Shape.get_shape, Shape.get_min_shape, Shape.get_max_shape.
  rewrite (rank_is_static D HD), (rank_is_dynamic D HD).
  destruct (Shape.m_rank_is_static s); simpl.
  - destruct (Shape.get_shape_loop D (Shape.m_dimensions s) []) as [v|e] eqn:E.
    + apply get_shape_loop_Value in E. destruct E as [H1 [H2 _]]. simpl in H1, H2.
      split; [exact H1|]. split; [exact H2|]. split; [|reflexivity].
      rewrite H1. apply length_map.
    + apply get_shape_loop_Raise in E. destruct E as [H1 H2].
      split; [exact H1|right; exact H2].
  - split; [reflexivity|left; reflexivity].
Qed.

(** X20. When no dimension differs from itself, every shape equals
    itself, and two shapes of dynamic rank are equal whatever dimensions
    they hold. *)
Theorem equal_reflexive (s : Shape.t Dim) :
  laws D ->
  (forall d, Dimension.not_equal D d d = false) ->
  Shape.equal D s s = true
  /\ Shape.not_equal D s s = false
  /\ (forall s',
        Shape.m_rank_is_static s = false -> Shape.m_rank_is_static s' = false ->
        Shape.equal D s s' = true).
Proof.
  intros HD Hne.
  assert (He : Shape.equal D s s = true).
  { unfold Shape.equal. rewrite Hne.
    destruct (Dimension.is_dynamic D (Shape.rank D s)); [reflexivity|].
    apply forallb_forall. intros i _. rewrite Hne. reflexivity. }
  split; [exact He|]. split; [unfold Shape.not_equal; rewrite He; reflexivity|].
  intros s' Hs Hs'. unfold Shape.equal. rewrite (rank_is_dynamic D HD), Hs.
  unfold Shape.rank. rewrite Hs, Hs', Hne. reflexivity.
Qed.

End ShapeRank.

Section ShapeCache.

Import ov.
Local Open Scope Z_scope.

Context {Dim : Type} (D : Dimension.ops Dim).

(** X14. On a shape whose cache tells the truth [is_static] answers
    whether the rank and all dimensions are static; it leaves the rank and
    the dimensions as they are and the cache telling the truth, a second
    call gives the same answer, and only an unknown cache is written. *)
Theorem is_static_cache (s : Shape.t Dim) :
  coherent D s ->
  fst (Shape.is_static D s) = all_static D s
  /\ coherent D (snd (Shape.is_static D s))
  /\ Shape.is_static D (snd (Shape.is_static D s)) = Shape.is_static D s
  /\ Shape.m_rank_is_static (snd (Shape.is_static D s)) = Shape.m_rank_is_static s
  /\ Shape.m_dimensions (snd (Shape.is_static D s)) = Shape.m_dimensions s
  /\ (Shape.m_shape_type s <> SHAPE_IS_UNKNOWN -> snd (Shape.is_static D s) = s).
Proof.
  unfold coherent, Shape.is_static, all_static. destruct s as [r ty dims]. simpl.
  destruct ty; simpl; intros Hc;
    try rewrite Hc;
    destruct (r && forallb (Dimension.is_static D) dims) eqn:E; simpl;
    try discriminate; try rewrite E; simpl;
    repeat split; try reflexivity; try congruence; try assumption.
Qed.

Lemma merge_into_loop_coherent (dst src : Shape.t Dim) (idx : list nat) (success ok : bool)
    (dst' : Shape.t Dim) :
  coherent D dst ->
  Shape.merge_into_loop D dst src idx success = Value (ok, dst') ->
  coherent D dst'.
Proof.
  revert dst success. induction idx as [|i idx IH]; intros dst success Hc; simpl.
  - intros [= _ <-]. exact Hc.
  - unfold Shape.index.
    destruct (Z.of_nat (List.length (Shape.m_dimensions dst)) <=? Z.of_nat i);
      [discriminate|].
    destruct (Shape.index_const D src (Z.of_nat i)) as [x|e]; [|discriminate].
    destruct (Dimension.merge D _ _ x) as [ok1 d'].
    apply IH. exact I.
Qed.

(** X15. The cache of [is_static] stays true: [operator[]] on a
    shape that is not const marks the shape as updated, so that a write
    through the reference it answers is safe; [merge_rank] and
    [merge_into] leave the cache telling the truth; and the shape built
    from a [StaticShape], which is born with the static answer, tells the
    truth. *)
Theorem cache_kept_by_mutators (s : Shape.t Dim) :
  coherent D s ->
  (forall i d s',
      Shape.index D s i = Value (d, s') ->
      Shape.m_shape_type s' = SHAPE_IS_UPDATED
      /\ forall k d', coherent D (Shape.assign s' k d'))
  /\ (forall r, coherent D (snd (Shape.merge_rank D s r)))
  /\ (forall src ok dst',
        coherent D src ->
        Shape.merge_into D s src = Value (ok, dst') -> coherent D dst')
  /\ (forall lengths,
        laws D ->
        Forall (fun n => 0 <= n < 2 ^ 63) lengths ->
        coherent D (Shape.of_static_shape D lengths)).
Proof.
  intros Hc. split; [|split; [|split]].
  - intros i d s'. unfold Shape.index.
    destruct (_ <=? _); [discriminate|]. intros [= _ <-].
    split; [reflexivity|]. intros k d'. exact I.
  - intros r. unfold Shape.merge_rank.
    destruct (Dimension.is_dynamic D r); [exact Hc|].
    destruct (Shape.m_rank_is_static s); simpl; [exact Hc|exact I].
  - intros src ok dst' Hsrc. unfold Shape.merge_into.
    destruct (Dimension.is_dynamic D (Shape.rank D s)); [intros [= _ <-]; exact Hsrc|].
    destruct (Dimension.is_dynamic D (Shape.rank D src)); [intros [= _ <-]; exact Hc|].
    destruct (negb _); [intros [= _ <-]; exact Hc|].
    apply merge_into_loop_coherent. exact Hc.
  - intros lengths HD Hl. unfold coherent, Shape.of_static_shape, all_static. simpl.
    induction Hl as [|n l Hn Hl IH]; cbn [map forallb]; [reflexivity|].
    rewrite (to_int64_small n Hn), (of_length_static D HD n) by lia. exact IH.
Qed.

(** X13. On a shape whose cache tells the truth [to_shape] answers
    the lengths of the dimensions when the rank and all dimensions are
    static and throws its invalid-argument error otherwise; and the shape
    built from a [StaticShape] goes back to it. *)
Theorem to_shape_cases (s : Shape.t Dim) :
  coherent D s ->
  (all_static D s = true ->
   fst (Shape.to_shape D s)
   = Value (map (fun d => to_size_t (Dimension.get_length D d)) (Shape.m_dimensions s)))
  /\ (all_static D s = false ->
      fst (Shape.to_shape D s)
      = Raise (invalid_argument "to_shape was called on a dynamic shape."))
  /\ (forall lengths,
        laws D ->
        Forall (fun n => 0 <= n < 2 ^ 63) lengths ->
        fst (Shape.to_shape D (Shape.of_static_shape D lengths)) = Value lengths).
Proof.
  intros Hc.
  assert (Hs : forall s0 : Shape.t Dim,
             coherent D s0 ->
             Shape.to_shape D s0
             = (if all_static D s0
                then Value (map (fun d => to_size_t (Dimension.get_length D d))
                                (Shape.m_dimensions s0))
                else Raise (invalid_argument "to_shape was called on a dynamic shape."),
                snd (Shape.is_static D s0))).
  { intros [r ty dims]. unfold coherent, Shape.to_shape, Shape.is_dynamic,
      Shape.is_static, all_static. cbn [Shape.m_shape_type Shape.m_rank_is_static
                                        Shape.m_dimensions].
    destruct ty; cbn; intros H; try rewrite H; cbn;
      destruct (r && forallb (Dimension.is_static D) dims); try discriminate;
      reflexivity. }
  split; [|split].
  - intros H. rewrite (Hs s Hc), H. reflexivity.
  - intros H. rewrite (Hs s Hc), H. reflexivity.
  - intros lengths HD Hl.
    assert (Hst : all_static D (Shape.of_static_shape D lengths) = true).
    { unfold Shape.of_static_shape, all_static. cbn [Shape.m_rank_is_static
                                                       Shape.m_dimensions andb].
      induction Hl as [|n l Hn Hl IH]; cbn [map forallb]; [reflexivity|].
      rewrite (to_int64_small n Hn), (of_length_static D HD n) by lia. exact IH. }
    rewrite Hs by exact Hst. rewrite Hst. cbn [fst]. f_equal. clear Hst.
    unfold Shape.of_static_shape. cbn [Shape.m_dimensions]. rewrite map_map.
    induction Hl as [|n l Hn Hl IH]; cbn [map]; [reflexivity|].
    rewrite IH. f_equal.
    rewrite (to_int64_small n Hn), (get_length_of_length D HD n) by lia.
    apply Z.mod_small. lia.
Qed.

End ShapeCache.

(** ** [merge_into] *)

Lemma nth_skipn_cons {A : Type} (l : list A) (k : nat) (d : A) :
  (k < List.length l)%nat -> skipn k l = nth k l d :: skipn (S k) l.
Proof.
  revert k. induction l as [|a l IH]; intros k Hk; simpl in *; [lia|].
  destruct k as [|k]; [reflexivity|]. apply IH. lia.
Qed.

Lemma firstn_S_nth {A : Type} (l : list A) (k : nat) (d : A) :
  (k < List.length l)%nat -> firstn (S k) l = firstn k l ++ [nth k l d].
Proof.
  revert k. induction l as [|a l IH]; intros k Hk; simpl in *; [lia|].
  destruct k as [|k]; [reflexivity|]. simpl. f_equal. apply IH. lia.
Qed.

Lemma assign_step {A : Type} (M d0 : list A) (k : nat) (x d : A) :
  List.length M = List.length d0 -> (k < List.length d0)%nat -> nth k M d = x ->
  firstn k (firstn k M ++ skipn k d0) ++ x :: skipn (S k) (firstn k M ++ skipn k d0)
  = firstn (S k) M ++ skipn (S k) d0.
Proof.
  intros Hl Hk Hx.
  assert (Hf : List.length (firstn k M) = k) by (rewrite length_firstn; lia).
  rewrite firstn_app, Hf, Nat.sub_diag, firstn_O, app_nil_r.
  rewrite firstn_firstn, Nat.min_id.
  rewrite skipn_app, Hf.
  rewrite (skipn_all2 (firstn k M)) by lia.
  replace (S k - k)%nat with 1%nat by lia.
  rewrite skipn_skipn. rewrite app_nil_l.
  rewrite (firstn_S_nth M k d) by lia. rewrite Hx, <- app_assoc. reflexivity.
Qed.

Lemma nth_app_skipn {A : Type} (l1 l2 : list A) (k : nat) (d : A) :
  List.length l1 = k -> nth k (l1 ++ skipn k l2) d = nth k l2 d.
Proof.
  intros <-. rewrite app_nth2 by lia. rewrite Nat.sub_diag.
  revert l2. induction l1 as [|a l1 IH]; intros l2; simpl.
  - destruct l2; reflexivity.
  - destruct l2 as [|b l2]; simpl.
    + destruct (List.length l1); reflexivity.
    + apply IH.
Qed.

Section ShapeMerge.

Import ov.
Local Open Scope Z_scope.

Context {Dim : Type} (D : Dimension.ops Dim).
Variable init : ShapeType.

Lemma merge_into_loop_spec (dst0 src : Shape.t Dim) (n k : nat) (dst : Shape.t Dim)
    (success : bool) :
  List.length (Shape.m_dimensions dst0) = List.length (Shape.m_dimensions src) ->
  (k + n = List.length (Shape.m_dimensions dst0))%nat ->
  Shape.m_dimensions dst
  = firstn k (map snd (merged D dst0 src)) ++ skipn k (Shape.m_dimensions dst0) ->
  exists dst',
    Shape.merge_into_loop D dst src (seq k n) success
    = Value (success && forallb fst (skipn k (merged D dst0 src)), dst')
    /\ Shape.m_dimensions dst' = map snd (merged D dst0 src)
    /\ Shape.m_rank_is_static dst' = Shape.m_rank_is_static dst
    /\ Shape.m_shape_type dst'
       = match n with O => Shape.m_shape_type dst | _ => SHAPE_IS_UPDATED end.
Proof.
  intros Hlen. revert k dst success.
  assert (Hml : List.length (merged D dst0 src) = List.length (Shape.m_dimensions dst0)).
  { unfold merged. rewrite length_map, length_combine. lia. }
  induction n as [|n IH]; intros k dst success Hk Hd; simpl.
  - exists dst. rewrite skipn_all2 by lia. simpl. rewrite andb_true_r.
    split; [reflexivity|]. split; [|split; reflexivity].
    rewrite Hd, skipn_all2 by lia. rewrite app_nil_r.
    apply firstn_all2. rewrite length_map. lia.
  - assert (Hdl : List.length (Shape.m_dimensions dst) = List.length (Shape.m_dimensions dst0)).
    { rewrite Hd, length_app, length_firstn, length_skipn, length_map. lia. }
    rewrite (index_in D dst k) by lia.
    rewrite (index_const_in D src k) by lia.
    assert (Hat : Shape.at_ D dst k = Shape.at_ D dst0 k).
    { unfold Shape.at_. rewrite Hd. apply nth_app_skipn.
      rewrite length_firstn, length_map. lia. }
    rewrite Hat.
    destruct (Dimension.merge D (Shape.at_ D dst0 k) (Shape.at_ D dst0 k) (Shape.at_ D src k))
      as [ok d'] eqn:Em.
    assert (Hnth : nth k (merged D dst0 src) (true, Dimension.default D) = (ok, d')).
    { unfold merged.
      rewrite (nth_map_lt _ _ _ (Dimension.default D, Dimension.default D))
        by (rewrite length_combine; lia).
      rewrite nth_combine by lia. simpl. exact Em. }
    destruct (IH (S k) (Shape.assign (Shape.set_shape_type dst SHAPE_IS_UPDATED) k d')
                 (success && ok)) as [dst' [H1 [H2 [H3 H4]]]].
    + lia.
    + unfold Shape.assign, Shape.set_dimensions, Shape.set_shape_type.
      cbn [Shape.m_dimensions]. rewrite Hd.
      apply (assign_step _ _ _ _ (Dimension.default D)).
      * rewrite length_map. exact Hml.
      * lia.
      * rewrite (nth_map_lt _ _ _ (true, Dimension.default D)) by lia.
        rewrite Hnth. reflexivity.
    + exists dst'. split; [|split; [exact H2|split]].
      * rewrite H1. f_equal. f_equal.
        rewrite (nth_skipn_cons (merged D dst0 src) k (true, Dimension.default D)) by lia.
        simpl. rewrite Hnth. simpl. rewrite andb_assoc. reflexivity.
      * rewrite H3. reflexivity.
      * rewrite H4. destruct n; reflexivity.
Qed.

(** X17. [merge_into(dst, src)] never throws.  A [dst] of dynamic
    rank becomes [src]; a [src] of dynamic rank leaves [dst]; static ranks
    of different lengths give [false] and leave [dst]; static ranks of the
    same length give the dimensions that [Dimension::merge] answers, pair
    by pair, and the flag is [true] exactly when every pair merges. *)
Theorem merge_into_cases (dst src : Shape.t Dim) :
  laws D ->
  (Shape.m_rank_is_static dst = false -> Shape.merge_into D dst src = Value (true, src))
  /\ (Shape.m_rank_is_static dst = true -> Shape.m_rank_is_static src = false ->
      Shape.merge_into D dst src = Value (true, dst))
  /\ (Shape.m_rank_is_static dst = true -> Shape.m_rank_is_static src = true ->
      size dst <> size src ->
      Shape.merge_into D dst src = Value (false, dst))
  /\ (Shape.m_rank_is_static dst = true -> Shape.m_rank_is_static src = true ->
      size dst = size src ->
      exists dst',
        Shape.merge_into D dst src = Value (forallb fst (merged D dst src), dst')
        /\ Shape.m_dimensions dst' = map snd (merged D dst src)
        /\ Shape.m_rank_is_static dst' = true
        /\ List.length (Shape.m_dimensions dst') = List.length (Shape.m_dimensions dst)).
Proof.
  intros HD. unfold Shape.merge_into. rewrite !(rank_is_dynamic D HD).
  split; [|split; [|split]].
  - intros ->. reflexivity.
  - intros -> ->. reflexivity.
  - intros Hd Hs Hne. rewrite Hd, Hs. simpl.
    rewrite !(rank_get_length D HD) by assumption.
    destruct (Z.eqb_spec (size dst) (size src)); [contradiction|reflexivity].
  - intros Hd Hs He. rewrite Hd, Hs. simpl.
    rewrite !(rank_get_length D HD) by assumption.
    rewrite He, Z.eqb_refl. simpl. rewrite <- He, upto_size.
    unfold size in He. apply Nat2Z.inj in He.
    destruct (merge_into_loop_spec dst src (List.length (Shape.m_dimensions dst)) 0 dst true
                He eq_refl eq_refl) as [dst' [H1 [H2 [H3 _]]]].
    exists dst'. split; [exact H1|]. split; [exact H2|]. split; [congruence|].
    rewrite H2, length_map. unfold merged. rewrite length_map, length_combine. lia.
Qed.

End ShapeMerge.

(** ** [broadcast_merge_into] and [operator+] *)

Lemma to_size_t_small (x : Z) : (0 <= x < 2 ^ 64)%Z -> ov.to_size_t x = x.
Proof. intros H. unfold ov.to_size_t. apply Z.mod_small. exact H. Qed.

Lemma to_size_t_negative (x : Z) :
  (- 2 ^ 64 <= x < 0)%Z -> ov.to_size_t x = (2 ^ 64 + x)%Z.
Proof.
  intros H. unfold ov.to_size_t.
  rewrite <- (Z.mod_add x 1 (2 ^ 64)) by lia.
  rewrite Z.mod_small by lia. lia.
Qed.

Lemma map_seq_combine {A B C : Type} (f : A -> B -> C) (l : list A) (l' : list B)
    (d : A) (d' : B) :
  List.length l = List.length l' ->
  map (fun i => f (nth i l d) (nth i l' d')) (seq 0 (List.length l))
  = map (fun p => f (fst p) (snd p)) (combine l l').
Proof.
  revert l'. induction l as [|a l IH]; intros [|b l'] H; simpl in *; try lia;
    [reflexivity|].
  f_equal. rewrite <- seq_shift, map_map. apply IH. lia.
Qed.

Section ShapeBroadcast.

Import ov.
Local Open Scope Z_scope.

Context {Dim : Type} (D : Dimension.ops Dim).
Variable init : ShapeType.

Lemma pdpd_len_last (src : Shape.t Dim) (n : nat) :
  List.length (Shape.m_dimensions src) = S n ->
  Dimension.is_static D (Shape.at_ D src n)
  && (Dimension.get_length D (Shape.at_ D src n) =? 1) = false ->
  Shape.pdpd_len D src (S n) = Value (S n).
Proof.
  intros Hl Hc. simpl. rewrite index_const_in by lia. rewrite Hc. reflexivity.
Qed.

(** X24. [broadcast_merge_into] with PDPD and the axis -1, for a
    [src] with more dimensions than [dst]: the start index wraps around as
    a [size_t], so when the dimensions of [src] that are left after the
    trailing static ones are stripped are none, or as many as [src] has
    more than [dst] at least, no dimension is compared and the answer is
    [true], with [dst] untouched; when they are fewer, the first index is
    out of range and the call throws. *)
Theorem pdpd_longer_source (dst src : Shape.t Dim) (len : nat) :
  laws D ->
  Shape.m_rank_is_static dst = true -> Shape.m_rank_is_static src = true ->
  size dst < size src < 2 ^ 63 ->
  Shape.pdpd_len D src (List.length (Shape.m_dimensions src)) = Value len ->
  (len = 0%nat \/ size src - size dst <= Z.of_nat len ->
   Shape.broadcast_merge_into D init dst src (mkAutoBroadcastSpec PDPD (-1))
   = Value (true, dst))
  /\ (0 < Z.of_nat len < size src - size dst ->
      Shape.broadcast_merge_into D init dst src (mkAutoBroadcastSpec PDPD (-1))
      = Raise (out_of_range "Accessing out-of-range dimension in Dimension[]")).
Proof.
  intros HD Hd Hs Hlt Hlen.
  assert (Hsz : 0 <= size dst) by (unfold size; lia).
  assert (Hlen' : (len <= List.length (Shape.m_dimensions src))%nat).
  { clear - Hlen. revert Hlen.
    induction (List.length (Shape.m_dimensions src)) as [|n IH]; simpl.
    - intros [= <-]. lia.
    - destruct (Shape.index_const D src (Z.of_nat n)) as [d|e]; [|discriminate].
      destruct (_ && _); [|intros [= <-]; lia].
      intros H. apply IH in H. lia. }
  assert (Hpre :
            Shape.broadcast_merge_into D init dst src (mkAutoBroadcastSpec PDPD (-1))
            = Shape.pdpd_loop D dst src (size dst - size src)
                (map (fun k => to_size_t (size dst - size src) + Z.of_nat k)
                     (seq 0 (Z.to_nat (to_size_t (size dst - size src + Z.of_nat len)
                                       - to_size_t (size dst - size src)))))).
  { unfold Shape.broadcast_merge_into. simpl.
    rewrite !(rank_is_dynamic D HD), Hd, Hs. simpl.
    rewrite !(rank_get_length D HD) by assumption.
    destruct (Z.eqb_spec (size dst) (size src)); [lia|]. simpl.
    rewrite (to_size_t_small (size src)) by lia.
    replace (Z.to_nat (size src)) with (List.length (Shape.m_dimensions src))
      by (unfold size; lia).
    rewrite Hlen. reflexivity. }
  assert (Hlen2 : Z.of_nat len <= size src) by (unfold size; lia).
  rewrite Hpre. rewrite (to_size_t_negative (size dst - size src)) by lia.
  split.
  - intros [->|Hge].
    + rewrite Z.add_0_r. rewrite (to_size_t_negative (size dst - size src)) by lia.
      rewrite Z.sub_diag. reflexivity.
    + rewrite to_size_t_small by lia.
      replace (Z.to_nat _) with 0%nat by lia. reflexivity.
  - intros Hin.
    rewrite (to_size_t_negative (size dst - size src + Z.of_nat len)) by lia.
    replace (Z.to_nat _) with len by lia.
    destruct len as [|len]; [lia|]. cbn [seq map Shape.pdpd_loop].
    unfold Shape.index. fold (size dst). rewrite Z.add_0_r.
    destruct (Z.leb_spec (size dst) (2 ^ 64 + (size dst - size src))) as [_|Hc];
      [reflexivity|lia].
Qed.

Lemma numpy_loop_length (dst0 src : Shape.t Dim) (new_rank : nat) (n k : nat)
    (dst : Shape.t Dim) (dims : list Dim) (success : bool) :
  size dst0 < 2 ^ 64 -> size src < 2 ^ 64 ->
  new_rank = Nat.max (List.length (Shape.m_dimensions dst0))
                     (List.length (Shape.m_dimensions src)) ->
  (k + n = new_rank)%nat ->
  Shape.m_dimensions dst = Shape.m_dimensions dst0 ->
  List.length dims = new_rank ->
  exists ok dims',
    Shape.numpy_loop D dst src (size dst0) (size src) (Z.of_nat new_rank) (seq k n)
                     dims success
    = Value (ok, dims')
    /\ List.length dims' = new_rank.
Proof.
  intros Hd64 Hs64 Hnew. revert k dst dims success.
  induction n as [|n IH]; intros k dst dims success Hk Hdst Hdims;
    cbn [seq Shape.numpy_loop].
  - exists success, dims. split; [reflexivity|exact Hdims].
  - assert (Hdsti :
              exists dsti dst1,
                (if Z.of_nat k <? Z.of_nat new_rank - size dst0
                 then Value (Dimension.of_length D 1, dst)
                 else Shape.index D dst
                        (to_size_t (Z.of_nat k - (Z.of_nat new_rank - size dst0))))
                = Value (dsti, dst1)
                /\ Shape.m_dimensions dst1 = Shape.m_dimensions dst0).
    { destruct (Z.ltb_spec (Z.of_nat k) (Z.of_nat new_rank - size dst0)) as [H|H].
      - eexists _, _. split; [reflexivity|exact Hdst].
      - unfold size in *. rewrite to_size_t_small by lia.
        rewrite <- (Z2Nat.id (Z.of_nat k - _)) by lia.
        rewrite index_in by (rewrite Hdst; lia).
        eexists _, _. split; [reflexivity|]. simpl. exact Hdst. }
    destruct Hdsti as [dsti [dst1 [-> Hdst1]]].
    assert (Hsrci :
              exists srci,
                (if Z.of_nat k <? Z.of_nat new_rank - size src
                 then Value (Dimension.of_length D 1)
                 else Shape.index_const D src
                        (to_size_t (Z.of_nat k - (Z.of_nat new_rank - size src))))
                = Value srci).
    { destruct (Z.ltb_spec (Z.of_nat k) (Z.of_nat new_rank - size src)) as [H|H].
      - eexists. reflexivity.
      - unfold size in *. rewrite to_size_t_small by lia.
        rewrite <- (Z2Nat.id (Z.of_nat k - _)) by lia.
        rewrite index_const_in by lia. eexists. reflexivity. }
    destruct Hsrci as [srci ->].
    destruct (Dimension.broadcast_merge D (nth k dims (Dimension.default D)) dsti srci)
      as [ok d].
    apply IH; [lia|exact Hdst1|].
    rewrite length_app, length_firstn. cbn [List.length]. rewrite length_skipn. lia.
Qed.

(** X23. [broadcast_merge_into] with NONE leaves [dst] and answers
    [true]; with NUMPY it never throws, a dynamic rank on one side makes
    [dst] the shape of dynamic rank, and two static ranks give [dst] a
    static rank with as many dimensions as the longer of the two. *)
Theorem numpy_rank (dst src : Shape.t Dim) :
  laws D ->
  size dst < 2 ^ 64 -> size src < 2 ^ 64 ->
  (Shape.m_rank_is_static dst = false \/ Shape.m_rank_is_static src = false ->
   Shape.broadcast_merge_into D init dst src (mkAutoBroadcastSpec NUMPY 0)
   = Value (true, Shape.mk false init []))
  /\ (Shape.m_rank_is_static dst = true -> Shape.m_rank_is_static src = true ->
      exists ok dims,
        Shape.broadcast_merge_into D init dst src (mkAutoBroadcastSpec NUMPY 0)
        = Value (ok, Shape.mk true init dims)
        /\ Z.of_nat (List.length dims) = Z.max (size dst) (size src))
  /\ (forall axis,
        Shape.broadcast_merge_into D init dst src (mkAutoBroadcastSpec NONE axis)
        = Value (true, dst)).
Proof.
  intros HD Hd64 Hs64. split; [|split].
  - intros H. unfold Shape.broadcast_merge_into. simpl.
    rewrite !(rank_is_dynamic D HD).
    replace (negb (Shape.m_rank_is_static dst) || negb (Shape.m_rank_is_static src))
      with true by (destruct H as [-> | ->]; simpl; rewrite ?orb_true_r; reflexivity).
    unfold Shape.dynamic, Shape.make. rewrite (dynamic_not_static D HD). reflexivity.
  - intros Hd Hs. unfold Shape.broadcast_merge_into. simpl.
    rewrite !(rank_is_dynamic D HD), Hd, Hs. simpl.
    rewrite !(rank_get_length D HD) by assumption.
    set (new_rank := Nat.max (List.length (Shape.m_dimensions dst))
                             (List.length (Shape.m_dimensions src))).
    assert (Hn : Z.max (size dst) (size src) = Z.of_nat new_rank)
      by (unfold size, new_rank; lia).
    rewrite Hn. unfold Shape.upto. rewrite Nat2Z.id.
    destruct (numpy_loop_length dst src new_rank new_rank 0 dst
                (repeat (Dimension.default D) new_rank) true Hd64 Hs64 eq_refl
                eq_refl eq_refl (repeat_length _ _)) as [ok [dims' [H1 H2]]].
    rewrite H1. exists ok, dims'. split; [reflexivity|]. rewrite H2. reflexivity.
  - intros axis. reflexivity.
Qed.

Lemma plus_fold (s1 s2 : Shape.t Dim) (idx : list nat) (r : Shape.t Dim) :
  fold_left
    (fun result i =>
       Shape.set_dimensions result
         (Shape.m_dimensions result ++ [Dimension.plus D (Shape.at_ D s1 i) (Shape.at_ D s2 i)]))
    idx r
  = Shape.mk (Shape.m_rank_is_static r) (Shape.m_shape_type r)
      (Shape.m_dimensions r
       ++ map (fun i => Dimension.plus D (Shape.at_ D s1 i) (Shape.at_ D s2 i)) idx).
Proof.
  revert r. induction idx as [|i idx IH]; intros r; simpl.
  - rewrite app_nil_r. destruct r; reflexivity.
  - rewrite IH. simpl. rewrite <- app_assoc. reflexivity.
Qed.

(** X22. [operator+] answers the shape of dynamic rank when one of
    the ranks is dynamic, throws the rank-mismatch error when the static
    ranks are not compatible, and otherwise answers the shape of static
    rank whose dimensions are the sums, pair by pair. *)
Theorem plus_cases (s1 s2 : Shape.t Dim) :
  laws D ->
  (Shape.m_rank_is_static s1 = false \/ Shape.m_rank_is_static s2 = false ->
   Shape.plus D init s1 s2 = Value (Shape.mk false init []))
  /\ (Shape.m_rank_is_static s1 = true -> Shape.m_rank_is_static s2 = true ->
      Dimension.compatible D (Shape.rank D s1) (Shape.rank D s2) = false ->
      Shape.plus D init s1 s2 = Raise (invalid_argument "rank mismatch"))
  /\ (Shape.m_rank_is_static s1 = true -> Shape.m_rank_is_static s2 = true ->
      Dimension.compatible D (Shape.rank D s1) (Shape.rank D s2) = true ->
      size s1 = size s2 ->
      Shape.plus D init s1 s2 = Value (Shape.mk true init (sums D s1 s2))
      /\ List.length (sums D s1 s2) = List.length (Shape.m_dimensions s1)).
Proof.
  intros HD. unfold Shape.plus. rewrite !(rank_is_dynamic D HD). split; [|split].
  - intros H.
    replace (negb (Shape.m_rank_is_static s1) || negb (Shape.m_rank_is_static s2))
      with true by (destruct H as [-> | ->]; simpl; rewrite ?orb_true_r; reflexivity).
    unfold Shape.dynamic, Shape.make. rewrite (dynamic_not_static D HD). reflexivity.
  - intros H1 H2 Hc. rewrite H1, H2, Hc. reflexivity.
  - intros H1 H2 Hc He. rewrite H1, H2, Hc. simpl.
    unfold size in He. apply Nat2Z.inj in He. split.
    + rewrite plus_fold. simpl. unfold sums, Shape.at_.
      rewrite (map_seq_combine (Dimension.plus D)) by exact He. reflexivity.
    + unfold sums. rewrite length_map, length_combine. lia.
Qed.

End ShapeBroadcast.

(** ** The theorems at shapes of the examples *)

Lemma interval_compatible_symmetric (a b : IntervalDimension.t) :
  ov.Dimension.compatible IntervalDimension.ops a b
  = ov.Dimension.compatible IntervalDimension.ops b a.
Proof. simpl. rewrite Z.max_comm, Z.min_comm. reflexivity. Qed.

Lemma interval_not_equal_irreflexive (d : IntervalDimension.t) :
  ov.Dimension.not_equal IntervalDimension.ops d d = false.
Proof. simpl. rewrite !Z.eqb_refl. reflexivity. Qed.

(** The theorem at the shapes (1, ?, 3) and (1, 2, ?). *)
Lemma compatible_symmetric_witness :
  ov.Shape.compatible IntervalDimension.ops
    (IntervalDimension.shape [1; -1; 3]%Z) (IntervalDimension.shape [1; 2; -1]%Z)
  = ov.Shape.compatible IntervalDimension.ops
      (IntervalDimension.shape [1; 2; -1]%Z) (IntervalDimension.shape [1; -1; 3]%Z).
Proof.
  exact (proj1 (compatible_symmetric IntervalDimension.ops
                  (IntervalDimension.shape [1; -1; 3]%Z)
                  (IntervalDimension.shape [1; 2; -1]%Z)
                  interval_laws interval_compatible_symmetric)).
Defined.

(** The theorem at the shapes (1, 2, 3) and (1, ?, 3). *)
Lemma refines_relaxes_witness :
  ov.Shape.refines IntervalDimension.ops
    (IntervalDimension.shape [1; 2; 3]%Z) (IntervalDimension.shape [1; -1; 3]%Z)
  = ov.Shape.relaxes IntervalDimension.ops
      (IntervalDimension.shape [1; -1; 3]%Z) (IntervalDimension.shape [1; 2; 3]%Z).
Proof.
  exact (refines_relaxes IntervalDimension.ops
           (IntervalDimension.shape [1; 2; 3]%Z) (IntervalDimension.shape [1; -1; 3]%Z)
           (fun a b => eq_refl)).
Defined.

(** The theorem at the shape (1, 3, 224). *)
Lemma get_shape_min_max_witness :
  match ov.Shape.get_shape IntervalDimension.ops (IntervalDimension.shape [1; 3; 224]%Z) with
  | ov.Value v =>
      v = ov.Shape.get_min_shape IntervalDimension.ops (IntervalDimension.shape [1; 3; 224]%Z)
      /\ v = ov.Shape.get_max_shape IntervalDimension.ops
               (IntervalDimension.shape [1; 3; 224]%Z)
      /\ List.length v = 3%nat
      /\ True
  | ov.Raise e => False
  end.
Proof.
  pose proof (get_shape_min_max IntervalDimension.ops
                (IntervalDimension.shape [1; 3; 224]%Z) interval_laws) as H.
  destruct (ov.Shape.get_shape IntervalDimension.ops
              (IntervalDimension.shape [1; 3; 224]%Z)) as [v|e] eqn:E.
  - destruct H as [H1 [H2 [H3 _]]]. repeat split; assumption.
  - vm_compute in E. discriminate E.
Defined.

(** The theorem at the shape (1, ?, 3). *)
Lemma equal_reflexive_witness :
  ov.Shape.equal IntervalDimension.ops
    (IntervalDimension.shape [1; -1; 3]%Z) (IntervalDimension.shape [1; -1; 3]%Z) = true.
Proof.
  exact (proj1 (equal_reflexive IntervalDimension.ops
                  (IntervalDimension.shape [1; -1; 3]%Z)
                  interval_laws interval_not_equal_irreflexive)).
Defined.

(** The theorem at the shape (1, ?, 3), whose cache is unknown. *)
Lemma is_static_cache_witness :
  fst (ov.Shape.is_static IntervalDimension.ops (IntervalDimension.shape [1; -1; 3]%Z))
  = ov.all_static IntervalDimension.ops (IntervalDimension.shape [1; -1; 3]%Z)
  /\ ov.Shape.is_static IntervalDimension.ops
       (snd (ov.Shape.is_static IntervalDimension.ops
               (IntervalDimension.shape [1; -1; 3]%Z)))
     = ov.Shape.is_static IntervalDimension.ops (IntervalDimension.shape [1; -1; 3]%Z).
Proof.
  destruct (is_static_cache IntervalDimension.ops (IntervalDimension.shape [1; -1; 3]%Z) I)
    as [H1 [_ [H2 _]]].
  split; assumption.
Defined.

(** The theorem at the shape built from the static shape (1, 3). *)
Lemma cache_kept_by_mutators_witness :
  ov.coherent IntervalDimension.ops
    (snd (ov.Shape.merge_rank IntervalDimension.ops
            (ov.Shape.of_static_shape IntervalDimension.ops [1; 3]%Z)
            (IntervalDimension.of_length 2))).
Proof.
  assert (Hc : ov.coherent IntervalDimension.ops
                 (ov.Shape.of_static_shape IntervalDimension.ops [1; 3]%Z))
    by reflexivity.
  exact (proj1 (proj2 (cache_kept_by_mutators IntervalDimension.ops
                         (ov.Shape.of_static_shape IntervalDimension.ops [1; 3]%Z) Hc))
           (IntervalDimension.of_length 2)).
Defined.

(** The theorem at the shapes (1, ?, 3) and (1, 2, ?), which merge into
    (1, 2, 3). *)
Lemma merge_into_cases_witness :
  exists dst',
    ov.Shape.merge_into IntervalDimension.ops
      (IntervalDimension.shape [1; -1; 3]%Z) (IntervalDimension.shape [1; 2; -1]%Z)
    = ov.Value (true, dst')
    /\ ov.Shape.m_dimensions dst'
       = ov.Shape.m_dimensions (IntervalDimension.shape [1; 2; 3]%Z).
Proof.
  destruct (proj2 (proj2 (proj2
              (merge_into_cases IntervalDimension.ops
                 (IntervalDimension.shape [1; -1; 3]%Z)
                 (IntervalDimension.shape [1; 2; -1]%Z) interval_laws)))
              eq_refl eq_refl eq_refl) as [dst' [H1 [H2 _]]].
  exists dst'. split; [exact H1|exact H2].
Defined.

(** The theorem at the destination (2) with the sources (3, 4, 5), which is
    accepted, and (3, 1, 1), which throws. *)
Lemma pdpd_longer_source_witness :
  ov.Shape.broadcast_merge_into IntervalDimension.ops ov.SHAPE_IS_UNKNOWN
    (IntervalDimension.shape [2]%Z) (IntervalDimension.shape [3; 4; 5]%Z)
    (ov.mkAutoBroadcastSpec ov.PDPD (-1))
  = ov.Value (true, IntervalDimension.shape [2]%Z)
  /\ ov.Shape.broadcast_merge_into IntervalDimension.ops ov.SHAPE_IS_UNKNOWN
       (IntervalDimension.shape [2]%Z) (IntervalDimension.shape [3; 1; 1]%Z)
       (ov.mkAutoBroadcastSpec ov.PDPD (-1))
     = ov.Raise (ov.out_of_range "Accessing out-of-range dimension in Dimension[]").
Proof.
  split.
  - apply (proj1 (pdpd_longer_source IntervalDimension.ops ov.SHAPE_IS_UNKNOWN
                    (IntervalDimension.shape [2]%Z) (IntervalDimension.shape [3; 4; 5]%Z)
                    3 interval_laws eq_refl eq_refl
                    (conj eq_refl eq_refl) eq_refl)).
    right. vm_compute. discriminate.
  - apply (proj2 (pdpd_longer_source IntervalDimension.ops ov.SHAPE_IS_UNKNOWN
                    (IntervalDimension.shape [2]%Z) (IntervalDimension.shape [3; 1; 1]%Z)
                    1 interval_laws eq_refl eq_refl
                    (conj eq_refl eq_refl) eq_refl)).
    vm_compute. split; reflexivity.
Defined.

(** The theorem at the shapes (5, 1) and (2, 1, 4). *)
Lemma numpy_rank_witness :
  exists ok dims,
    ov.Shape.broadcast_merge_into IntervalDimension.ops ov.SHAPE_IS_UNKNOWN
      (IntervalDimension.shape [5; 1]%Z) (IntervalDimension.shape [2; 1; 4]%Z)
      (ov.mkAutoBroadcastSpec ov.NUMPY 0)
    = ov.Value (ok, ov.Shape.mk true ov.SHAPE_IS_UNKNOWN dims)
    /\ List.length dims = 3%nat.
Proof.
  destruct (proj1 (proj2
              (numpy_rank IntervalDimension.ops ov.SHAPE_IS_UNKNOWN
                 (IntervalDimension.shape [5; 1]%Z) (IntervalDimension.shape [2; 1; 4]%Z)
                 interval_laws eq_refl eq_refl)) eq_refl eq_refl)
    as [ok [dims [H1 H2]]].
  exists ok, dims. split; [exact H1|].
  change (Z.of_nat (List.length dims) = 3%Z) in H2. lia.
Defined.

(** The theorem at (1, 2) + (3, 4), which is (4, 6), and at (1, 2) + (3, 4, 5). *)
Lemma plus_cases_witness :
  ov.Shape.plus IntervalDimension.ops ov.SHAPE_IS_UNKNOWN
    (IntervalDimension.shape [1; 2]%Z) (IntervalDimension.shape [3; 4]%Z)
  = ov.Value (IntervalDimension.shape [4; 6]%Z)
  /\ ov.Shape.plus IntervalDimension.ops ov.SHAPE_IS_UNKNOWN
       (IntervalDimension.shape [1; 2]%Z) (IntervalDimension.shape [3; 4; 5]%Z)
     = ov.Raise (ov.invalid_argument "rank mismatch").
Proof.
  split.
  - exact (proj1 (proj2 (proj2
              (plus_cases IntervalDimension.ops ov.SHAPE_IS_UNKNOWN
                 (IntervalDimension.shape [1; 2]%Z) (IntervalDimension.shape [3; 4]%Z)
                 interval_laws)) eq_refl eq_refl eq_refl eq_refl)).
  - exact (proj1 (proj2
              (plus_cases IntervalDimension.ops ov.SHAPE_IS_UNKNOWN
                 (IntervalDimension.shape [1; 2]%Z) (IntervalDimension.shape [3; 4; 5]%Z)
                 interval_laws)) eq_refl eq_refl eq_refl).
Defined.

(** The theorem at the static shape (1, 3, 224). *)
Lemma to_shape_cases_witness :
  fst (ov.Shape.to_shape IntervalDimension.ops
         (ov.Shape.of_static_shape IntervalDimension.ops [1; 3; 224]%Z))
  = ov.Value [1; 3; 224]%Z.
Proof.
  assert (Hc : ov.coherent IntervalDimension.ops
                 (ov.Shape.of_static_shape IntervalDimension.ops [1; 3; 224]%Z))
    by reflexivity.
  apply (proj2 (proj2 (to_shape_cases IntervalDimension.ops
                         (ov.Shape.of_static_shape IntervalDimension.ops [1; 3; 224]%Z)
                         Hc))).
  - exact interval_laws.
  - repeat constructor; lia.
Defined.
